(** * AsyncGame: line transport, connection registry and session orchestrator

    A shallow embedding of [streams_util.py], [server.py], [game.py],
    [game_rps.py] and [game_manager.py].

    - Python [str] is a list of code points and [bytes] a list of byte
      values, both carried by [N]; [str.encode()] and [bytes.decode()] are
      strict UTF-8.
    - Exceptions and non-termination are explicit: every effectful
      operation returns a [res], and the state it reached is kept also when
      it raises, as Python keeps the mutations made before a [raise].
    - Loops that the source bounds only by its input ([while True], the
      read loop of [readline], the mutual recursion of [close_connection]
      and [send_message]) take a [fuel] argument and answer [Diverge] when
      it runs out.
    - Logging calls and the frame stream to the visualizer (the two frame
      queues and the replay file) are output only and are left out. *)

From Stdlib Require Import ZArith NArith Lia Ascii String.
From stdpp Require Import gmap list fin_maps.

Open Scope N_scope.

(** Linear arithmetic over [N] with division and remainder by constants. *)
Ltac nlia := zify; Z.to_euclidean_division_equations; lia.

(* ===================================================================== *)
(** ** Python values: exceptions, results, strings *)
(* ===================================================================== *)

Module Py.

Inductive exn :=
| ConnectionResetError
| BrokenPipeError
| UnicodeDecodeError
| UnicodeEncodeError
| IndexError
| RuntimeError
| NotImplementedError
| AttributeError
| PlayerDisconnectedError
| GameOverError.

#[global] Instance exn_eq_dec : EqDecision exn.
Proof. solve_decision. Defined.

(** Outcome of a call: a value, a raised exception, or no answer within
    the fuel given. *)
Inductive res (A : Type) :=
| Ret (a : A)
| Raise (e : exn)
| Diverge.
Arguments Ret {A} a.
Arguments Raise {A} e.
Arguments Diverge {A}.

(** State-and-exception monad: the state is threaded through and survives
    a [Raise]. *)
Definition M (S A : Type) : Type := S -> res A * S.

Definition ret {S A} (a : A) : M S A := fun s => (Ret a, s).
Definition raise {S A} (e : exn) : M S A := fun s => (Raise e, s).
Definition diverge {S A} : M S A := fun s => (Diverge, s).
Definition bind {S A B} (m : M S A) (k : A -> M S B) : M S B :=
  fun s =>
    match m s with
    | (Ret a, s') => k a s'
    | (Raise e, s') => (Raise e, s')
    | (Diverge, s') => (Diverge, s')
    end.
Definition get {S} : M S S := fun s => (Ret s, s).
Definition gets {S A} (f : S -> A) : M S A := fun s => (Ret (f s), s).
Definition modify {S} (f : S -> S) : M S unit := fun s => (Ret tt, f s).

(** [keeps R op]: whatever the outcome of [op], the state it leaves is
    related by [R] to the state it started from. *)
Definition keeps {S A} (R : S -> S -> Prop) (op : M S A) : Prop :=
  forall s r s', op s = (r, s') -> R s s'.

(** Code points and byte values. *)
Abbreviation str := (list N).
Abbreviation bytes := (list N).

(** An ASCII literal as a Python [str]. *)
Definition py (s : string) : str := map N_of_ascii (list_ascii_of_string s).
Arguments py s%_string.

Definition LF : N := 10.
Definition CR : N := 13.

(** *** UTF-8 *)

(** Unicode scalar values: what a [str] may hold and still be encodable
    (lone surrogates are not). *)
Definition is_scalar (c : N) : bool :=
  (c <? 0xD800) || ((0xDFFF <? c) && (c <=? 0x10FFFF)).

Definition encode_cp (c : N) : bytes :=
  if c <? 0x80 then [c]
  else if c <? 0x800 then [0xC0 + c / 64; 0x80 + c mod 64]
  else if c <? 0x10000 then
    [0xE0 + c / 4096; 0x80 + (c / 64) mod 64; 0x80 + c mod 64]
  else
    [0xF0 + c / 262144; 0x80 + (c / 4096) mod 64;
     0x80 + (c / 64) mod 64; 0x80 + c mod 64].

Definition utf8 (s : str) : bytes := flat_map encode_cp s.

(** [message.encode()]: [None] stands for [UnicodeEncodeError]. *)
Definition encode (s : str) : option bytes :=
  if forallb is_scalar s then Some (utf8 s) else None.

Definition is_cont (b : N) : bool := (0x80 <=? b) && (b <? 0xC0).

(** [data.decode()], strict: [None] stands for [UnicodeDecodeError]
    (truncated sequence, stray continuation byte, overlong form, surrogate,
    or value above U+10FFFF). *)
Fixpoint decode (b : bytes) : option str :=
  match b with
  | [] => Some []
  | b0 :: r0 =>
    if b0 <? 0x80 then option_map (cons b0) (decode r0)
    else if b0 <? 0xC0 then None
    else if b0 <? 0xE0 then
      match r0 with
      | b1 :: r1 =>
        let c := (b0 - 0xC0) * 64 + (b1 - 0x80) in
        if is_cont b1 && (0x80 <=? c)
        then option_map (cons c) (decode r1) else None
      | _ => None
      end
    else if b0 <? 0xF0 then
      match r0 with
      | b1 :: b2 :: r2 =>
        let c := (b0 - 0xE0) * 4096 + (b1 - 0x80) * 64 + (b2 - 0x80) in
        if is_cont b1 && is_cont b2 && (0x800 <=? c) && is_scalar c
        then option_map (cons c) (decode r2) else None
      | _ => None
      end
    else if b0 <? 0xF8 then
      match r0 with
      | b1 :: b2 :: b3 :: r3 =>
        let c := (b0 - 0xF0) * 262144 + (b1 - 0x80) * 4096
                 + (b2 - 0x80) * 64 + (b3 - 0x80) in
        if is_cont b1 && is_cont b2 && is_cont b3
           && (0x10000 <=? c) && is_scalar c
        then option_map (cons c) (decode r3) else None
      | _ => None
      end
    else None
  end.

(** *** String operations used by the source *)

(** [s.startswith(p)], returning what follows the prefix. *)
Fixpoint after_prefix (p s : str) : option str :=
  match p, s with
  | [], _ => Some s
  | a :: p', b :: s' => if a =? b then after_prefix p' s' else None
  | _ :: _, [] => None
  end.

Definition startswith (s p : str) : bool :=
  match after_prefix p s with Some _ => true | None => false end.

Definition endswith (s p : str) : bool := startswith (rev s) (rev p).

(** [sep in s] together with [s.split(sep, 1)]: the text before the first
    occurrence of [sep] and the text after it. *)
Fixpoint split_once (sep s : str) : option (str * str) :=
  match after_prefix sep s with
  | Some rest => Some ([], rest)
  | None =>
    match s with
    | [] => None
    | c :: s' =>
      match split_once sep s' with
      | Some (a, b) => Some (c :: a, b)
      | None => None
      end
    end
  end.

(** Whether ["\r\n"] occurs in [s]. *)
Fixpoint has_crlf (s : str) : bool :=
  match s with
  | a :: (b :: _) as s' => ((a =? CR) && (b =? LF)) || has_crlf s'
  | _ => false
  end.

(** [str.isspace] for one character (CPython's [_PyUnicode_IsWhitespace]). *)
Definition isspace (c : N) : bool :=
  ((9 <=? c) && (c <=? 13)) || ((28 <=? c) && (c <=? 32))
  || (c =? 0x85) || (c =? 0xA0) || (c =? 0x1680)
  || ((0x2000 <=? c) && (c <=? 0x200A))
  || (c =? 0x2028) || (c =? 0x2029) || (c =? 0x202F)
  || (c =? 0x205F) || (c =? 0x3000).

Fixpoint lstrip (s : str) : str :=
  match s with
  | [] => []
  | c :: s' => if isspace c then lstrip s' else s
  end.

Definition rstrip (s : str) : str := rev (lstrip (rev s)).

(** [s.strip()] *)
Definition strip (s : str) : str := rstrip (lstrip s).

(** The character class [[a-zA-Z0-9]]. *)
Definition is_alnum (c : N) : bool :=
  ((48 <=? c) && (c <=? 57)) || ((65 <=? c) && (c <=? 90))
  || ((97 <=? c) && (c <=? 122)).

Definition underscore : N := 95.

(** [re.sub("[^a-zA-Z0-9]+", "_", s)], scanning left to right: [in_run]
    tells that the previous character was outside the class, so that the
    maximal run it belongs to has already produced its one underscore. *)
Fixpoint sub_runs (in_run : bool) (s : str) : str :=
  match s with
  | [] => []
  | c :: s' =>
    if is_alnum c then c :: sub_runs false s'
    else if in_run then sub_runs true s'
    else underscore :: sub_runs true s'
  end.

Definition re_sub_non_alnum (s : str) : str := sub_runs false s.

End Py.

Export Py.

Declare Scope py_scope.
Notation "'let*' x ':=' m 'in' k" := (bind m (fun x => k))
  (at level 10, x name, m at level 100, k at level 200) : py_scope.
Notation "m ';;;' k" := (bind m (fun _ => k))
  (at level 100, k at level 200, right associativity) : py_scope.
Open Scope py_scope.

(* ===================================================================== *)
(** ** streams_util.py *)
(* ===================================================================== *)

Module StreamsUtil.

(** What reaches an [asyncio.StreamReader] before end-of-stream: bytes
    that are there together when a read looks, or [ConnectionResetError]. *)
Inductive read_event :=
| Chunk (data : bytes)
| Reset.

(** An [asyncio.StreamReader] is the list of events still to come. Once
    the list is exhausted the stream is at end-of-stream and every further
    read answers [b""] at once. *)
Abbreviation Reader := (list read_event).

(** [await reader.read(n)]: at most [n] bytes of what is there; the rest
    stays in the reader for the next read. *)
Definition reader_read (n : nat) (r : Reader) : res bytes * Reader :=
  match r with
  | [] => (Ret [], [])
  | Chunk data :: r' =>
    if (length data <=? n)%nat then (Ret data, r')
    else (Ret (take n data), Chunk (drop n data) :: r')
  | Reset :: r' => (Raise ConnectionResetError, r')
  end.

(** The transport behind an [asyncio.StreamWriter].
    - [Healthy]: writes go through.
    - [Broken]: the peer is gone and the transport has not noticed yet; the
      next write and drain raise [ConnectionResetError] or
      [BrokenPipeError], by which time asyncio has marked the transport as
      closing.
    - [Closing]: [is_closing()] answers true. *)
Inductive transport := Healthy | Broken | Closing.

Record Writer := mkWriter {
  wstate : transport;
  sent : bytes
}.

Definition is_closing (w : Writer) : bool :=
  match wstate w with Closing => true | _ => false end.

(** [writer.close()] *)
Definition writer_close (w : Writer) : Writer :=
  {| wstate := Closing; sent := sent w |}.

(** The state of one [readline] call site: the reader and the deque of
    buffered text. *)
Record Input := mkInput {
  reader : Reader;
  buffer : list str
}.

(** [for eol in ["\r\n", "\n"]: if eol in message: message.split(eol, 1)] *)
Definition find_eol (message : str) : option (str * str) :=
  match split_once [CR; LF] message with
  | Some r => Some r
  | None => split_once [LF] message
  end.

(** Lines 14-24, the loop over the buffered text. The answer is
    [inl (line, buffer')] when a delimiter was found and
    [inr message] when the buffer ran out first. *)
Fixpoint drain_buffer (message : str) (buffer : list str)
  : (str * list str) + str :=
  match buffer with
  | [] => inr message
  | b :: buffer' =>
    let message := message ++ b in
    match find_eol message with
    | Some (line, extra) =>
      inl (line, if extra is [] then buffer' else extra :: buffer')
    | None => drain_buffer message buffer'
    end
  end.

(** Lines 42-45, reached when the read loop ends or is interrupted. *)
Definition after_loop (data : bytes) : res (option str) :=
  match data with
  | [] => Ret None
  | _ =>
    match decode data with
    | Some message => Ret (Some message)
    | None => Raise UnicodeDecodeError
    end
  end.

(** Lines 27-36, [while data := data + await reader.read(100)]. Each
    iteration takes one unit of fuel. *)
Fixpoint read_loop (fuel : nat) (data : bytes) : M Input (option str) :=
  fun i =>
  match fuel with
  | O => (Diverge, i)
  | S fuel' =>
    match reader_read 100 (reader i) with
    | (Ret chunk, r') =>
      let i := {| reader := r'; buffer := buffer i |} in
      let data := data ++ chunk in
      match data with
      | [] => (after_loop data, i)
      | _ =>
        match decode data with
        | None => (Raise UnicodeDecodeError, i)
        | Some message =>
          match find_eol message with
          | Some (line, extra) =>
            (Ret (Some line),
             {| reader := r';
                buffer := if extra is [] then buffer i
                          else buffer i ++ [extra] |})
          | None => read_loop fuel' data i
          end
        end
      end
    | (Raise ConnectionResetError, r') =>
      (after_loop data, {| reader := r'; buffer := buffer i |})
    | (Raise e, r') => (Raise e, {| reader := r'; buffer := buffer i |})
    | (Diverge, r') => (Diverge, {| reader := r'; buffer := buffer i |})
    end
  end.

(** [readline(name, reader, buffer)]; [Ret None] is Python's [None]. *)
Definition readline (fuel : nat) : M Input (option str) :=
  fun i =>
  match drain_buffer [] (buffer i) with
  | inl (line, buffer') =>
    (Ret (Some line), {| reader := reader i; buffer := buffer' |})
  | inr message =>
    let i := {| reader := reader i; buffer := [] |} in
    match encode message with
    | None => (Raise UnicodeEncodeError, i)
    | Some data => read_loop fuel data i
    end
  end.

(** [writeline(name, writer, message)] *)
Definition writeline (message : str) : M Writer bool :=
  fun w =>
  let message := if endswith message [LF] then message else message ++ [LF] in
  if is_closing w then (Ret false, w)
  else
    match encode message with
    | None => (Raise UnicodeEncodeError, w)
    | Some data =>
      match wstate w with
      | Healthy => (Ret true, {| wstate := Healthy; sent := sent w ++ data |})
      | _ => (Ret false, {| wstate := Closing; sent := sent w |})
      end
    end.

(** Writing a sequence of lines, stopping at the first failure. *)
Fixpoint write_lines (lines : list str) : M Writer bool :=
  match lines with
  | [] => ret true
  | l :: lines' =>
    let* ok := writeline l in
    if ok then write_lines lines' else ret false
  end.

(** Calling [readline] [n] times on the same reader and buffer. *)
Fixpoint read_lines (fuel n : nat) : M Input (list (option str)) :=
  match n with
  | O => ret []
  | S n' =>
    let* l := readline fuel in
    let* ls := read_lines fuel n' in
    ret (l :: ls)
  end.

(** What successive [reader.read(n)] return of bytes that are there
    together: blocks of [n] bytes and a last one of at most [n]. [fuel]
    bounds the number of blocks. *)
Fixpoint cut_go (fuel n : nat) (data : bytes) : list bytes :=
  match fuel with
  | O => [data]
  | S fuel' =>
    if (length data <=? n)%nat then [data]
    else take n data :: cut_go fuel' n (drop n data)
  end.

Definition cut (n : nat) (data : bytes) : list bytes :=
  cut_go (length data) n data.

(** What the successive [reader.read(n)] return of a stream that delivers
    the chunks [data]. *)
Definition reads (n : nat) (data : list bytes) : list bytes :=
  flat_map (cut n) data.

End StreamsUtil.

(* ===================================================================== *)
(** ** server.py *)
(* ===================================================================== *)

Module Server.
Import StreamsUtil.

(** [connection.type]: [""], ["BROWSER"] or ["SOCKET"]. *)
Inductive conn_type := NoType | BROWSER | SOCKET.

Record Connection := mkConnection {
  addr : str * N;
  name : str;
  type : conn_type;
  input : Input;                 (* [reader] and [buffer] *)
  writer : Writer;
  attributes : gmap str Z
}.

Definition with_name (n : str) (k : Connection) : Connection :=
  mkConnection (addr k) n (type k) (input k) (writer k) (attributes k).
Definition with_type (t : conn_type) (k : Connection) : Connection :=
  mkConnection (addr k) (name k) t (input k) (writer k) (attributes k).
Definition with_input (i : Input) (k : Connection) : Connection :=
  mkConnection (addr k) (name k) (type k) i (writer k) (attributes k).
Definition with_writer (w : Writer) (k : Connection) : Connection :=
  mkConnection (addr k) (name k) (type k) (input k) w (attributes k).
Definition with_attributes (a : gmap str Z) (k : Connection) : Connection :=
  mkConnection (addr k) (name k) (type k) (input k) (writer k) a.

(** [Connection.is_closed] *)
Definition is_closed (k : Connection) : bool := is_closing (writer k).

(** [Connection.increment_attribute(attribute, amount=1)] *)
Definition increment_attribute (attribute : str) (amount : Z)
    (k : Connection) : Connection :=
  let attrs :=
    match attributes k !! attribute with
    | None => <[attribute := 0%Z]> (attributes k)
    | Some _ => attributes k
    end in
  with_attributes
    (<[attribute := (default 0%Z (attrs !! attribute) + 1)%Z]> attrs) k.

(** The server and the [Connection] objects it holds references to.
    Connections are compared by identity (the dataclass equality compares
    the reader and writer objects, which no two connections share), so the
    lists and queues hold identities and [objects] holds the fields.
    [ping_tasks] lists the keepalive tasks created; [close_calls] records
    the argument of every [close_connection] call and is read by no
    operation. *)
Record State := mkState {
  objects : gmap nat Connection;
  connections : list nat;
  names : gmap str nat;
  old_attributes : gmap str (gmap str Z);
  connection_queue : list nat;
  disconnection_queue : list nat;
  ping_tasks : list nat;
  close_calls : list nat
}.

Definition init : State := mkState ∅ [] ∅ ∅ [] [] [] [].

Definition with_objects (o : gmap nat Connection) (s : State) : State :=
  mkState o (connections s) (names s) (old_attributes s)
    (connection_queue s) (disconnection_queue s) (ping_tasks s) (close_calls s).
Definition with_connections (l : list nat) (s : State) : State :=
  mkState (objects s) l (names s) (old_attributes s)
    (connection_queue s) (disconnection_queue s) (ping_tasks s) (close_calls s).
Definition with_names (n : gmap str nat) (s : State) : State :=
  mkState (objects s) (connections s) n (old_attributes s)
    (connection_queue s) (disconnection_queue s) (ping_tasks s) (close_calls s).
Definition with_old_attributes (a : gmap str (gmap str Z)) (s : State) : State :=
  mkState (objects s) (connections s) (names s) a
    (connection_queue s) (disconnection_queue s) (ping_tasks s) (close_calls s).
Definition with_connection_queue (q : list nat) (s : State) : State :=
  mkState (objects s) (connections s) (names s) (old_attributes s)
    q (disconnection_queue s) (ping_tasks s) (close_calls s).
Definition with_disconnection_queue (q : list nat) (s : State) : State :=
  mkState (objects s) (connections s) (names s) (old_attributes s)
    (connection_queue s) q (ping_tasks s) (close_calls s).
Definition with_ping_tasks (t : list nat) (s : State) : State :=
  mkState (objects s) (connections s) (names s) (old_attributes s)
    (connection_queue s) (disconnection_queue s) t (close_calls s).
Definition with_close_calls (l : list nat) (s : State) : State :=
  mkState (objects s) (connections s) (names s) (old_attributes s)
    (connection_queue s) (disconnection_queue s) (ping_tasks s) l.

(** A connection nobody holds: what a dangling identity reads as. *)
Definition no_connection : Connection :=
  mkConnection ([], 0) [] NoType (mkInput [] []) (mkWriter Closing []) ∅.

Definition conn (c : nat) (s : State) : Connection :=
  default no_connection (objects s !! c).

Definition update_conn (c : nat) (f : Connection -> Connection) (s : State)
  : State :=
  with_objects (<[c := f (conn c s)]> (objects s)) s.

(** [streams_util.writeline(connection.name, connection.writer, message)] *)
Definition conn_writeline (c : nat) (message : str) : M State bool :=
  fun s =>
    let (r, w) := writeline message (writer (conn c s)) in
    (r, update_conn c (with_writer w) s).

(** [streams_util.readline(connection.name, connection.reader,
    connection.buffer)] *)
Definition conn_readline (fuel : nat) (c : nat) : M State (option str) :=
  fun s =>
    let (r, i) := readline fuel (input (conn c s)) in
    (r, update_conn c (with_input i) s).

(** [Server.prefix_message] *)
Definition prefix_message (message : str) (expected_response : bool) : str :=
  if startswith message (py "Y: ") || startswith message (py "N: ")
  then message
  else if expected_response then py "Y: " ++ message
  else py "N: " ++ message.

(** [Server.name_exists] *)
Definition name_exists (n : str) (s : State) : bool :=
  bool_decide (is_Some (names s !! n)).

(** [list.remove]: drops the first occurrence. *)
Fixpoint list_remove (c : nat) (l : list nat) : list nat :=
  match l with
  | [] => []
  | x :: l' => if decide (x = c) then l' else x :: list_remove c l'
  end.

(** [Server.send_message], with the [close_connection] it calls on a
    failed write passed in. *)
Definition send_message_with (close : nat -> M State unit)
    (c : nat) (message : str) : M State unit :=
  let* k := gets (conn c) in
  let message :=
    match type k with
    | SOCKET => prefix_message message false
    | _ => message
    end in
  let* success := conn_writeline c message in
  if success then ret tt else close c.

(** Lines 139-154 of [close_connection]: the connection leaves the live
    list and the name index, its transport is closed, its attributes are
    kept under its name, and it joins the disconnect queue. The
    attributes are kept as a value; the source keeps the dict object
    itself, which the closed connection goes on holding. *)
Definition close_tail (c : nat) : M State unit :=
  modify (fun s =>
    if bool_decide (c ∈ connections s)
    then with_connections (list_remove c (connections s)) s else s) ;;;
  modify (fun s =>
    if bool_decide (is_Some (names s !! name (conn c s)))
    then with_names (delete (name (conn c s)) (names s)) s else s) ;;;
  modify (update_conn c (fun k => with_writer (writer_close (writer k)) k)) ;;;
  modify (fun s =>
    let k := conn c s in
    if bool_decide (attributes k = ∅) then s
    else with_old_attributes
           (<[name k := attributes k]> (old_attributes s)) s) ;;;
  modify (fun s =>
    with_disconnection_queue (disconnection_queue s ++ [c]) s).

(** [Server.close_connection]. The fuel bounds the depth of the recursion
    through [send_message]. *)
Fixpoint close_connection (fuel : nat) (c : nat) : M State unit :=
  match fuel with
  | O => diverge
  | S fuel' =>
    modify (fun s => with_close_calls (close_calls s ++ [c]) s) ;;;
    let* closed := gets (fun s => is_closed (conn c s)) in
    (if closed then ret tt
     else send_message_with (close_connection fuel') c (py "quit")) ;;;
    close_tail c
  end.

(** How many disconnect events the queue holds for a connection. *)
Definition disconnect_events (c : nat) (s : State) : nat :=
  length (filter (fun x => x = c) (disconnection_queue s)).

(** [Server.send_message] *)
Definition send_message (fuel : nat) (c : nat) (message : str)
  : M State unit :=
  send_message_with (close_connection fuel) c message.

(** [Server.read_message] *)
Definition read_message (fuel : nat) (c : nat) : M State (option str) :=
  let* response := conn_readline fuel c in
  match response with
  | None => close_connection fuel c ;;; ret None
  | Some r =>
    if bool_decide (r = py "quit")
    then close_connection fuel c ;;; ret None
    else ret (Some r)
  end.

(** [Server.get_response] *)
Definition get_response (fuel : nat) (c : nat) (prompt : str)
  : M State (option str) :=
  let* k := gets (conn c) in
  let prompt :=
    match type k with
    | SOCKET => prefix_message prompt true
    | _ => prompt
    end in
  send_message fuel c prompt ;;;
  read_message fuel c.

(** One iteration of the [while True] of [Server.ping_connection]; the
    answer tells whether the task goes on to [asyncio.sleep(2)] and the
    next iteration. *)
Definition ping_connection_step (fuel : nat) (c : nat) : M State bool :=
  let* closed := gets (fun s => is_closed (conn c s)) in
  if closed then ret false
  else
    let* success := conn_writeline c (py "PING") in
    if success then ret true
    else close_connection fuel c ;;; ret false.

(** Lines 84-85 of [handle_hello_connection]:
    [name.strip()] then [re.sub("[^a-zA-Z0-9]+", "_", name)]. *)
Definition normalize_name (raw : str) : str :=
  re_sub_non_alnum (strip raw).

Definition sorry_no_letters : str :=
  py "Sorry, you must have letters or numbers in your name".
Definition sorry_too_short : str :=
  py "Sorry, your name must be 2 or more letters".
Definition sorry_too_long : str :=
  py "Sorry, your name must be 10 or fewer letters".
Definition sorry_taken : str :=
  py "Sorry, that name is already being used".

(** Lines 87-101: the chain of checks on the normalized name. The answer
    is the message of the first check that fails, after which the source
    sends it and [continue]s. *)
Definition name_problem (n : str) (s : State) : option str :=
  if bool_decide (n = []) || bool_decide (n = py "_")
  then Some sorry_no_letters
  else if (length n <? 2)%nat then Some sorry_too_short
  else if (10 <? length n)%nat then Some sorry_too_long
  else if name_exists n s then Some sorry_taken
  else None.

(** Lines 103-115: the name is accepted. The connection takes the saved
    attributes as a value; in the source it takes the saved dict object
    itself and from then on shares it with [old_attributes] and with the
    closed connection that left it, which shows once a later
    [increment_attribute] changes it. *)
Definition register (c : nat) (n : str) : M State unit :=
  modify (update_conn c (with_name n)) ;;;
  modify (fun s =>
    match old_attributes s !! n with
    | Some a => update_conn c (with_attributes a) s
    | None => s
    end) ;;;
  modify (fun s => with_connections (connections s ++ [c]) s) ;;;
  modify (fun s => with_names (<[name (conn c s) := c]> (names s)) s) ;;;
  modify (fun s => with_connection_queue (connection_queue s ++ [c]) s) ;;;
  modify (fun s => with_ping_tasks (ping_tasks s ++ [c]) s).

(** [Server.handle_hello_connection]: one unit of fuel for each round of
    the [while True]. *)
Fixpoint handle_hello_connection (fuel : nat) (c : nat) : M State unit :=
  match fuel with
  | O => diverge
  | S fuel' =>
    let* response := get_response fuel' c (py "What is your name?") in
    match response with
    | None => ret tt
    | Some raw =>
      let n := normalize_name raw in
      let* problem := gets (name_problem n) in
      match problem with
      | Some sorry =>
        send_message fuel' c sorry ;;; handle_hello_connection fuel' c
      | None => register c n
      end
    end
  end.

Definition http_response : str :=
  py "HTTP/1.0 200 OK" ++ [LF; LF]
  ++ py "<html><body><h1>Hello World</h1></body></html>".

(** The [while True] of [Server.handle_browser_connection]: reads until
    [read_message] gives [None] or an empty line. *)
Fixpoint read_request (fuel : nat) (c : nat) : M State unit :=
  match fuel with
  | O => diverge
  | S fuel' =>
    let* data := read_message fuel' c in
    match data with
    | None | Some [] => ret tt
    | Some _ => read_request fuel' c
    end
  end.

(** [Server.handle_browser_connection] *)
Definition handle_browser_connection (fuel : nat) (c : nat) : M State unit :=
  read_request fuel c ;;;
  send_message fuel c http_response ;;;
  modify (update_conn c (fun k => with_writer (writer_close (writer k)) k)).

(** Decimal digits of [n], as ["%d" % n] prints them. *)
Fixpoint digits (fuel : nat) (n : N) (acc : str) : str :=
  match fuel with
  | O => acc
  | S fuel' =>
    let acc := (48 + n mod 10) :: acc in
    if n <? 10 then acc else digits fuel' (n / 10) acc
  end.

Definition decimal (n : N) : str := digits (S (N.to_nat (N.log2 n))) n [].

(** [Server.handle_connection]: the [Connection] object is created from the
    accepted reader and writer, then the first message decides. The answer
    is the identity of the new connection. *)
Definition handle_connection (fuel : nat) (peer : str * N)
    (r : Reader) (w : Writer) : M State nat :=
  let* c := gets (fun s => fresh (dom (objects s))) in
  let n := fst peer ++ py ":" ++ decimal (snd peer) in
  modify (fun s =>
    with_objects
      (<[c := mkConnection peer n NoType (mkInput r []) w ∅]> (objects s)) s) ;;;
  let* message := read_message fuel c in
  match message with
  | None => ret c
  | Some m =>
    if startswith m (py "GET /") then
      modify (update_conn c (with_type BROWSER)) ;;;
      handle_browser_connection fuel c ;;; ret c
    else if bool_decide (m = py "HELLO") then
      modify (update_conn c (with_type SOCKET)) ;;;
      handle_hello_connection fuel c ;;; ret c
    else ret c
  end.

End Server.

(* ===================================================================== *)
(** ** game.py *)
(* ===================================================================== *)

Module Game.

(** The hooks a game gives the orchestrator, over the game's own state
    [G]. A hook answers with its outcome and the state it left the game
    in. What [prepare_round] and [get_visualizer_data] return goes to
    the frame stream only, so their value is dropped. [set_players] stands
    for the two assignments to [player_count] and [player_names]. *)
Class Contract (G : Type) := {
  set_players : nat -> list str -> G -> G;
  setup_game : G -> res unit * G;
  prepare_round : Z -> G -> res unit * G;
  get_player_input : Z -> nat -> G -> res (option str) * G;
  on_player_output : Z -> nat -> option str -> G -> res unit * G;
  handle_player_output : Z -> nat -> option str -> G -> res unit * G;
  update_game : Z -> G -> res unit * G;
  on_game_over : G -> res unit * G;
  get_visualizer_data : G -> res unit * G;
  min_connections : G -> Z;
  max_connections : G -> Z;
  start_cooldown : G -> Z
}.

(** The base class [Game] with its default hooks. *)
Record Base := mkBase {
  player_count : nat;
  player_names : list str
}.

#[global] Instance base : Contract Base := {|
  set_players n names _ := mkBase n names;
  setup_game g := (Ret tt, g);
  prepare_round _ g := (Ret tt, g);
  get_player_input _ _ g := (Raise NotImplementedError, g);
  on_player_output _ _ _ g := (Ret tt, g);
  handle_player_output _ _ _ g := (Raise NotImplementedError, g);
  update_game _ g := (Raise NotImplementedError, g);
  on_game_over g := (Ret tt, g);
  get_visualizer_data g := (Ret tt, g);
  min_connections _ := 1%Z;
  max_connections _ := 0%Z;
  start_cooldown _ := 10%Z
|}.

End Game.

(* ===================================================================== *)
(** ** game_rps.py *)
(* ===================================================================== *)

Module RockPaperScissors.

Record State := mkState {
  player_count : nat;
  player_names : list str;
  scores : list Z;
  winning_score : Z;
  waiting : list bool;
  moves : list (option str);
  revealed : bool
}.

Definition new : State := mkState 0 [] [] 0 [] [] false.

(** [self.valid_moves]: each move with the move it beats. *)
Definition valid_moves : gmap str str :=
  <[py "Rock" := py "Scissors"]>
    (<[py "Paper" := py "Rock"]> (<[py "Scissors" := py "Paper"]> ∅)).

(** [move not in self.valid_moves]; [None] is never a key. *)
Definition invalid (move : option str) : bool :=
  match move with
  | Some m => negb (bool_decide (is_Some (valid_moves !! m)))
  | None => true
  end.

(** [l[i]], raising [IndexError] out of range. *)
Definition item {A} (l : list A) (i : nat) : res A :=
  match l !! i with Some x => Ret x | None => Raise IndexError end.

(** [l[i] = x], raising [IndexError] out of range. *)
Definition set_item {A} (l : list A) (i : nat) (x : A) : res (list A) :=
  if (i <? length l)%nat then Ret (<[i := x]> l) else Raise IndexError.

Definition get_round_winner (g : State) : res Z :=
  if existsb (fun m => bool_decide (m = None)) (moves g) then Ret (-1)%Z
  else if existsb invalid (moves g) then Ret (-1)%Z
  else
    match moves g with
    | Some m0 :: Some m1 :: _ =>
      if bool_decide (m0 = m1) then Ret (-1)%Z
      else if bool_decide (valid_moves !! m0 = Some m1) then Ret 0%Z
      else if bool_decide (valid_moves !! m1 = Some m0) then Ret 1%Z
      else Raise RuntimeError
    | _ => Raise IndexError
    end.

Definition get_game_winner (g : State) : res Z :=
  match scores g with
  | s0 :: rest =>
    if (winning_score g <=? s0)%Z then Ret 0%Z
    else
      match rest with
      | s1 :: _ => if (winning_score g <=? s1)%Z then Ret 1%Z else Ret (-1)%Z
      | [] => Raise IndexError
      end
  | [] => Raise IndexError
  end.

Definition with_round (w : list bool) (m : list (option str)) (r : bool)
    (g : State) : State :=
  mkState (player_count g) (player_names g) (scores g) (winning_score g) w m r.

Definition with_scores (s : list Z) (g : State) : State :=
  mkState (player_count g) (player_names g) s (winning_score g)
    (waiting g) (moves g) (revealed g).

Definition setup_game (g : State) : res unit * State :=
  if negb (player_count g =? 2)%nat then (Raise RuntimeError, g)
  else
    (Ret tt,
     mkState (player_count g) (player_names g)
       (replicate (player_count g) 0%Z) 3
       (replicate (player_count g) true)
       (replicate (player_count g) None) false).

Definition prepare_round (round : Z) (g : State) : res unit * State :=
  (Ret tt,
   with_round (map (fun _ => true) (moves g)) (map (fun _ => None) (moves g))
     false g).

Definition on_player_output (round : Z) (player_index : nat)
    (player_output : option str) (g : State) : res unit * State :=
  match set_item (waiting g) player_index false with
  | Ret w => (Ret tt, with_round w (moves g) (revealed g) g)
  | Raise e => (Raise e, g)
  | Diverge => (Diverge, g)
  end.

Definition handle_player_output (round : Z) (player_index : nat)
    (player_output : option str) (g : State) : res unit * State :=
  match set_item (moves g) player_index player_output with
  | Ret m => (Ret tt, with_round (waiting g) m (revealed g) g)
  | Raise e => (Raise e, g)
  | Diverge => (Diverge, g)
  end.

Definition update_game (round : Z) (g : State) : res unit * State :=
  let g := with_round (waiting g) (moves g) true g in
  match moves g with
  | m0 :: m1 :: _ =>
    if invalid m0 || invalid m1 then (Raise GameOverError, g)
    else
      match get_round_winner g with
      | Ret round_winner =>
        let scored :=
          if (round_winner =? -1)%Z then Ret (scores g)
          else
            match item (scores g) (Z.to_nat round_winner) with
            | Ret s => set_item (scores g) (Z.to_nat round_winner) (s + 1)%Z
            | Raise e => Raise e
            | Diverge => Diverge
            end in
        match scored with
        | Ret s =>
          let g := with_scores s g in
          match get_game_winner g with
          | Ret game_winner =>
            if (-1 <? game_winner)%Z then (Raise GameOverError, g)
            else (Ret tt, g)
          | Raise e => (Raise e, g)
          | Diverge => (Diverge, g)
          end
        | Raise e => (Raise e, g)
        | Diverge => (Diverge, g)
        end
      | Raise e => (Raise e, g)
      | Diverge => (Diverge, g)
      end
  | _ => (Raise IndexError, g)
  end.

Definition get_visualizer_data (g : State) : res unit * State :=
  match get_round_winner g with
  | Ret _ =>
    match get_game_winner g with
    | Ret _ => (Ret tt, g)
    | Raise e => (Raise e, g)
    | Diverge => (Diverge, g)
    end
  | Raise e => (Raise e, g)
  | Diverge => (Diverge, g)
  end.

#[global] Instance game : Game.Contract State := {|
  Game.set_players n names g :=
    mkState n names (scores g) (winning_score g) (waiting g) (moves g)
      (revealed g);
  Game.setup_game := setup_game;
  Game.prepare_round := prepare_round;
  Game.get_player_input _ _ g := (Ret (Some (py "Rock, Paper, or Scissors?")), g);
  Game.on_player_output := on_player_output;
  Game.handle_player_output := handle_player_output;
  Game.update_game := update_game;
  Game.on_game_over g := (Ret tt, g);
  Game.get_visualizer_data := get_visualizer_data;
  Game.min_connections _ := 2%Z;
  Game.max_connections _ := 2%Z;
  Game.start_cooldown _ := 1%Z
|}.

End RockPaperScissors.

(* ===================================================================== *)
(** ** game_manager.py *)
(* ===================================================================== *)

Module GameManager.

(** The calls the orchestrator makes to the game, in the order made. *)
Inductive Call :=
| CSetupGame
| CPrepareRound (round : Z)
| CGetPlayerInput (round : Z) (index : nat)
| COnPlayerOutput (round : Z) (index : nat) (output : option str)
| CHandlePlayerOutput (round : Z) (index : nat) (output : option str)
| CUpdateGame (round : Z)
| CGetVisualizerData
| COnGameOver.

#[global] Instance Call_eq_dec : EqDecision Call.
Proof. solve_decision. Defined.

(** One response task finishing inside [asyncio.wait]: [task] is the
    roster index the task was created for ([task_map]), [result] what
    [response.result()] gives or raises, and [activity] what the
    registry's handlers did to the server while the orchestrator was
    suspended. *)
Record Completion := mkCompletion {
  task : nat;
  result : res (option str);
  activity : Server.State -> Server.State
}.

(** The response a completed task hands over, when it gives one. *)
Definition response_of (c : Completion) : option str :=
  match result c with Ret v => v | _ => None end.

Section Orchestrator.

Context {G : Type} `{Game.Contract G}.

(** The completions each round's [asyncio.wait] loop sees, in order. *)
Variable wait : Z -> list Completion.

Record State := mkState {
  server : Server.State;
  game : option G;
  players : list nat;
  start_cooldown : Z;
  calls : list Call
}.

Definition with_server (f : Server.State -> Server.State) (m : State)
  : State :=
  mkState (f (server m)) (game m) (players m) (start_cooldown m) (calls m).
Definition with_game (g : option G) (m : State) : State :=
  mkState (server m) g (players m) (start_cooldown m) (calls m).
Definition with_players (p : list nat) (m : State) : State :=
  mkState (server m) (game m) p (start_cooldown m) (calls m).
Definition with_start_cooldown (z : Z) (m : State) : State :=
  mkState (server m) (game m) (players m) z (calls m).
Definition with_calls (l : list Call) (m : State) : State :=
  mkState (server m) (game m) (players m) (start_cooldown m) l.

(** A call [self.game.<hook>(...)]: recorded, then run on the game. *)
Definition hook {A} (c : Call) (h : G -> res A * G) : M State A :=
  fun m =>
    match game m with
    | None => (Raise AttributeError, m)
    | Some g =>
      let (r, g') := h g in
      (r, with_calls (calls m ++ [c]) (with_game (Some g') m))
    end.

(** [GameManager.reset_start_cooldown] *)
Definition reset_start_cooldown : M State unit :=
  fun m =>
    match game m with
    | None => (Raise AttributeError, m)
    | Some g => (Ret tt, with_start_cooldown (Game.start_cooldown g) m)
    end.

(** First [while] of [handle_connection_queues], over the queue as found. *)
Fixpoint pop_connections (q : list nat) : M State unit :=
  match q with
  | [] => ret tt
  | _ :: q' =>
    modify (with_server (Server.with_connection_queue q')) ;;;
    reset_start_cooldown ;;;
    pop_connections q'
  end.

(** Second [while] of [handle_connection_queues]. *)
Fixpoint pop_disconnections (q : list nat) : M State unit :=
  match q with
  | [] => ret tt
  | connection :: q' =>
    modify (with_server (Server.with_disconnection_queue q')) ;;;
    reset_start_cooldown ;;;
    let* m := get in
    (if bool_decide (game m <> None) && bool_decide (connection ∈ players m)
     then raise PlayerDisconnectedError else ret tt) ;;;
    pop_disconnections q'
  end.

(** [GameManager.handle_connection_queues] *)
Definition handle_connection_queues : M State unit :=
  let* q := gets (fun m => Server.connection_queue (server m)) in
  pop_connections q ;;;
  let* q := gets (fun m => Server.disconnection_queue (server m)) in
  pop_disconnections q.

(** [GameManager.visualize_round], without the frames. *)
Definition visualize_round : M State unit :=
  hook CGetVisualizerData Game.get_visualizer_data.

(** Lines 305-318 of [get_player_outputs]: the prompts, and a response
    task for every player that got one. The answer lists roster index,
    connection and prompt of each task. *)
Fixpoint start_tasks (round : Z) (index : nat) (connections : list nat)
  : M State (list (nat * nat * str)) :=
  match connections with
  | [] => ret []
  | connection :: rest =>
    let* round_input :=
      hook (CGetPlayerInput round index) (Game.get_player_input round index) in
    let* tasks := start_tasks round (S index) rest in
    match round_input with
    | None | Some [] => ret tasks
    | Some prompt => ret ((index, connection, prompt) :: tasks)
    end
  end.

(** The roster index a response task was created for. *)
Definition task_index (t : nat * nat * str) : nat := fst (fst t).

(** [responses[index] = result] *)
Definition store_response (responses : list (option str)) (index : nat)
    (r : option str) : M State (list (option str)) :=
  if (index <? length responses)%nat then ret (<[index := r]> responses)
  else raise IndexError.

(** Lines 326-338: the [while response_tasks] loop. [pending] are the
    tasks not yet done; with tasks pending and no completion left the
    wait never returns. *)
Fixpoint await_responses (round : Z) (completions : list Completion)
    (pending : list nat) (responses : list (option str)) (responded : nat)
  : M State (list (option str) * nat) :=
  match pending with
  | [] => ret (responses, responded)
  | _ :: _ =>
    match completions with
    | [] => diverge
    | response :: completions' =>
      modify (with_server (activity response)) ;;;
      let responded := S responded in
      let index := task response in
      let* r := (fun m => (result response, m)) in
      let* responses := store_response responses index r in
      hook (COnPlayerOutput round index r)
        (Game.on_player_output round index r) ;;;
      await_responses round completions'
        (Server.list_remove index pending) responses responded
    end
  end.

(** [GameManager.get_player_outputs] *)
Definition get_player_outputs (round : Z)
  : M State (list (nat * option str)) :=
  let* connections := gets players in
  let* tasks := start_tasks round 0 connections in
  match tasks with
  | [] => raise RuntimeError
  | _ :: _ =>
    let response_indicies := map task_index tasks in
    let expected := length tasks in
    let* done :=
      await_responses round (wait round) response_indicies
        (replicate (length tasks) None) 0 in
    let (responses, responded) := done : list (option str) * nat in
    if negb (responded =? expected)%nat then raise RuntimeError
    else
      handle_connection_queues ;;;
      ret (zip response_indicies responses)
  end.

(** Lines 181-183 of [play_game]: [for index, output in player_outputs]. *)
Fixpoint handle_player_outputs (round : Z)
    (player_outputs : list (nat * option str)) : M State unit :=
  match player_outputs with
  | [] => ret tt
  | (index, output) :: rest =>
    hook (CHandlePlayerOutput round index output)
      (Game.handle_player_output round index output) ;;;
    handle_player_outputs round rest
  end.

(** Lines 169-189: the [while True] over the rounds, one unit of fuel
    each. *)
Fixpoint play_rounds (fuel : nat) (round : Z) : M State unit :=
  match fuel with
  | O => diverge
  | S fuel' =>
    hook (CPrepareRound round) (Game.prepare_round round) ;;;
    let* player_outputs := get_player_outputs round in
    handle_player_outputs round player_outputs ;;;
    hook (CUpdateGame round) (Game.update_game round) ;;;
    visualize_round ;;;
    play_rounds fuel' (round + 1)
  end.

(** Lines 162-189: the body of the [try] of [play_game]. *)
Definition play_game_try (fuel : nat) : M State unit :=
  modify (fun m =>
    with_game
      (option_map
         (Game.set_players (length (players m))
            (map (fun c => Server.name (Server.conn c (server m)))
               (players m)))
         (game m)) m) ;;;
  hook CSetupGame Game.setup_game ;;;
  play_rounds fuel (-1 + 1).

(** Lines 197-201: what follows the [try]. *)
Definition play_game_end : M State unit :=
  visualize_round ;;;
  hook COnGameOver Game.on_game_over.

(** [GameManager.play_game] *)
Definition play_game (fuel : nat) : M State unit :=
  fun m =>
    match play_game_try fuel m with
    | (Ret tt, m') => play_game_end m'
    | (Raise PlayerDisconnectedError, m') => play_game_end m'
    | (Raise GameOverError, m') => play_game_end m'
    | (Raise e, m') => (Raise e, m')
    | (Diverge, m') => (Diverge, m')
    end.

(** Lines 123-131 of [game_loop]: one session on the roster that
    [wait_for_connections] returned, then the game is dropped. *)
Definition game_loop_session (fuel : nat) (roster : list nat)
  : M State unit :=
  modify (with_players roster) ;;;
  play_game fuel ;;;
  modify (with_game None) ;;;
  modify (with_players []).

(** How many times [on_game_over] has been called. *)
Definition game_overs (m : State) : nat :=
  length (filter (fun c => c = COnGameOver) (calls m)).

(** [on_game_over] has been called as often in [m'] as in [m]. *)
Definition quiet (m m' : State) : Prop := game_overs m' = game_overs m.

End Orchestrator.

Arguments State G : clear implicits.

End GameManager.

(* ===================================================================== *)
(** ** Scenarios *)
(* ===================================================================== *)

Module Scenario.
Import StreamsUtil Server.


(** A socket connection in the middle of the handshake whose peer has
    sent the name ["!a!"] in two pieces. *)
Definition hello_state : State :=
  with_objects
    {[ 0%nat := mkConnection (py "10.0.0.7", 4242) (py "10.0.0.7:4242") SOCKET
                 (mkInput [Chunk (py "!a"); Chunk (py "!" ++ [LF])] [])
                 (mkWriter Healthy []) ∅ ]} init.


(** A client says HELLO, registers as "alice" and is accepted. *)
Definition alice_joins : res nat * State :=
  handle_connection 9 (py "10.0.0.7", 4242)
    [Chunk (py "HELLO" ++ [LF]); Chunk (py "alice" ++ [LF])]
    (mkWriter Healthy []) init.

Definition alice_registered : State := snd alice_joins.

(** Then the peer vanishes: the next write on the transport fails. *)
Definition alice_gone : State :=
  update_conn 0
    (fun k => with_writer (mkWriter Broken (sent (writer k))) k)
    alice_registered.

(** The keepalive task notices first, then the orchestrator writes a
    prompt to the same connection. *)
Definition after_ping : State := snd (ping_connection_step 3 0 alice_gone).
Definition after_ping_and_write : State :=
  snd (send_message 3 0 (py "Rock, Paper, or Scissors?") after_ping).

(** After the keepalive has closed alice's connection a second client
    registers under her name; then the orchestrator writes its prompt to
    the first connection, which closes it once more. *)
Definition alice_again : State :=
  snd (handle_connection 9 (py "10.0.0.8", 4343)
         [Chunk (py "HELLO" ++ [LF]); Chunk (py "alice" ++ [LF])]
         (mkWriter Healthy []) after_ping).
Definition alice_forgotten : State :=
  snd (send_message 3 0 (py "Rock, Paper, or Scissors?") alice_again).

(** A client that connects and goes away without a word. *)
Definition silent_probe : res nat * State :=
  handle_connection 3 (py "10.0.0.9", 5151) [] (mkWriter Healthy []) init.

(** A browser request whose connection ends after the request line. *)
Definition browser_probe : res nat * State :=
  handle_connection 5 (py "10.0.0.9", 5152)
    [Chunk (py "GET / HTTP/1.1" ++ [LF])] (mkWriter Healthy []) init.

(** A client that says HELLO and then quit instead of a name. *)
Definition quits_mid_handshake : res nat * State :=
  handle_connection 5 (py "10.0.0.9", 5153)
    [Chunk (py "HELLO" ++ [LF]); Chunk (py "quit" ++ [LF])]
    (mkWriter Healthy []) init.

(** Alice and bob both register. *)
Definition two_registered : State :=
  snd (handle_connection 9 (py "10.0.0.8", 4343)
         [Chunk (py "HELLO" ++ [LF]); Chunk (py "bob" ++ [LF])]
         (mkWriter Healthy []) alice_registered).

Definition roster : list nat := [0%nat; 1%nat].

(** The orchestrator between sessions, with a game of the given kind
    ready. *)
Definition lobby {G} (g : G) : GameManager.State G :=
  GameManager.mkState two_registered (Some g) [] 0 [].

Definition answers (task : nat) (text : str) : GameManager.Completion :=
  GameManager.mkCompletion task (Ret (Some text)) id.

(** Round 0: bob answers before alice, Rock against Paper. Later rounds:
    alice answers Rock, then bob answers something that is no move. *)
Definition two_rounds (round : Z) : list GameManager.Completion :=
  if (round =? 0)%Z
  then [answers 1 (py "Rock"); answers 0 (py "Paper")]
  else [answers 0 (py "Rock"); answers 1 (py "banana")].

(** Round 0: bob answers; alice's stream ends instead, so her response
    task reads end-of-stream, closes her connection and gives [None]. *)
Definition alice_leaves (round : Z) : list GameManager.Completion :=
  [answers 1 (py "Rock");
   GameManager.mkCompletion 0 (Ret None)
     (fun s => snd (get_response 3 0 (py "Rock, Paper, or Scissors?") s))].

(** Carol joins too. *)
Definition three_registered : State :=
  snd (handle_connection 9 (py "10.0.0.9", 4444)
         [Chunk (py "HELLO" ++ [LF]); Chunk (py "carol" ++ [LF])]
         (mkWriter Healthy []) two_registered).

(** A round in which the players at positions 0 and 2 answer. *)
Definition first_and_third (round : Z) : list GameManager.Completion :=
  [answers 0 (py "left"); answers 2 (py "right")].


(** The orchestrator inside a session of that game with three players. *)
Definition three_playing : GameManager.State Game.Base :=
  GameManager.mkState three_registered (Some (Game.mkBase 3 []))
    [0%nat; 1%nat; 2%nat] 0 [].

(** The orchestrator inside a session of rock-paper-scissors, set up. *)
Definition two_playing : GameManager.State RockPaperScissors.State :=
  snd (GameManager.hook GameManager.CSetupGame Game.setup_game
         (GameManager.mkState two_registered
            (Some (Game.set_players 2 [py "alice"; py "bob"]
                     RockPaperScissors.new))
            roster 0 [])).

End Scenario.

(* ===================================================================== *)
(** ** client.py *)
(* ===================================================================== *)

Module Client.
Import StreamsUtil.

(** [parse_server_message]: the flag tells whether the server expects an
    answer; [message[3:]] is what follows the prefix. *)
Definition parse_server_message (message : option str)
  : bool * option str :=
  match message with
  | None => (false, None)
  | Some m =>
    match after_prefix (py "Y: ") m with
    | Some rest => (true, Some rest)
    | None =>
      match after_prefix (py "N: ") m with
      | Some rest => (false, Some rest)
      | None => (false, Some m)
      end
    end
  end.

(** The client's side of a connection: reader and buffer, writer, the
    lines the user is going to type, and what has been shown on the
    terminal. *)
Record State := mkState {
  input : Input;
  writer : Writer;
  keyboard : list str;
  terminal : list str
}.

(** [streams_util.readline("Server", reader, buffer, ...)] *)
Definition client_readline (fuel : nat) : M State (option str) :=
  fun s =>
    let (r, i) := readline fuel (input s) in
    (r, mkState i (writer s) (keyboard s) (terminal s)).

(** [streams_util.writeline("Server", writer, message)] *)
Definition client_writeline (message : str) : M State bool :=
  fun s =>
    let (r, w) := writeline message (writer s) in
    (r, mkState (input s) w (keyboard s) (terminal s)).

(** [print(message)] *)
Definition print (message : str) : M State unit :=
  modify (fun s =>
    mkState (input s) (writer s) (keyboard s) (terminal s ++ [message])).

(** [input(" > ")]: the prompt is shown and the next line typed is the
    answer; with no line to come the call waits. *)
Definition ask : M State str :=
  print (py " > ") ;;;
  fun s =>
    match keyboard s with
    | [] => (Diverge, s)
    | line :: rest =>
      (Ret line, mkState (input s) (writer s) rest (terminal s))
    end.

(** Lines 16-38 of [start_client]: the [while True], one unit of [rounds]
    for each message read; [fuel] is the fuel of each [readline]. *)
Fixpoint client_loop (rounds fuel : nat) : M State unit :=
  match rounds with
  | O => diverge
  | S rounds' =>
    let* message := client_readline fuel in
    let (expected_response, message) := parse_server_message message in
    match message with
    | None => ret tt
    | Some m =>
      if bool_decide (m = py "quit") then ret tt
      else if bool_decide (m = py "PING") then client_loop rounds' fuel
      else
        print m ;;;
        if expected_response then
          let* response := ask in
          let* success := client_writeline response in
          if success then client_loop rounds' fuel else ret tt
        else client_loop rounds' fuel
    end
  end.

(** [start_client], from the connection once opened. *)
Definition start_client (rounds fuel : nat) : M State unit :=
  let* success := client_writeline (py "HELLO") in
  (if success then client_loop rounds fuel else ret tt) ;;;
  modify (fun s =>
    mkState (input s) (writer_close (writer s)) (keyboard s) (terminal s)) ;;;
  print (py "The connection has been closed").

(** What the client puts on the terminal for one line from the server,
    and whether it asks the user for an answer to it. *)
Definition shows (line : str) : list str :=
  match parse_server_message (Some line) with
  | (expected_response, Some m) =>
    if bool_decide (m = py "quit") || bool_decide (m = py "PING") then []
    else m :: (if expected_response then [py " > "] else [])
  | (_, None) => []
  end.

Definition wants_answer (line : str) : bool :=
  match parse_server_message (Some line) with
  | (true, Some m) =>
    negb (bool_decide (m = py "quit") || bool_decide (m = py "PING"))
  | _ => false
  end.

End Client.

(* ===================================================================== *)
(** ** What the operations on one connection may change *)
(* ===================================================================== *)

Module Registry.
Import Server.

(** [only_closes c s s']: between [s] and [s'] nothing has happened to
    the registry but reads and writes on connection [c] and closings of
    it. Name, type and attributes of [c] are as they were and so is every
    other connection; the name index has lost at most the name of [c];
    the saved attributes have gained at most those of [c] under its name;
    the live list has lost at most occurrences of [c]; nothing has been
    added to the connect queue or the keepalive tasks; and the disconnect
    queue has gained only events of [c]. *)
Definition only_closes (c : nat) (s s' : State) : Prop :=
  name (conn c s') = name (conn c s)
  /\ type (conn c s') = type (conn c s)
  /\ attributes (conn c s') = attributes (conn c s)
  /\ (forall c', c' <> c -> objects s' !! c' = objects s !! c')
  /\ (names s' = names s
      \/ names s' = delete (name (conn c s)) (names s))
  /\ (old_attributes s' = old_attributes s
      \/ (attributes (conn c s) <> ∅
          /\ old_attributes s'
             = <[name (conn c s) := attributes (conn c s)]>
                 (old_attributes s)))
  /\ (exists k, connections s' = Nat.iter k (list_remove c) (connections s))
  /\ connection_queue s' = connection_queue s
  /\ ping_tasks s' = ping_tasks s
  /\ (exists k, disconnection_queue s'
                = disconnection_queue s ++ replicate k c).

End Registry.

(* ===================================================================== *)
(** ** server.py: stopping *)
(* ===================================================================== *)

Module Shutdown.
Import Server.

(** [asyncio.gather] over [self.close_connection(conn) for conn in
    self.connections]: one call for each connection that was live when
    the list was built. Each call works on its own connection's object,
    entry and events only, so the calls are taken one after the other,
    in the order of the list. *)
Fixpoint close_all (fuel : nat) (l : list nat) : M State unit :=
  match l with
  | [] => ret tt
  | conn :: rest => close_connection fuel conn ;;; close_all fuel rest
  end.

(** [Server.stop_server], up to the closing of the listening socket. *)
Definition stop_server (fuel : nat) : M State unit :=
  let* conns := gets connections in
  close_all fuel conns.

End Shutdown.

(* ===================================================================== *)
(** ** game_manager.py: waiting for players *)
(* ===================================================================== *)

Module Lobby.
Import GameManager.

Section WaitForConnections.

Context {G : Type} `{Game.Contract G}.

(** [random.sample(population, k)] and [random.shuffle(x)]: whatever the
    generator makes of them. *)
Variable sample : list nat -> nat -> list nat.
Variable shuffle : list nat -> list nat.

(** What the connection handlers do to the server while the orchestrator
    is in its [n]-th [asyncio.sleep(1)]. *)
Variable sleep : nat -> Server.State -> Server.State.

(** [GameManager.wait_for_connections]: one unit of fuel for each round of
    the [while True]; [slept] counts the sleeps so far. The three frames
    (WAITING, START_IN, STARTING) go to the visualizer only. *)
Fixpoint wait_for_connections (fuel : nat) (slept : nat)
  : M (State G) (list nat) :=
  match fuel with
  | O => diverge
  | S fuel' =>
    handle_connection_queues ;;;
    let* m := get in
    match game m with
    | None => raise AttributeError
    | Some g =>
      let active_connections := Server.connections (server m) in
      if (Z.of_nat (length active_connections) <? Game.min_connections g)%Z
      then
        reset_start_cooldown ;;;
        modify (with_server (sleep slept)) ;;;
        wait_for_connections fuel' (S slept)
      else if (0 <? start_cooldown m)%Z then
        modify (with_start_cooldown (start_cooldown m - 1)) ;;;
        modify (with_server (sleep slept)) ;;;
        wait_for_connections fuel' (S slept)
      else
        reset_start_cooldown ;;;
        if (0 <? Game.max_connections g)%Z
           && (Game.max_connections g <? Z.of_nat (length active_connections))%Z
        then ret (sample active_connections
                    (Z.to_nat (Game.max_connections g)))
        else ret (shuffle active_connections)
    end
  end.

End WaitForConnections.

End Lobby.

(* ===================================================================== *)
(** ** game_manager.py: the frames *)
(* ===================================================================== *)

Module Frames.

Definition at_sign : N := 64.

(** [s.replace(old, new)] for a non-empty [old]: the occurrences of [old]
    are taken from left to right and do not overlap; [skip] counts the
    characters of an occurrence still to be passed over. *)
Fixpoint replace_go (old new : str) (skip : nat) (s : str) : str :=
  match s with
  | [] => []
  | c :: s' =>
    match skip with
    | S k => replace_go old new k s'
    | O =>
      if startswith s old
      then new ++ replace_go old new (length old - 1) s'
      else c :: replace_go old new 0 s'
    end
  end.

(** [s.replace(old, new)]; an empty [old] matches before every character
    and at the end. *)
Definition replace (old new s : str) : str :=
  match old with
  | [] => new ++ flat_map (fun c => c :: new) s
  | _ :: _ => replace_go old new 0 s
  end.

(** What the orchestrator's frame methods read and write: the names of
    the current players, the queue to the visualizer, the queue the game
    fills, and the contents of the replay file. *)
Record State := mkState {
  player_names : list str;
  visualize_queue : list str;
  game_frame_queue : list str;
  file : str
}.

(** ["@p%d!" % index] *)
Definition placeholder (index : nat) : str :=
  py "@p" ++ Server.decimal (N.of_nat index) ++ py "!".

(** Lines 233-234 of [visualize]: the loop over [enumerate(self.players)]. *)
Fixpoint substitute (index : nat) (names : list str) (data : str) : str :=
  match names with
  | [] => data
  | n :: rest =>
    substitute (S index) rest (replace (placeholder index) n data)
  end.

(** [GameManager.visualize(data, keyframe, write_to_file)] *)
Definition visualize (data : str) (keyframe write_to_file : bool)
    (s : State) : State :=
  let data := substitute 0 (player_names s) data in
  let data := (if keyframe then py "KEYFRAME " else py "FRAME ") ++ data in
  mkState (player_names s) (visualize_queue s ++ [data])
    (game_frame_queue s)
    (if write_to_file then file s ++ data ++ [LF] else file s).

(** [GameManager.handle_game_frame_queue] *)
Fixpoint drain_frames (frames : list str) (s : State) : State :=
  match frames with
  | [] => s
  | game_frame :: rest => drain_frames rest (visualize game_frame false true s)
  end.

Definition handle_game_frame_queue (s : State) : State :=
  drain_frames (game_frame_queue s)
    (mkState (player_names s) (visualize_queue s) [] (file s)).

(** Lines 283-290 of [visualizer_loop]: the prefix of a queued frame is
    taken off and tells whether it is a key frame. *)
Definition parse_frame (data : str) : res (bool * str) :=
  match after_prefix (py "KEYFRAME ") data with
  | Some rest => Ret (true, rest)
  | None =>
    match after_prefix (py "FRAME ") data with
    | Some rest => Ret (false, rest)
    | None => Raise RuntimeError
    end
  end.

End Frames.

(* ===================================================================== *)
(** ** The shape of a rock-paper-scissors game *)
(* ===================================================================== *)

Module Table.
Import RockPaperScissors.

(** The three lists of the game hold one entry for each of two players. *)
Definition seated (g : State) : Prop :=
  length (scores g) = 2%nat
  /\ length (waiting g) = 2%nat
  /\ length (moves g) = 2%nat.

End Table.

(* ===================================================================== *)
(** ** More scenarios *)
(* ===================================================================== *)

Module Examples.
Import StreamsUtil Server.

(** Alice, registered, has won twice. *)
Definition alice_scored : State :=
  update_conn 0
    (fun k => increment_attribute (py "wins") 1
                (increment_attribute (py "wins") 1 k))
    Scenario.alice_registered.

(** The lobby of rock-paper-scissors with alice and bob connected, their
    connect events taken, and three seconds to go. *)
Definition lobby_ready : GameManager.State RockPaperScissors.State :=
  GameManager.mkState (with_connection_queue [] Scenario.two_registered)
    (Some RockPaperScissors.new) [] 3 [].

(** The same lobby with alice alone. *)
Definition lobby_alone : GameManager.State RockPaperScissors.State :=
  GameManager.mkState Scenario.alice_registered
    (Some RockPaperScissors.new) [] 0 [].

(** A generator that samples the first [k] and shuffles by reversing, and
    a network on which nothing happens. *)
Definition first_k (l : list nat) (k : nat) : list nat := take k l.
Definition reversed (l : list nat) : list nat := rev l.
Definition calm (n : nat) (s : State) : State := s.

(** A game that asks nobody anything. *)
Definition mute : Game.Contract Game.Base := {|
  Game.set_players n names _ := Game.mkBase n names;
  Game.setup_game g := (Ret tt, g);
  Game.prepare_round _ g := (Ret tt, g);
  Game.get_player_input _ _ g := (Ret None, g);
  Game.on_player_output _ _ _ g := (Ret tt, g);
  Game.handle_player_output _ _ _ g := (Ret tt, g);
  Game.update_game _ g := (Ret tt, g);
  Game.on_game_over g := (Ret tt, g);
  Game.get_visualizer_data g := (Ret tt, g);
  Game.min_connections _ := 1%Z;
  Game.max_connections _ := 0%Z;
  Game.start_cooldown _ := 10%Z
|}.

(** A peer whose first line is neither a greeting nor a request. *)
Definition stranger : Reader := [Chunk (py "hi there" ++ [LF])].

End Examples.

(* ===================================================================== *)
(** * Properties *)
(* ===================================================================== *)

Import StreamsUtil Server Scenario.

(* ===================================================================== *)
(** ** Name normalization *)
(* ===================================================================== *)

Section Normalization.

Lemma alnum_not_space c : is_alnum c = true -> isspace c = false.
Proof.
  unfold is_alnum, isspace. intros Hc.
  rewrite !orb_true_iff, !andb_true_iff, !N.leb_le in Hc.
  apply not_true_is_false.
  rewrite !orb_true_iff, !andb_true_iff, !N.leb_le, !N.eqb_eq. lia.
Qed.

Lemma underscore_not_space : isspace underscore = false.
Proof. reflexivity. Qed.

Lemma underscore_not_alnum : is_alnum underscore = false.
Proof. reflexivity. Qed.

(** What [re.sub] leaves holds letters, digits and underscores only. *)
Lemma sub_runs_charset b s :
  Forall (fun c => is_alnum c = true \/ c = underscore) (sub_runs b s).
Proof.
  revert b. induction s as [|c s IH]; intros b; simpl; [constructor|].
  destruct (is_alnum c) eqn:Hc.
  - constructor; auto.
  - destruct b; [apply IH|]. constructor; auto.
Qed.

(** It keeps the letters and digits, in order. *)
Lemma sub_runs_keeps_alnum b s :
  List.filter is_alnum (sub_runs b s) = List.filter is_alnum s.
Proof.
  revert b. induction s as [|c s IH]; intros b; simpl; [done|].
  destruct (is_alnum c) eqn:Hc; simpl.
  - by rewrite Hc, IH.
  - destruct b; simpl; apply IH.
Qed.

(** Inside a run nothing is produced until the next letter or digit, so
    the result never has two underscores in a row. *)
Lemma sub_runs_in_run_head s :
  match sub_runs true s with
  | [] => True
  | c :: _ => is_alnum c = true
  end.
Proof.
  induction s as [|c s IH]; simpl; [done|].
  destruct (is_alnum c) eqn:Hc; [done | apply IH].
Qed.

Lemma sub_runs_fixed s :
  (forall b, sub_runs false (sub_runs b s) = sub_runs b s)
  /\ sub_runs true (sub_runs true s) = sub_runs true s.
Proof.
  induction s as [|c s [IH1 IH2]]; [split; [intros []|]; reflexivity|].
  split.
  - intros b. simpl. destruct (is_alnum c) eqn:Hc.
    + simpl. by rewrite Hc, IH1.
    + destruct b; [apply IH1|].
      simpl. by rewrite IH2.
  - simpl. destruct (is_alnum c) eqn:Hc; [|apply IH2].
    simpl. by rewrite Hc, IH1.
Qed.

Lemma lstrip_no_space s :
  Forall (fun c => isspace c = false) s -> lstrip s = s.
Proof. intros [|c s' Hc _]; simpl; [done|]. by rewrite Hc. Qed.

Lemma strip_no_space s :
  Forall (fun c => isspace c = false) s -> strip s = s.
Proof.
  intros Hs. unfold strip, rstrip. rewrite (lstrip_no_space s Hs).
  rewrite lstrip_no_space; [apply rev_involutive|].
  by apply Forall_rev.
Qed.

Lemma sub_runs_no_space b s :
  Forall (fun c => isspace c = false) (sub_runs b s).
Proof.
  eapply Forall_impl; [apply sub_runs_charset|].
  intros c [Hc| ->]; [by apply alnum_not_space | reflexivity].
Qed.

End Normalization.

(** C8. Normalizing a name (strip, then every run of characters outside
    [a-zA-Z0-9] replaced by one underscore) a second time changes
    nothing. *)
Theorem normalize_name_idempotent (raw : str) :
  normalize_name (normalize_name raw) = normalize_name raw.
Proof.
  unfold normalize_name, re_sub_non_alnum.
  rewrite (strip_no_space (sub_runs false (strip raw))).
  - apply sub_runs_fixed.
  - apply sub_runs_no_space.
Qed.

(* ===================================================================== *)
(** ** Connection attributes *)
(* ===================================================================== *)

(** C10. [increment_attribute] adds exactly 1 to the named counter
    whatever [amount] is: an absent counter ends at 1, a present one at one
    more than before, no other counter changes. *)
Theorem increment_attribute_adds_one
    (k : Connection) (attribute : str) (amount : Z) :
  attributes (increment_attribute attribute amount k) !! attribute
    = Some (default 0%Z (attributes k !! attribute) + 1)%Z
  /\ (attributes k !! attribute = None ->
      attributes (increment_attribute attribute amount k) !! attribute
        = Some 1%Z)
  /\ (forall v, attributes k !! attribute = Some v ->
      attributes (increment_attribute attribute amount k) !! attribute
        = Some (v + 1)%Z)
  /\ (forall other, other <> attribute ->
      attributes (increment_attribute attribute amount k) !! other
        = attributes k !! other)
  /\ increment_attribute attribute amount k
       = increment_attribute attribute 1 k.
Proof.
  unfold increment_attribute.
  destruct (attributes k !! attribute) as [v|] eqn:Hv; simpl.
  - rewrite Hv. simpl. rewrite lookup_insert_eq.
    repeat split; try done.
    + intros v' [= ->]. done.
    + intros other Hne. by rewrite lookup_insert_ne.
  - rewrite !lookup_insert_eq. simpl.
    repeat split; try done.
    intros other Hne. by rewrite !lookup_insert_ne.
Qed.

(* ===================================================================== *)
(** ** The registration handshake *)
(* ===================================================================== *)

Section Handshake.

Lemma name_problem_no_letters n s :
  n = [] \/ n = py "_" -> name_problem n s = Some sorry_no_letters.
Proof. intros [-> | ->]; reflexivity. Qed.

(** The checks reject exactly the names that are too short, too long or
    taken; the empty name and the lone underscore are among the short. *)
Lemma name_problem_rejects n s :
  (exists sorry, name_problem n s = Some sorry)
  <-> (n = [] \/ (length n < 2)%nat \/ (10 < length n)%nat
       \/ is_Some (names s !! n)).
Proof.
  unfold name_problem, name_exists.
  destruct (bool_decide (n = [])) eqn:He; simpl.
  { apply bool_decide_eq_true in He. split; eauto. }
  apply bool_decide_eq_false in He.
  destruct (bool_decide (n = py "_")) eqn:Hu; simpl.
  { apply bool_decide_eq_true in Hu. subst n. split; eauto. }
  destruct (length n <? 2)%nat eqn:H2.
  { apply Nat.ltb_lt in H2. split; eauto. }
  apply Nat.ltb_ge in H2.
  destruct (10 <? length n)%nat eqn:H10.
  { apply Nat.ltb_lt in H10. split; eauto. }
  apply Nat.ltb_ge in H10.
  destruct (bool_decide (is_Some (names s !! n))) eqn:Hn.
  { apply bool_decide_eq_true in Hn. split; eauto 6. }
  apply bool_decide_eq_false in Hn.
  split; [intros [? [=]]|].
  intros [?|[?|[?|?]]]; try done; lia.
Qed.


Lemma handle_hello_connection_round fuel c s s1 raw :
  get_response fuel c (py "What is your name?") s = (Ret (Some raw), s1) ->
  handle_hello_connection (S fuel) c s
  = match name_problem (normalize_name raw) s1 with
    | Some sorry =>
      (send_message fuel c sorry ;;; handle_hello_connection fuel c) s1
    | None => register c (normalize_name raw) s1
    end.
Proof.
  intros Hr. cbn [handle_hello_connection]. unfold bind at 1. rewrite Hr.
  unfold bind at 1. unfold gets at 1.
  by destruct (name_problem (normalize_name raw) s1).
Qed.

End Handshake.




(** The name index is what the handshake consults, not the live
    connections: a second close of an old connection deletes its name
    from the index also when a later connection holds that name by then,
    and the name is accepted once more. *)
Lemma name_index_forgets_live_name :
  connections alice_again = [1%nat]
  /\ names alice_again !! py "alice" = Some 1%nat
  /\ connections alice_forgotten = [1%nat]
  /\ name (conn 1 alice_forgotten) = py "alice"
  /\ is_closed (conn 1 alice_forgotten) = false
  /\ names alice_forgotten !! py "alice" = None
  /\ name_problem (py "alice") alice_forgotten = None.
Proof. vm_compute. done. Qed.

(* ===================================================================== *)
(** ** readline at end-of-stream *)
(* ===================================================================== *)

Section EndOfStream.

(** A read takes whole what fits its limit. *)
Lemma reader_read_small n data r :
  (length data <= n)%nat -> reader_read n (Chunk data :: r) = (Ret data, r).
Proof.
  intros Hn. cbn [reader_read]. by rewrite (proj2 (Nat.leb_le _ _) Hn).
Qed.

(** At end-of-stream with undelimited data in hand the read loop goes
    round for ever: every read adds [b""], the data stays non-empty and
    holds no delimiter. *)
Lemma read_loop_spins data message b :
  data <> [] ->
  decode data = Some message ->
  find_eol message = None ->
  forall fuel, read_loop fuel data (mkInput [] b) = (Diverge, mkInput [] b).
Proof.
  intros Hne Hdec Heol fuel. induction fuel as [|fuel IH]; [reflexivity|].
  cbn [read_loop reader reader_read buffer]. rewrite app_nil_r.
  destruct data as [|d data]; [done|].
  rewrite Hdec, Heol. apply IH.
Qed.

(** With no data in hand it answers [None]. *)
Lemma readline_at_eof fuel :
  readline (S fuel) (mkInput [] []) = (Ret None, mkInput [] []).
Proof. reflexivity. Qed.

(** When the read is cut by [ConnectionResetError] the data in hand is
    returned: lines 42-45 are reached through the [except] only. *)
Lemma readline_partial_then_reset :
  readline 2 (mkInput [Chunk (py "abc"); Reset] [])
  = (Ret (Some (py "abc")), mkInput [] []).
Proof. reflexivity. Qed.

End EndOfStream.

(** C3, failing input: the stream delivers [b"abc"] and ends. Whatever the
    fuel, [readline] gives no answer: it neither returns ["abc"] nor
    signals end-of-stream. *)
Theorem readline_partial_at_eof_never_returns (fuel : nat) :
  fst (readline fuel (mkInput [Chunk (py "abc")] [])) = Diverge.
Proof.
  destruct fuel as [|fuel]; [reflexivity|].
  unfold readline. cbn [drain_buffer buffer reader].
  change (encode []) with (Some (@nil N)). cbv iota beta.
  cbn [read_loop reader buffer].
  rewrite reader_read_small by (cbn; lia). rewrite app_nil_l.
  change (decode (py "abc")) with (Some (py "abc")).
  change (find_eol (py "abc")) with (@None (str * str)).
  change (py "abc") with [97; 98; 99]. cbv iota beta.
  rewrite (read_loop_spins [97; 98; 99] [97; 98; 99]); done.
Qed.

(** The same after a complete line: the rest left in the buffer by the
    first call is never returned by the second. *)
Lemma readline_buffered_partial_never_returns (fuel : nat) :
  fst (readline fuel (mkInput [] [py "ab"])) = Diverge.
Proof.
  destruct fuel as [|fuel]; [reflexivity|].
  unfold readline.
  change (drain_buffer [] (buffer (mkInput [] [py "ab"])))
    with (@inr (str * list str) _ (py "ab")).
  cbv iota beta. change (encode (py "ab")) with (Some (py "ab")).
  cbv iota beta. cbn [reader].
  rewrite (read_loop_spins (py "ab") (py "ab")); done.
Qed.

(* ===================================================================== *)
(** ** Closing connections *)
(* ===================================================================== *)

Lemma conn_update_conn c f s : conn c (update_conn c f s) = f (conn c s).
Proof. unfold conn, update_conn. simpl. by rewrite lookup_insert_eq. Qed.

Lemma conn_with_connections c l s : conn c (with_connections l s) = conn c s.
Proof. reflexivity. Qed.
Lemma conn_with_names c n s : conn c (with_names n s) = conn c s.
Proof. reflexivity. Qed.
Lemma conn_with_old_attributes c a s :
  conn c (with_old_attributes a s) = conn c s.
Proof. reflexivity. Qed.
Lemma conn_with_connection_queue c q s :
  conn c (with_connection_queue q s) = conn c s.
Proof. reflexivity. Qed.
Lemma conn_with_disconnection_queue c q s :
  conn c (with_disconnection_queue q s) = conn c s.
Proof. reflexivity. Qed.
Lemma conn_with_ping_tasks c t s : conn c (with_ping_tasks t s) = conn c s.
Proof. reflexivity. Qed.
Lemma conn_with_close_calls c l s : conn c (with_close_calls l s) = conn c s.
Proof. reflexivity. Qed.

Create Rewrite HintDb registry.
#[global] Hint Rewrite conn_with_connections conn_with_names
  conn_with_old_attributes conn_with_connection_queue
  conn_with_disconnection_queue conn_with_ping_tasks conn_with_close_calls
  conn_update_conn : registry.

Section Closing.

Lemma close_connection_unfold fuel c :
  close_connection (S fuel) c
  = (modify (fun s => with_close_calls (close_calls s ++ [c]) s) ;;;
     let* closed := gets (fun s => is_closed (conn c s)) in
     (if closed then ret tt
      else send_message_with (close_connection fuel) c (py "quit")) ;;;
     close_tail c).
Proof. reflexivity. Qed.

Lemma close_tail_spec c s :
  exists s',
    close_tail c s = (Ret tt, s')
    /\ disconnection_queue s' = disconnection_queue s ++ [c]
    /\ close_calls s' = close_calls s
    /\ connection_queue s' = connection_queue s
    /\ is_closed (conn c s') = true.
Proof.
  unfold close_tail, bind, modify. cbv beta iota zeta.
  eexists; split; [reflexivity|].
  repeat match goal with
  | |- context [bool_decide ?P] => destruct (bool_decide P)
  end; cbn; repeat split; try reflexivity.
  all: autorewrite with registry; reflexivity.
Qed.

(** A write leaves the three queues of the registry alone. *)
Lemma conn_writeline_frame c message s r s1 :
  conn_writeline c message s = (r, s1) ->
  disconnection_queue s1 = disconnection_queue s
  /\ close_calls s1 = close_calls s
  /\ connection_queue s1 = connection_queue s
  /\ writeline message (writer (conn c s)) = (r, writer (conn c s1)).
Proof.
  unfold conn_writeline.
  destruct (writeline message (writer (conn c s))) as [r' w] eqn:Hw.
  intros [= <- <-]. autorewrite with registry. by repeat split.
Qed.

Lemma writeline_closing message w :
  is_closing w = true -> writeline message w = (Ret false, w).
Proof. unfold writeline. by intros ->. Qed.

(** A failed write leaves the transport closing. *)
Lemma writeline_failed message w w' :
  writeline message w = (Ret false, w') -> is_closing w' = true.
Proof.
  unfold writeline. destruct (is_closing w) eqn:Hc; [by intros [= <-]|].
  destruct (encode _); [|done].
  destruct (wstate w); [done| |]; by intros [= <-].
Qed.

Lemma writeline_broken message w data :
  wstate w = Broken ->
  encode (if endswith message [LF] then message else message ++ [LF])
    = Some data ->
  writeline message w = (Ret false, mkWriter Closing (sent w)).
Proof.
  intros Hw He. unfold writeline, is_closing. by rewrite Hw, He.
Qed.

Lemma writeline_healthy message w data :
  wstate w = Healthy ->
  encode (if endswith message [LF] then message else message ++ [LF])
    = Some data ->
  writeline message w = (Ret true, mkWriter Healthy (sent w ++ data)).
Proof.
  intros Hw He. unfold writeline, is_closing. by rewrite Hw, He.
Qed.

(** Closing a connection whose transport is already closing. *)
Lemma close_connection_closing fuel c s :
  is_closed (conn c s) = true ->
  exists s',
    close_connection (S fuel) c s = (Ret tt, s')
    /\ disconnection_queue s' = disconnection_queue s ++ [c]
    /\ close_calls s' = close_calls s ++ [c]
    /\ connection_queue s' = connection_queue s
    /\ is_closed (conn c s') = true.
Proof.
  intros Hc. rewrite close_connection_unfold.
  unfold bind at 1. unfold modify at 1.
  unfold bind at 1. unfold gets at 1. autorewrite with registry. rewrite Hc.
  unfold bind at 1. unfold ret at 1.
  destruct (close_tail_spec c (with_close_calls (close_calls s ++ [c]) s))
    as (s' & -> & Hd & Hl & Hq & Hcl).
  exists s'. by repeat split.
Qed.

(** The farewell that [close_connection] sends on a transport not yet
    closing, in either form, is encodable. *)
Lemma quit_message_encodes t :
  exists data,
    encode
      (let message :=
         match t with SOCKET => prefix_message (py "quit") false
                    | _ => py "quit" end in
       if endswith message [LF] then message else message ++ [LF])
    = Some data.
Proof. destruct t; eexists; vm_compute; reflexivity. Qed.

(** [close_connection] returns, and what it appends to the disconnect
    queue is what its calls, nested ones included, log: the connection,
    once for each call. *)
Lemma close_connection_spec fuel c s :
  (2 <= fuel)%nat ->
  exists s' extra,
    close_connection fuel c s = (Ret tt, s')
    /\ disconnection_queue s' = disconnection_queue s ++ c :: extra
    /\ close_calls s' = close_calls s ++ c :: extra
    /\ (extra = [] \/ extra = [c])
    /\ connection_queue s' = connection_queue s
    /\ is_closed (conn c s') = true.
Proof.
  intros Hfuel. destruct fuel as [|[|fuel]]; [lia|lia|].
  destruct (is_closed (conn c s)) eqn:Hc.
  { destruct (close_connection_closing (S fuel) c s Hc)
      as (s' & Hr & Hd & Hl & Hq & Hcl).
    exists s', []. by repeat split; auto. }
  rewrite close_connection_unfold.
  unfold bind at 1. unfold modify at 1.
  unfold bind at 1. unfold gets at 1. autorewrite with registry. rewrite Hc.
  set (s0 := with_close_calls (close_calls s ++ [c]) s).
  unfold bind at 1. unfold send_message_with.
  unfold bind at 1. unfold gets at 1.
  unfold bind at 1.
  destruct (quit_message_encodes (type (conn c s0))) as [data Hdata].
  cbv zeta in Hdata.
  set (message := match type (conn c s0) with
                  | SOCKET => prefix_message (py "quit") false
                  | _ => py "quit" end) in *.
  destruct (conn_writeline c message s0) as [r s1] eqn:Hw.
  destruct (conn_writeline_frame _ _ _ _ _ Hw) as (Hd1 & Hl1 & Hq1 & Hwl).
  assert (Hc0 : is_closed (conn c s0) = false) by (subst s0; by autorewrite with registry).
  unfold is_closed, is_closing in Hc0.
  destruct (wstate (writer (conn c s0))) eqn:Hws; [| |done].
  - (* the farewell goes out *)
    rewrite (writeline_healthy _ _ data Hws Hdata) in Hwl.
    injection Hwl as <- Hw1. unfold ret at 1.
    destruct (close_tail_spec c s1) as (s' & -> & Hd & Hl & Hq & Hcl).
    exists s', []. subst s0. cbn in *.
    rewrite Hd, Hl, Hq, Hd1, Hl1, Hq1. by repeat split; auto.
  - (* the farewell fails, and the failure closes once more *)
    rewrite (writeline_broken _ _ data Hws Hdata) in Hwl.
    injection Hwl as <- Hw1.
    assert (Hc1 : is_closed (conn c s1) = true)
      by (unfold is_closed; by rewrite <- Hw1).
    destruct (close_connection_closing fuel c s1 Hc1)
      as (s2 & -> & Hd2 & Hl2 & Hq2 & Hcl2).
    destruct (close_tail_spec c s2) as (s' & -> & Hd & Hl & Hq & Hcl).
    exists s', [c]. subst s0. cbn in *.
    rewrite Hd, Hl, Hq, Hd2, Hl2, Hq2, Hd1, Hl1, Hq1, <- !app_assoc.
    by repeat split; auto.
Qed.

(** A failed keepalive closes the connection once. *)
Lemma ping_connection_step_broken fuel c s :
  wstate (writer (conn c s)) = Broken ->
  exists s',
    ping_connection_step (S fuel) c s = (Ret false, s')
    /\ disconnection_queue s' = disconnection_queue s ++ [c]
    /\ close_calls s' = close_calls s ++ [c]
    /\ connection_queue s' = connection_queue s
    /\ is_closed (conn c s') = true.
Proof.
  intros Hws. unfold ping_connection_step.
  unfold bind at 1. unfold gets at 1.
  unfold is_closed at 1, is_closing. rewrite Hws.
  unfold bind at 1.
  destruct (conn_writeline c (py "PING") s) as [r s1] eqn:Hw.
  destruct (conn_writeline_frame _ _ _ _ _ Hw) as (Hd1 & Hl1 & Hq1 & Hwl).
  rewrite (writeline_broken _ _ (py "PING" ++ [LF]) Hws) in Hwl
    by (vm_compute; reflexivity).
  injection Hwl as <- Hw1.
  assert (Hc1 : is_closed (conn c s1) = true)
    by (unfold is_closed; by rewrite <- Hw1).
  unfold bind at 1.
  destruct (close_connection_closing fuel c s1 Hc1)
    as (s' & -> & Hd & Hl & Hq & Hcl).
  exists s'. unfold ret. rewrite Hd, Hl, Hq, Hd1, Hl1, Hq1. by repeat split.
Qed.

(** A write to a connection whose transport is closing closes it again. *)
Lemma send_message_closing fuel c message s :
  is_closed (conn c s) = true ->
  exists s',
    send_message (S fuel) c message s = (Ret tt, s')
    /\ disconnection_queue s' = disconnection_queue s ++ [c]
    /\ close_calls s' = close_calls s ++ [c]
    /\ connection_queue s' = connection_queue s
    /\ is_closed (conn c s') = true.
Proof.
  intros Hc. unfold send_message, send_message_with.
  unfold bind at 1. unfold gets at 1. unfold bind at 1.
  set (m := match type (conn c s) with
            | SOCKET => prefix_message message false
            | _ => message end).
  destruct (conn_writeline c m s) as [r s1] eqn:Hw.
  destruct (conn_writeline_frame _ _ _ _ _ Hw) as (Hd1 & Hl1 & Hq1 & Hwl).
  rewrite (writeline_closing m _ Hc) in Hwl. injection Hwl as <- Hw1.
  assert (Hc1 : is_closed (conn c s1) = true)
    by (unfold is_closed in *; by rewrite <- Hw1).
  destruct (close_connection_closing fuel c s1 Hc1)
    as (s' & -> & Hd & Hl & Hq & Hcl).
  exists s'. rewrite Hd, Hl, Hq, Hd1, Hl1, Hq1. by repeat split.
Qed.

End Closing.

(** C4, as stated, fails: alice is registered, her peer vanishes, the
    keepalive fails and closes her connection, and the write that follows
    on the same connection fails and closes it again. The disconnect queue
    then holds two events for the one connection. *)
Lemma ping_then_write_enqueues_twice_counterexample :
  ~ (disconnect_events 0 after_ping_and_write <= 1)%nat.
Proof. vm_compute. lia. Qed.

(** C4, amended. Every call of [close_connection] returns and appends one
    disconnect event for the connection, nested calls included, and
    nothing keeps a later call for the same connection from appending
    another: the events added are exactly the calls made. A keepalive
    failure followed by a write on the same connection makes two calls and
    two events. *)
Theorem close_connection_enqueues_once_per_call
    (fuel c : nat) (s : State) :
  (2 <= fuel)%nat ->
  (exists s' extra,
     close_connection fuel c s = (Ret tt, s')
     /\ disconnection_queue s' = disconnection_queue s ++ c :: extra
     /\ close_calls s' = close_calls s ++ c :: extra
     /\ (extra = [] \/ extra = [c]))
  /\ (forall message,
      wstate (writer (conn c s)) = Broken ->
      exists s1 s2,
        ping_connection_step fuel c s = (Ret false, s1)
        /\ send_message fuel c message s1 = (Ret tt, s2)
        /\ disconnection_queue s2 = disconnection_queue s ++ [c; c]
        /\ close_calls s2 = close_calls s ++ [c; c]).
Proof.
  intros Hfuel. split.
  - destruct (close_connection_spec fuel c s Hfuel)
      as (s' & extra & Hr & Hd & Hl & He & _).
    by exists s', extra.
  - intros message Hws. destruct fuel as [|fuel]; [lia|].
    destruct (ping_connection_step_broken fuel c s Hws)
      as (s1 & Hp & Hd1 & Hl1 & _ & Hc1).
    destruct (send_message_closing fuel c message s1 Hc1)
      as (s2 & Hs & Hd2 & Hl2 & _).
    exists s1, s2. rewrite Hd2, Hl2, Hd1, Hl1, <- !app_assoc.
    by repeat split.
Qed.

Lemma close_connection_enqueues_once_per_call_witness :
  (exists s' extra,
     close_connection 3 0 alice_gone = (Ret tt, s')
     /\ disconnection_queue s' = disconnection_queue alice_gone ++ 0%nat :: extra
     /\ close_calls s' = close_calls alice_gone ++ 0%nat :: extra
     /\ (extra = [] \/ extra = [0%nat]))
  /\ (forall message,
      wstate (writer (conn 0 alice_gone)) = Broken ->
      exists s1 s2,
        ping_connection_step 3 0 alice_gone = (Ret false, s1)
        /\ send_message 3 0 message s1 = (Ret tt, s2)
        /\ disconnection_queue s2 = disconnection_queue alice_gone ++ [0%nat; 0%nat]
        /\ close_calls s2 = close_calls alice_gone ++ [0%nat; 0%nat]).
Proof.
  apply (close_connection_enqueues_once_per_call 3 0 alice_gone). lia.
Defined.

(* ===================================================================== *)
(** ** The monad *)
(* ===================================================================== *)

Section Monad.

Context {S : Type}.

Lemma bind_inv {A B} (m : M S A) (k : A -> M S B) s r s' :
  bind m k s = (r, s') ->
  (exists a s1, m s = (Ret a, s1) /\ k a s1 = (r, s'))
  \/ (exists e, m s = (Raise e, s') /\ r = Raise e)
  \/ (m s = (Diverge, s') /\ r = Diverge).
Proof.
  unfold bind. destruct (m s) as [[a|e|] s1]; intros Hr.
  - left. eauto.
  - right; left. injection Hr as <- <-. eauto.
  - right; right. injection Hr as <- <-. eauto.
Qed.

Lemma bind_ret_inv {A B} (m : M S A) (k : A -> M S B) s b s' :
  bind m k s = (Ret b, s') ->
  exists a s1, m s = (Ret a, s1) /\ k a s1 = (Ret b, s').
Proof.
  intros Hr. destruct (bind_inv _ _ _ _ _ Hr) as [?|[(e & _ & [=])|(_ & [=])]].
  done.
Qed.

Lemma bind_ret {A B} (m : M S A) (k : A -> M S B) s a s1 :
  m s = (Ret a, s1) -> bind m k s = k a s1.
Proof. unfold bind. by intros ->. Qed.


Variable R : S -> S -> Prop.
Hypothesis R_refl : forall s, R s s.
Hypothesis R_trans : forall s1 s2 s3, R s1 s2 -> R s2 s3 -> R s1 s3.

Lemma keeps_ret {A} (a : A) : keeps R (ret a).
Proof. intros s r s' [= _ <-]. apply R_refl. Qed.

Lemma keeps_raise {A} e : keeps R (@raise S A e).
Proof. intros s r s' [= _ <-]. apply R_refl. Qed.

Lemma keeps_diverge {A} : keeps R (@diverge S A).
Proof. intros s r s' [= _ <-]. apply R_refl. Qed.

Lemma keeps_gets {A} (f : S -> A) : keeps R (gets f).
Proof. intros s r s' [= _ <-]. apply R_refl. Qed.

Lemma keeps_get : keeps R get.
Proof. intros s r s' [= _ <-]. apply R_refl. Qed.

Lemma keeps_modify (f : S -> S) : (forall s, R s (f s)) -> keeps R (modify f).
Proof. intros Hf s r s' [= _ <-]. apply Hf. Qed.

Lemma keeps_bind {A B} (m : M S A) (k : A -> M S B) :
  keeps R m -> (forall a, keeps R (k a)) -> keeps R (bind m k).
Proof.
  intros Hm Hk s r s' Hr.
  destruct (bind_inv _ _ _ _ _ Hr)
    as [(a & s1 & Hm1 & Hk1)|[(e & Hm1 & _)|(Hm1 & _)]].
  - eapply R_trans; [eapply Hm | eapply Hk]; eauto.
  - eapply Hm; eauto.
  - eapply Hm; eauto.
Qed.

End Monad.

(* ===================================================================== *)
(** ** The event queues *)
(* ===================================================================== *)

Section Queues.

Import GameManager.
Context {G : Type} `{Game.Contract G}.

Lemma pop_connections_spec (q : list nat) (m : State G) g :
  game m = Some g ->
  exists m',
    pop_connections q m = (Ret tt, m')
    /\ game m' = Some g
    /\ players m' = players m
    /\ calls m' = calls m
    /\ Server.disconnection_queue (server m')
       = Server.disconnection_queue (server m)
    /\ (q <> [] -> start_cooldown m' = Game.start_cooldown g
                   /\ Server.connection_queue (server m') = [])
    /\ (q = [] -> m' = m).
Proof.
  revert m. induction q as [|c q IH]; intros m Hg.
  { exists m. by repeat split. }
  cbn [pop_connections]. unfold bind at 1. unfold modify at 1.
  unfold bind at 1. unfold reset_start_cooldown at 1. cbn [game with_server].
  rewrite Hg.
  set (m1 := with_start_cooldown _ _).
  destruct (IH m1 Hg) as (m' & -> & Hg' & Hp' & Hc' & Hd' & Hne & Hnil).
  exists m'. repeat split; try done.
  - destruct q as [|c' q]; [by rewrite (Hnil eq_refl)|]. by apply Hne.
  - destruct q as [|c' q]; [by rewrite (Hnil eq_refl)|]. by apply Hne.
Qed.

(** Draining disconnect events of connections that are not playing: each
    resets the cooldown, none stops the drain. *)
Lemma pop_disconnections_spec (q : list nat) (m : State G) g :
  game m = Some g ->
  Forall (fun c => c ∉ players m) q ->
  exists m',
    pop_disconnections q m = (Ret tt, m')
    /\ game m' = Some g
    /\ players m' = players m
    /\ calls m' = calls m
    /\ (q <> [] -> start_cooldown m' = Game.start_cooldown g
                   /\ Server.disconnection_queue (server m') = [])
    /\ (q = [] -> m' = m).
Proof.
  revert m. induction q as [|c q IH]; intros m Hg Hq.
  { exists m. by repeat split. }
  apply Forall_cons in Hq as [Hc Hq].
  cbn [pop_disconnections]. unfold bind at 1. unfold modify at 1.
  unfold bind at 1. unfold reset_start_cooldown at 1. cbn [game with_server].
  rewrite Hg.
  set (m1 := with_start_cooldown _ _).
  unfold bind at 1. unfold get at 1. unfold bind at 1.
  rewrite (bool_decide_eq_false_2 (c ∈ players m1)) by done.
  rewrite andb_false_r. unfold ret at 1.
  destruct (IH m1 Hg Hq) as (m' & -> & Hg' & Hp' & Hc' & Hne & Hnil).
  exists m'. repeat split; try done.
  - destruct q as [|c' q]; [by rewrite (Hnil eq_refl)|]. by apply Hne.
  - destruct q as [|c' q]; [by rewrite (Hnil eq_refl)|]. by apply Hne.
Qed.

Lemma handle_connection_queues_spec (m : State G) g :
  game m = Some g ->
  Forall (fun c => c ∉ players m) (Server.disconnection_queue (server m)) ->
  exists m',
    handle_connection_queues m = (Ret tt, m')
    /\ game m' = Some g
    /\ players m' = players m
    /\ calls m' = calls m
    /\ (Server.disconnection_queue (server m) <> [] ->
        start_cooldown m' = Game.start_cooldown g
        /\ Server.disconnection_queue (server m') = []).
Proof.
  intros Hg Hq. unfold handle_connection_queues.
  unfold bind at 1. unfold gets at 1.
  destruct (pop_connections_spec (Server.connection_queue (server m)) m g Hg)
    as (m1 & Hr1 & Hg1 & Hp1 & Hc1 & Hd1 & _).
  rewrite (bind_ret _ _ _ _ _ Hr1).
  unfold bind at 1. unfold gets at 1.
  rewrite Hd1. rewrite <- Hp1 in Hq.
  destruct (pop_disconnections_spec _ m1 g Hg1 Hq)
    as (m' & -> & Hg' & Hp' & Hc' & Hne & _).
  exists m'. repeat split; try congruence; by apply Hne.
Qed.

End Queues.

Section Probes.

Import Server.

(** A connection whose stream ends before a first line is closed without
    ever being registered. *)
Lemma handle_connection_silent fuel peer w s :
  (2 <= fuel)%nat ->
  exists s' extra,
    handle_connection fuel peer [] w s = (Ret (fresh (dom (objects s))), s')
    /\ disconnection_queue s'
       = disconnection_queue s ++ fresh (dom (objects s)) :: extra
    /\ connection_queue s' = connection_queue s
    /\ fresh (dom (objects s)) ∉ dom (objects s).
Proof.
  intros Hfuel. unfold handle_connection.
  unfold bind at 1. unfold gets at 1.
  set (c := fresh (dom (objects s))).
  unfold bind at 1. unfold modify at 1.
  set (s0 := with_objects _ s).
  assert (Hconn : input (conn c s0) = mkInput [] []).
  { unfold conn, s0. cbn. by rewrite lookup_insert_eq. }
  unfold bind at 1. unfold read_message. unfold bind at 1.
  unfold conn_readline. rewrite Hconn.
  destruct fuel as [|fuel]; [lia|].
  rewrite readline_at_eof.
  set (s1 := update_conn c _ s0).
  unfold bind at 1.
  destruct (close_connection_spec (S fuel) c s1 Hfuel)
    as (s' & extra & -> & Hd & Hl & He & Hq & Hcl).
  unfold ret. exists s', extra. repeat split; try done.
  apply is_fresh.
Qed.

(** The same for a browser probe cut after its request line and for a
    client that quits instead of naming itself: events in the disconnect
    queue, none in the connect queue. *)
Lemma unregistered_connections_are_enqueued :
  connection_queue (snd Scenario.browser_probe) = []
  /\ disconnection_queue (snd Scenario.browser_probe) = [0%nat; 0%nat]
  /\ connection_queue (snd Scenario.quits_mid_handshake) = []
  /\ disconnection_queue (snd Scenario.quits_mid_handshake) = [0%nat].
Proof. vm_compute. done. Qed.

End Probes.

(** C9. Every call of [close_connection] appends the connection to the
    disconnect queue and leaves the connect queue alone, whether or not
    the connection was ever registered; a connection that ends before its
    first line is new to the server, never enters the connect queue and is
    in the disconnect queue; and when the orchestrator drains such events
    (none of a current player) the start cooldown is reset to the game's
    value and the queue is left empty. *)
Theorem close_connection_always_enqueues
    {G : Type} `{Game.Contract G} (fuel c : nat) (s : Server.State) :
  (2 <= fuel)%nat ->
  (exists s' extra,
     Server.close_connection fuel c s = (Ret tt, s')
     /\ Server.disconnection_queue s'
        = Server.disconnection_queue s ++ c :: extra
     /\ Server.connection_queue s' = Server.connection_queue s)
  /\ (forall peer w,
      exists s' extra,
        Server.handle_connection fuel peer [] w s
          = (Ret (fresh (dom (Server.objects s))), s')
        /\ (fresh (dom (Server.objects s)) ∉ dom (Server.objects s))
        /\ Server.disconnection_queue s'
           = Server.disconnection_queue s
             ++ (fresh (dom (Server.objects s)) :: extra)
        /\ Server.connection_queue s' = Server.connection_queue s)
  /\ (forall (m : GameManager.State G) g s',
      Server.close_connection fuel c s = (Ret tt, s') ->
      GameManager.game m = Some g ->
      Forall (fun x => x ∉ GameManager.players m)
        (Server.disconnection_queue s') ->
      exists m',
        GameManager.handle_connection_queues
          (GameManager.with_server (fun _ => s') m) = (Ret tt, m')
        /\ GameManager.start_cooldown m' = Game.start_cooldown g
        /\ Server.disconnection_queue (GameManager.server m') = []).
Proof.
  intros Hfuel.
  destruct (close_connection_spec fuel c s Hfuel)
    as (s1 & extra & Hr & Hd & Hl & He & Hq & Hcl).
  split; [by exists s1, extra|]. split.
  - intros peer w.
    destruct (handle_connection_silent fuel peer w s Hfuel)
      as (s' & extra' & Hr' & Hd' & Hq' & Hf').
    by exists s', extra'.
  - intros m g s' Hr' Hg Hp. rewrite Hr in Hr'. injection Hr' as <-.
    destruct (handle_connection_queues_spec
                (GameManager.with_server (fun _ => s1) m) g Hg Hp)
      as (m' & Hh & _ & _ & _ & Hne).
    exists m'. split; [done|]. apply Hne. cbn. rewrite Hd.
    by destruct (Server.disconnection_queue s).
Qed.

Lemma close_connection_always_enqueues_witness :
  (exists s' extra,
     Server.close_connection 3 0 Scenario.hello_state = (Ret tt, s')
     /\ Server.disconnection_queue s'
        = Server.disconnection_queue Scenario.hello_state ++ 0%nat :: extra
     /\ Server.connection_queue s'
        = Server.connection_queue Scenario.hello_state)
  /\ (forall peer w,
      exists s' extra,
        Server.handle_connection 3 peer [] w Scenario.hello_state
          = (Ret (fresh (dom (Server.objects Scenario.hello_state))), s')
        /\ (fresh (dom (Server.objects Scenario.hello_state))
            ∉ dom (Server.objects Scenario.hello_state))
        /\ Server.disconnection_queue s'
           = Server.disconnection_queue Scenario.hello_state
             ++ (fresh (dom (Server.objects Scenario.hello_state)) :: extra)
        /\ Server.connection_queue s'
           = Server.connection_queue Scenario.hello_state)
  /\ (forall (m : GameManager.State RockPaperScissors.State) g s',
      Server.close_connection 3 0 Scenario.hello_state = (Ret tt, s') ->
      GameManager.game m = Some g ->
      Forall (fun x => x ∉ GameManager.players m)
        (Server.disconnection_queue s') ->
      exists m',
        GameManager.handle_connection_queues
          (GameManager.with_server (fun _ => s') m) = (Ret tt, m')
        /\ GameManager.start_cooldown m' = Game.start_cooldown g
        /\ Server.disconnection_queue (GameManager.server m') = []).
Proof.
  apply (close_connection_always_enqueues 3 0 Scenario.hello_state). lia.
Defined.

(* ===================================================================== *)
(** ** The end of a session *)
(* ===================================================================== *)

Section SessionEnd.

Import GameManager.
Context {G : Type} `{Game.Contract G}.
Variable wait : Z -> list Completion.

Lemma quiet_refl (m : State G) : quiet m m.
Proof. reflexivity. Qed.

Lemma quiet_trans (m1 m2 m3 : State G) :
  quiet m1 m2 -> quiet m2 m3 -> quiet m1 m3.
Proof. unfold quiet. congruence. Qed.

Ltac quiet_step :=
  first
    [ apply (keeps_bind quiet quiet_trans)
    | apply (keeps_ret quiet quiet_refl)
    | apply (keeps_raise quiet quiet_refl)
    | apply (keeps_diverge quiet quiet_refl)
    | apply (keeps_gets quiet quiet_refl)
    | apply (keeps_get quiet quiet_refl)
    | apply (keeps_modify quiet); intros ?; reflexivity ].

Lemma quiet_hook {A} c (h : G -> res A * G) :
  c <> COnGameOver -> keeps quiet (hook c h).
Proof.
  intros Hc m r m'. unfold hook, quiet.
  destruct (game m) as [g|]; [|by intros [= _ <-]].
  destruct (h g) as [r' g']. intros [= _ <-].
  unfold game_overs. cbn. rewrite filter_app, length_app.
  rewrite filter_cons, filter_nil. case_decide; [done|]. cbn. lia.
Qed.

Lemma quiet_reset_start_cooldown : keeps quiet reset_start_cooldown.
Proof.
  intros m r m'. unfold reset_start_cooldown.
  destruct (game m); by intros [= _ <-].
Qed.

Lemma quiet_pop_connections q : keeps quiet (pop_connections q).
Proof.
  induction q as [|c q IH]; cbn [pop_connections]; [quiet_step|].
  quiet_step; [quiet_step|]. intros _.
  quiet_step; [apply quiet_reset_start_cooldown|]. intros _. apply IH.
Qed.

Lemma quiet_pop_disconnections q : keeps quiet (pop_disconnections q).
Proof.
  induction q as [|c q IH]; cbn [pop_disconnections]; [quiet_step|].
  quiet_step; [quiet_step|]. intros _.
  quiet_step; [apply quiet_reset_start_cooldown|]. intros _.
  quiet_step; [quiet_step|]. intros m.
  quiet_step; [case_match; quiet_step|]. intros _. apply IH.
Qed.

Lemma quiet_handle_connection_queues : keeps quiet handle_connection_queues.
Proof.
  unfold handle_connection_queues.
  quiet_step; [quiet_step|]. intros q.
  quiet_step; [apply quiet_pop_connections|]. intros _.
  quiet_step; [quiet_step|]. intros q'. apply quiet_pop_disconnections.
Qed.

Lemma quiet_start_tasks round index connections :
  keeps quiet (start_tasks round index connections).
Proof.
  revert index. induction connections as [|c cs IH]; intros index;
    cbn [start_tasks]; [quiet_step|].
  quiet_step; [by apply quiet_hook|]. intros round_input.
  quiet_step; [apply IH|]. intros tasks.
  destruct round_input as [[|]|]; quiet_step.
Qed.

Lemma quiet_await_responses round completions :
  forall pending responses responded,
  keeps quiet (await_responses round completions pending responses responded).
Proof.
  induction completions as [|c cs IH]; intros pending responses responded;
    destruct pending as [|p pending]; cbn [await_responses].
  1-3: quiet_step.
  quiet_step; [quiet_step|]. intros _.
  quiet_step.
  { intros m r m' [= _ <-]. reflexivity. }
  intros r. quiet_step.
  { unfold store_response. case_match; quiet_step. }
  intros responses'. quiet_step; [by apply quiet_hook|]. intros _. apply IH.
Qed.

Lemma quiet_get_player_outputs round :
  keeps quiet (get_player_outputs wait round).
Proof.
  unfold get_player_outputs. quiet_step; [quiet_step|]. intros connections.
  quiet_step; [apply quiet_start_tasks|]. intros [|t tasks]; [quiet_step|].
  quiet_step; [apply quiet_await_responses|]. intros [responses responded].
  case_match; [quiet_step|].
  quiet_step; [apply quiet_handle_connection_queues|]. intros _. quiet_step.
Qed.

Lemma quiet_handle_player_outputs round outs :
  keeps quiet (handle_player_outputs round outs).
Proof.
  induction outs as [|[index output] outs IH]; cbn [handle_player_outputs];
    [quiet_step|].
  quiet_step; [by apply quiet_hook|]. intros _. apply IH.
Qed.

Lemma quiet_play_rounds fuel :
  forall round, keeps quiet (play_rounds wait fuel round).
Proof.
  induction fuel as [|fuel IH]; intros round; cbn [play_rounds];
    [quiet_step|].
  quiet_step; [by apply quiet_hook|]. intros _.
  quiet_step; [apply quiet_get_player_outputs|]. intros outs.
  quiet_step; [apply quiet_handle_player_outputs|]. intros _.
  quiet_step; [by apply quiet_hook|]. intros _.
  quiet_step; [by apply quiet_hook|]. intros _. apply IH.
Qed.

(** Nothing inside the [try] of [play_game] calls [on_game_over]. *)
Lemma quiet_play_game_try fuel : keeps quiet (play_game_try wait fuel).
Proof.
  unfold play_game_try. quiet_step; [quiet_step|]. intros _.
  quiet_step; [by apply quiet_hook|]. intros _. apply quiet_play_rounds.
Qed.

(** What follows the [try], when the snapshot and [on_game_over] return. *)
Lemma play_game_end_spec (m : State G) g1 g2 g3 :
  game m = Some g1 ->
  Game.get_visualizer_data g1 = (Ret tt, g2) ->
  Game.on_game_over g2 = (Ret tt, g3) ->
  play_game_end m
  = (Ret tt,
     with_calls (calls m ++ [CGetVisualizerData; COnGameOver])
       (with_game (Some g3) m)).
Proof.
  intros Hg Hv Ho. unfold play_game_end, visualize_round, bind, hook.
  rewrite Hg, Hv. cbn. rewrite Ho. cbn. by rewrite <- app_assoc.
Qed.

(** C1, amended. When the body of a session ends by
    [PlayerDisconnectedError] or [GameOverError], and the closing snapshot
    and [on_game_over] themselves return, the session returns with
    [on_game_over] called exactly once, as the last call, before the game
    is dropped. Any other exception from the body leaves the session as it
    is: [on_game_over] is not called and the game is not dropped. *)
Theorem on_game_over_once_when_caught
    (fuel : nat) (roster : list nat) (m m1 : State G) (e : exn) :
  play_game_try wait fuel (with_players roster m) = (Raise e, m1) ->
  (e = PlayerDisconnectedError \/ e = GameOverError ->
   forall g1 g2 g3,
     game m1 = Some g1 ->
     Game.get_visualizer_data g1 = (Ret tt, g2) ->
     Game.on_game_over g2 = (Ret tt, g3) ->
     exists m',
       game_loop_session wait fuel roster m = (Ret tt, m')
       /\ game_overs m' = S (game_overs m)
       /\ calls m' = calls m1 ++ [CGetVisualizerData; COnGameOver]
       /\ game m' = None)
  /\ (e <> PlayerDisconnectedError -> e <> GameOverError ->
      game_loop_session wait fuel roster m = (Raise e, m1)
      /\ game_overs m1 = game_overs m).
Proof.
  intros Htry.
  pose proof (quiet_play_game_try fuel _ _ _ Htry) as Hquiet.
  unfold quiet in Hquiet. change (game_overs (with_players roster m))
    with (game_overs m) in Hquiet.
  split.
  - intros He g1 g2 g3 Hg Hv Ho.
    pose proof (play_game_end_spec m1 g1 g2 g3 Hg Hv Ho) as Hend.
    eexists. split.
    { unfold game_loop_session, bind, modify, play_game. rewrite Htry.
      destruct He as [-> | ->]; rewrite Hend; reflexivity. }
    cbn. split; [|done].
    unfold game_overs in *. cbn.
    rewrite filter_app, length_app, Hquiet.
    change (length (filter (fun c => c = COnGameOver)
                      [CGetVisualizerData; COnGameOver])) with 1%nat.
    lia.
  - intros Hp Hg. split; [|done].
    unfold game_loop_session, bind, modify, play_game. rewrite Htry.
    by destruct e.
Qed.

End SessionEnd.

(** C1, as stated, fails: a game that keeps the default hooks of [Game]
    fails fatally in its first [get_player_input]; the session ends
    with that error, [on_game_over] has not been called and the game is
    still there. *)
Lemma fatal_hook_error_skips_on_game_over_counterexample :
  let session :=
    GameManager.game_loop_session Scenario.two_rounds 5 Scenario.roster
      (Scenario.lobby (Game.mkBase 0 [])) in
  fst session = Raise NotImplementedError
  /\ GameManager.game_overs (snd session) <> 1%nat
  /\ GameManager.game (snd session) <> None.
Proof. vm_compute. repeat split; discriminate. Qed.

Lemma on_game_over_once_when_caught_witness :
  exists m',
    GameManager.game_loop_session Scenario.two_rounds 5 Scenario.roster
      (Scenario.lobby RockPaperScissors.new) = (Ret tt, m')
    /\ GameManager.game_overs m'
       = S (GameManager.game_overs (Scenario.lobby RockPaperScissors.new))
    /\ GameManager.calls m'
       = GameManager.calls
           (snd (GameManager.play_game_try Scenario.two_rounds 5
                   (GameManager.with_players Scenario.roster
                      (Scenario.lobby RockPaperScissors.new))))
         ++ [GameManager.CGetVisualizerData; GameManager.COnGameOver]
    /\ GameManager.game m' = None.
Proof.
  refine (proj1
    (on_game_over_once_when_caught Scenario.two_rounds 5 Scenario.roster
       (Scenario.lobby RockPaperScissors.new)
       (snd (GameManager.play_game_try Scenario.two_rounds 5
               (GameManager.with_players Scenario.roster
                  (Scenario.lobby RockPaperScissors.new))))
       GameOverError _) (or_intror eq_refl) _ _ _ _ _ _).
  - vm_compute. reflexivity.
  - vm_compute. reflexivity.
  - vm_compute. reflexivity.
  - vm_compute. reflexivity.
Defined.

(** The same when the session ends because a player left: alice's stream
    ends in round 0, her connection is closed, the event is found at the
    end of the fan-out, and [on_game_over] is called once. *)
Lemma on_game_over_after_disconnection :
  let session :=
    GameManager.game_loop_session Scenario.alice_leaves 5 Scenario.roster
      (Scenario.lobby RockPaperScissors.new) in
  fst (GameManager.play_game_try Scenario.alice_leaves 5
         (GameManager.with_players Scenario.roster
            (Scenario.lobby RockPaperScissors.new)))
    = Raise PlayerDisconnectedError
  /\ fst session = Ret tt
  /\ GameManager.game_overs (snd session) = 1%nat
  /\ GameManager.game (snd session) = None.
Proof. vm_compute. done. Qed.

(* ===================================================================== *)
(** ** The fan-out *)
(* ===================================================================== *)

Section FanOut.

Import GameManager.
Context {G : Type} `{Game.Contract G}.
Variable wait : Z -> list Completion.

Lemma list_remove_Permutation x (l p : list nat) :
  x :: l ≡ₚ p -> l ≡ₚ Server.list_remove x p.
Proof.
  revert l. induction p as [|y p IH]; intros l Hp.
  { by apply Permutation_nil_r in Hp. }
  cbn [Server.list_remove]. case_decide as Hy.
  { subst y. by apply (inj (cons x)). }
  assert (Hin : y ∈ x :: l) by (rewrite Hp; left).
  apply elem_of_cons in Hin as [->|Hin]; [done|].
  apply elem_of_Permutation in Hin as [l' Hl'].
  rewrite Hl'. constructor. apply IH.
  rewrite Hl' in Hp. rewrite <- (Permutation_swap x y l') in Hp.
  by apply (inj (cons y)) in Hp.
Qed.


Lemma list_remove_subseteq x (p : list nat) i :
  i ∈ Server.list_remove x p -> i ∈ p.
Proof.
  induction p as [|y p IH]; [done|].
  cbn [Server.list_remove]. case_decide.
  - by right.
  - intros [->|Hi]%elem_of_cons; [left | right; auto].
Qed.

Lemma list_remove_not_elem_of x (p : list nat) :
  NoDup p -> x ∉ Server.list_remove x p.
Proof.
  induction p as [|y p IH]; [intros _ ?%elem_of_nil; done|].
  intros [Hy Hp]%NoDup_cons. cbn [Server.list_remove]. case_decide.
  - by subst y.
  - intros [->|Hi]%elem_of_cons; [done|]. by apply IH.
Qed.

Lemma list_remove_NoDup x (p : list nat) :
  NoDup p -> NoDup (Server.list_remove x p).
Proof.
  induction p as [|y p IH]; [done|].
  intros [Hy Hp]%NoDup_cons. cbn [Server.list_remove]. case_decide; [done|].
  apply NoDup_cons. split; [|auto].
  intros Hi. by apply list_remove_subseteq in Hi.
Qed.

(** A hook answer keeps the game in place. *)
Lemma hook_ret_game {A} c (h : G -> res A * G) (m m' : State G) a :
  hook c h m = (Ret a, m') ->
  exists g g', game m = Some g /\ h g = (Ret a, g') /\ game m' = Some g'
    /\ calls m' = calls m ++ [c] /\ server m' = server m
    /\ players m' = players m.
Proof.
  unfold hook. destruct (game m) as [g|]; [|done].
  destruct (h g) as [r g'] eqn:Hh. intros [= -> <-].
  by exists g, g'.
Qed.

(** One turn of the [while response_tasks] loop. *)
Lemma await_responses_step round response completions p pending
    responses responded :
  await_responses round (response :: completions) (p :: pending)
    responses responded
  = (modify (with_server (activity response)) ;;;
     let* r := (fun m => (result response, m)) in
     let* responses := store_response responses (task response) r in
     hook (COnPlayerOutput round (task response) r)
       (Game.on_player_output round (task response) r) ;;;
     await_responses round completions
       (Server.list_remove (task response) (p :: pending))
       responses (S responded)).
Proof. reflexivity. Qed.



(** When every pending index fits the list and the loop returns, each
    completion has left its result at its own index; the order of the
    completions does not show. *)
Lemma await_responses_complete round completions :
  forall pending responses responded (m : State G) responses' responded' m',
  map task completions ≡ₚ pending ->
  NoDup pending ->
  await_responses round completions pending responses responded m
  = (Ret (responses', responded'), m') ->
  length responses' = length responses
  /\ responded' = (responded + length completions)%nat
  /\ (forall c, c ∈ completions ->
      exists v, result c = Ret v /\ responses' !! task c = Some v)
  /\ (forall i, i ∉ pending -> responses' !! i = responses !! i).
Proof.
  induction completions as [|c cs IH];
    intros pending responses responded m responses' responded' m'
      Hperm Hnd Hr.
  { apply Permutation_nil_l in Hperm. subst pending.
    injection Hr as <- <- <-. repeat split; try done.
    all: try (cbn; lia).
    all: try by intros c ?%elem_of_nil. }
  destruct pending as [|p pending].
  { by apply Permutation_nil_r in Hperm. }
  rewrite await_responses_step in Hr.
  apply bind_ret_inv in Hr as (_ & m1 & _ & Hr).
  apply bind_ret_inv in Hr as (o & m2 & Ho & Hr).
  apply bind_ret_inv in Hr as (responses1 & m3 & Hs & Hr).
  apply bind_ret_inv in Hr as (_ & m4 & _ & Hr).
  injection Ho as Ho <-.
  unfold store_response in Hs.
  destruct (task c <? length responses)%nat eqn:Hlt; [|done].
  apply Nat.ltb_lt in Hlt. injection Hs as <- <-.
  apply IH in Hr as (Hl & Hn & Hall & Hrest).
  - rewrite length_insert in Hl. repeat split; [done|cbn; lia| |].
    + intros c' [->|Hc']%elem_of_cons; [|by apply Hall].
      exists o. split; [done|].
      rewrite Hrest by (by apply list_remove_not_elem_of).
      by apply list_lookup_insert_eq.
    + intros i Hi. rewrite Hrest.
      * apply list_lookup_insert_ne. intros <-. apply Hi.
        rewrite <- Hperm. left.
      * intros Hi'. by apply list_remove_subseteq in Hi'.
  - apply list_remove_Permutation. by rewrite <- Hperm.
  - by apply list_remove_NoDup.
Qed.

(** The loop returns when every pending index fits the list, every
    response task gives a result and [on_player_output] returns on the
    games it is given (those that satisfy [I]): it has then counted every
    completion and called [on_player_output] for each as it came, and the
    server is as the tasks' activity left it. *)
Lemma await_responses_returns (I : G -> Prop) round completions :
  forall pending responses responded (m : State G) g,
  map task completions ≡ₚ pending ->
  Forall (fun i => (i < length responses)%nat) pending ->
  (forall i o g, (i < length responses)%nat -> I g ->
     exists g', Game.on_player_output round i o g = (Ret tt, g') /\ I g') ->
  Forall (fun c => exists v, result c = Ret v) completions ->
  game m = Some g -> I g ->
  exists responses' m' g',
    await_responses round completions pending responses responded m
    = (Ret (responses', (responded + length completions)%nat), m')
    /\ game m' = Some g'
    /\ players m' = players m
    /\ server m' = foldl (fun s c => activity c s) (server m) completions
    /\ I g'
    /\ calls m'
       = calls m
         ++ map (fun c => COnPlayerOutput round (task c) (response_of c))
              completions.
Proof.
  induction completions as [|c cs IH];
    intros pending responses responded m g Hperm Hfit Hhook Hres Hg HI.
  { apply Permutation_nil_l in Hperm. subst pending.
    exists responses, m, g. cbn. by rewrite Nat.add_0_r, app_nil_r. }
  destruct pending as [|p pending].
  { by apply Permutation_nil_r in Hperm. }
  apply Forall_cons in Hres as [[v Hv] Hres].
  assert (Hlt : (task c < length responses)%nat).
  { eapply (proj1 (Forall_forall _ _) Hfit). rewrite <- Hperm. left. }
  rewrite await_responses_step.
  unfold bind at 1. unfold modify at 1.
  unfold bind at 1. rewrite Hv.
  unfold bind at 1. unfold store_response.
  rewrite (proj2 (Nat.ltb_lt _ _) Hlt). unfold ret at 1.
  unfold bind at 1. unfold hook at 1. cbn [game with_server]. rewrite Hg.
  destruct (Hhook (task c) v g Hlt HI) as (g' & -> & HI').
  edestruct (IH (Server.list_remove (task c) (p :: pending))
               (<[task c := v]> responses) (S responded)
               (with_calls
                  (calls (with_server (activity c) m)
                   ++ [COnPlayerOutput round (task c) v])
                  (with_game (Some g') (with_server (activity c) m))) g')
    as (responses' & m' & g'' & Hr & Hg' & Hp' & Hs' & HI'' & Hc'); try done.
  - apply list_remove_Permutation. by rewrite <- Hperm.
  - apply Forall_forall. intros i Hi. rewrite length_insert.
    apply (proj1 (Forall_forall _ _) Hfit).
    by apply list_remove_subseteq in Hi.
  - intros i o g0. rewrite length_insert. apply Hhook.
  - exists responses', m', g''. rewrite Hr. cbn [length].
    rewrite Nat.add_succ_r. repeat split; try done.
    rewrite Hc'. cbn [calls with_calls with_game with_server map].
    unfold response_of. rewrite Hv. by rewrite <- app_assoc.
Qed.

End FanOut.

Section FanOutClaims.

Import GameManager.
Context {G : Type} `{Game.Contract G}.
Variable wait : Z -> list Completion.




(** [get_player_outputs] once the tasks are started. *)
Lemma get_player_outputs_started round (m m1 : State G) t tasks :
  start_tasks round 0 (players m) m = (Ret (t :: tasks), m1) ->
  get_player_outputs wait round m
  = (let* done :=
       await_responses round (wait round) (map task_index (t :: tasks))
         (replicate (length (t :: tasks)) None) 0 in
     let (responses, responded) := done : list (option str) * nat in
     if negb (responded =? length (t :: tasks))%nat then raise RuntimeError
     else
       handle_connection_queues ;;;
       ret (zip (map task_index (t :: tasks)) responses)) m1.
Proof.
  intros Hs. unfold get_player_outputs.
  unfold bind at 1. unfold gets at 1.
  by rewrite (bind_ret _ _ _ _ _ Hs).
Qed.

Lemma handle_player_outputs_calls round outs :
  forall (m m' : State G),
  handle_player_outputs round outs m = (Ret tt, m') ->
  calls m'
  = calls m ++ map (fun io => CHandlePlayerOutput round (fst io) (snd io)) outs.
Proof.
  induction outs as [|[i o] outs IH]; intros m m' Hr.
  { injection Hr as <-. by rewrite app_nil_r. }
  cbn [handle_player_outputs] in Hr.
  apply bind_ret_inv in Hr as ([] & m1 & Hh & Hr).
  apply hook_ret_game in Hh as (g & g' & _ & _ & _ & Hc & _).
  rewrite (IH _ _ Hr), Hc, <- app_assoc. done.
Qed.

Lemma hook_keeps_server {A} c (h : G -> res A * G) (m m' : State G) r :
  hook c h m = (r, m') -> server m' = server m /\ players m' = players m.
Proof.
  unfold hook. destruct (game m) as [g|]; [|by intros [= <- <-]].
  destruct (h g) as [r' g']. by intros [= <- <-].
Qed.

Lemma start_tasks_keeps_server round connections :
  forall index (m m' : State G) r,
  start_tasks round index connections m = (r, m') ->
  server m' = server m /\ players m' = players m.
Proof.
  induction connections as [|c cs IH]; intros index m m' r Hr.
  { by injection Hr as <- <-. }
  cbn [start_tasks] in Hr.
  apply bind_inv in Hr
    as [(a & m1 & Hh & Hr)|[(e & Hh & _)|(Hh & _)]];
    [|by eapply hook_keeps_server|by eapply hook_keeps_server].
  apply hook_keeps_server in Hh as [Hs1 Hp1].
  apply bind_inv in Hr
    as [(tasks & m2 & Hs & Hr)|[(e & Hs & _)|(Hs & _)]].
  - apply IH in Hs as [Hs2 Hp2].
    destruct a as [[|]|]; injection Hr as <- <-; split; congruence.
  - apply IH in Hs as [Hs2 Hp2]. split; congruence.
  - apply IH in Hs as [Hs2 Hp2]. split; congruence.
Qed.

(** What a returning [get_player_outputs] has collected when every one
    of the [N] participants was prompted. *)
Lemma get_player_outputs_collected
    (round : Z) (m m1 m2 : State G) (tasks : list (nat * nat * str))
    (outs : list (nat * option str)) :
  start_tasks round 0 (players m) m = (Ret tasks, m1) ->
  map task_index tasks = seq 0 (length (players m)) ->
  map task (wait round) ≡ₚ seq 0 (length (players m)) ->
  get_player_outputs wait round m = (Ret outs, m2) ->
  length outs = length (players m)
  /\ map fst outs = seq 0 (length (players m))
  /\ (forall c, c ∈ wait round ->
      exists v, result c = Ret v /\ outs !! task c = Some (task c, v)).
Proof.
  intros Hs Hidx Hperm Hr.
  destruct tasks as [|t tasks].
  { unfold get_player_outputs in Hr. unfold bind at 1 in Hr.
    unfold gets at 1 in Hr. rewrite (bind_ret _ _ _ _ _ Hs) in Hr. done. }
  rewrite (get_player_outputs_started _ _ _ _ _ Hs) in Hr.
  set (N := length (players m)) in *.
  assert (HN : length (t :: tasks) = N).
  { rewrite <- (length_map task_index), Hidx. apply length_seq. }
  rewrite Hidx, HN in Hr.
  apply bind_ret_inv in Hr as ([responses responded] & m1' & Ha & Hr).
  destruct (negb (responded =? N)%nat); [done|].
  apply bind_ret_inv in Hr as (_ & m1'' & _ & Hr).
  injection Hr as <- <-.
  apply await_responses_complete in Ha as (Hl & _ & Hall & _);
    [|done|apply NoDup_seq].
  rewrite length_replicate in Hl.
  split; [by rewrite length_zip, length_seq, Hl, Nat.min_id|].
  split.
  { change (map fst ?l) with (l.*1). apply fst_zip.
    rewrite length_seq, Hl. done. }
  intros c Hc. destruct (Hall c Hc) as (v & Hv & Hlook).
  exists v. split; [done|].
  assert (Hlt : (task c < N)%nat).
  { assert (Hin : task c ∈ seq 0 N)
      by (rewrite <- Hperm; by apply list_elem_of_fmap_2).
    apply elem_of_seq in Hin. lia. }
  apply lookup_zip_with_Some. exists (task c), v.
  split; [done|]. split; [by apply lookup_seq_lt|done].
Qed.

(** The prompts: when [get_player_input] yields a prompt for every
    participant from [index] on, every one of them gets a response task,
    in roster order. *)
Lemma start_tasks_prompts (I : G -> Prop) round connections :
  forall index (m : State G) g,
  game m = Some g -> I g ->
  (forall i g, (index <= i < index + length connections)%nat -> I g ->
     exists prompt g',
       Game.get_player_input round i g = (Ret (Some prompt), g')
       /\ prompt <> [] /\ I g') ->
  exists tasks m1 g1,
    start_tasks round index connections m = (Ret tasks, m1)
    /\ map task_index tasks = seq index (length connections)
    /\ game m1 = Some g1 /\ I g1
    /\ server m1 = server m /\ players m1 = players m
    /\ calls m1
       = calls m
         ++ map (CGetPlayerInput round) (seq index (length connections)).
Proof.
  induction connections as [|c cs IH]; intros index m g Hg HI Hin.
  { exists [], m, g. cbn. by rewrite app_nil_r. }
  cbn [start_tasks length seq map].
  unfold bind at 1. unfold hook at 1. rewrite Hg.
  destruct (Hin index g) as (prompt & g' & -> & Hp & HI');
    [cbn [length]; lia|done|].
  set (m' := with_calls _ _).
  destruct (IH (S index) m' g') as
    (tasks & m1 & g1 & Hs & Hidx & Hg1 & HI1 & Hsrv & Hpl & Hc); try done.
  { intros i g0 Hi. apply Hin. cbn [length]. lia. }
  rewrite (bind_ret _ _ _ _ _ Hs).
  destruct prompt as [|x prompt]; [done|].
  exists ((index, c, x :: prompt) :: tasks), m1, g1.
  repeat split; try done.
  - cbn [map task_index fst]. by rewrite Hidx.
  - rewrite Hc. unfold m'. cbn [calls with_calls].
    by rewrite <- app_assoc.
Qed.

(** The loop of lines 181-183 returns when [handle_player_output] does,
    having called it for each pair in turn. *)
Lemma handle_player_outputs_returns (I : G -> Prop) round (N : nat) outs :
  forall (m : State G) g,
  game m = Some g -> I g ->
  Forall (fun io => (fst io < N)%nat) outs ->
  (forall i o g, (i < N)%nat -> I g ->
     exists g', Game.handle_player_output round i o g = (Ret tt, g')
                /\ I g') ->
  exists m',
    handle_player_outputs round outs m = (Ret tt, m')
    /\ calls m'
       = calls m
         ++ map (fun io => CHandlePlayerOutput round (fst io) (snd io)) outs.
Proof.
  induction outs as [|[i o] outs IH]; intros m g Hg HI Hlt Hhook.
  { exists m. cbn. by rewrite app_nil_r. }
  apply Forall_cons in Hlt as [Hi Hlt]. cbn [fst] in Hi.
  cbn [handle_player_outputs].
  unfold bind at 1. unfold hook at 1. rewrite Hg.
  destruct (Hhook i o g Hi HI) as (g' & -> & HI').
  set (m1 := with_calls _ _).
  destruct (IH m1 g') as (m' & Hr & Hc); try done.
  exists m'. split; [done|].
  rewrite Hc. unfold m1. cbn [calls with_calls map fst snd].
  by rewrite <- app_assoc.
Qed.

(** C5, amended. In a round of a session of [N >= 1] participants in
    which [get_player_input] yields a prompt for every participant, every
    response task completes once with a result, in whatever order,
    [on_player_output] and [handle_player_output] return on the games
    they are given (those that satisfy [I]) and no participant's
    disconnect event is waiting when the responses are in:
    [get_player_outputs] returns [N] pairs, the participants' indices in
    ascending order, each with the response of that participant's own
    task, having asked every prompt in roster order and called
    [on_player_output] for each response as it came; and the loop over
    the pairs then returns, having called [handle_player_output] once for
    each participant, in ascending index order. *)
Theorem fan_out_is_complete_and_ordered (I : G -> Prop)
    (round : Z) (m : State G) (g : G) :
  let N := length (players m) in
  game m = Some g -> I g ->
  players m <> [] ->
  (forall i g, (i < N)%nat -> I g ->
     exists prompt g',
       Game.get_player_input round i g = (Ret (Some prompt), g')
       /\ prompt <> [] /\ I g') ->
  (forall i o g, (i < N)%nat -> I g ->
     exists g', Game.on_player_output round i o g = (Ret tt, g') /\ I g') ->
  (forall i o g, (i < N)%nat -> I g ->
     exists g', Game.handle_player_output round i o g = (Ret tt, g')
                /\ I g') ->
  map task (wait round) ≡ₚ seq 0 N ->
  Forall (fun c => exists v, result c = Ret v) (wait round) ->
  Forall (fun x => x ∉ players m)
    (Server.disconnection_queue
       (foldl (fun s c => activity c s) (server m) (wait round))) ->
  exists outs m2 m3,
    get_player_outputs wait round m = (Ret outs, m2)
    /\ length outs = N
    /\ map fst outs = seq 0 N
    /\ (forall c, c ∈ wait round ->
        outs !! task c = Some (task c, response_of c))
    /\ calls m2
       = calls m
         ++ map (CGetPlayerInput round) (seq 0 N)
         ++ map (fun c => COnPlayerOutput round (task c) (response_of c))
              (wait round)
    /\ handle_player_outputs round outs m2 = (Ret tt, m3)
    /\ calls m3
       = calls m2
         ++ map (fun io => CHandlePlayerOutput round (fst io) (snd io)) outs.
Proof.
  intros N Hg HI Hne Hin Hon Hhandle Hperm Hres Hquiet.
  destruct (start_tasks_prompts I round (players m) 0 m g Hg HI) as
    (tasks & m1 & g1 & Hs & Hidx & Hg1 & HI1 & Hsrv & Hpl & Hc1).
  { intros i g0 Hi. apply Hin. fold N in Hi. lia. }
  fold N in Hidx, Hc1.
  assert (HN : length tasks = N).
  { rewrite <- (length_map task_index), Hidx. apply length_seq. }
  destruct tasks as [|t tasks].
  { destruct (players m); [done|]. subst N. cbn in HN. lia. }
  destruct (await_responses_returns I round (wait round) (seq 0 N)
              (replicate N None) 0 m1 g1 Hperm) as
    (responses & m1' & g' & Ha & Hg' & Hp' & Hs' & HI' & Hc'); try done.
  { apply Forall_forall. intros i Hi%elem_of_seq.
    rewrite length_replicate. lia. }
  { intros i o g0. rewrite length_replicate. apply Hon. }
  assert (HlenN : length (wait round) = N).
  { rewrite <- (length_map task), Hperm. apply length_seq. }
  destruct (handle_connection_queues_spec m1' g' Hg')
    as (m2 & Hh & Hg2 & Hp2 & Hc2 & _).
  { rewrite Hp', Hpl, Hs', Hsrv. done. }
  assert (Hr : get_player_outputs wait round m
               = (Ret (zip (seq 0 N) responses), m2)).
  { rewrite (get_player_outputs_started _ _ _ _ _ Hs).
    rewrite Hidx, HN. rewrite (bind_ret _ _ _ _ _ Ha).
    cbn [Nat.add]. rewrite HlenN, Nat.eqb_refl. cbn [negb].
    by rewrite (bind_ret _ _ _ _ _ Hh). }
  destruct (get_player_outputs_collected _ _ _ _ _ _ Hs Hidx Hperm Hr)
    as (Hl & Hf & Hall).
  destruct (handle_player_outputs_returns I round N
              (zip (seq 0 N) responses) m2 g' Hg2 HI') as (m3 & Hr3 & Hc3);
    try done.
  { apply Forall_forall. intros [i o] Hio. cbn [fst].
    assert (Hi : i ∈ seq 0 N).
    { fold N in Hf. rewrite <- Hf.
      by apply (list_elem_of_fmap_2 fst _ (i, o)). }
    apply elem_of_seq in Hi. lia. }
  exists (zip (seq 0 N) responses), m2, m3.
  repeat split; try done.
  - intros c Hc. destruct (Hall c Hc) as (v & Hv & Hlook).
    unfold response_of. by rewrite Hv.
  - by rewrite Hc2, Hc', Hc1, <- app_assoc.
Qed.


End FanOutClaims.

(** Round 0 of a session of rock-paper-scissors between alice and bob,
    bob answering first: the responses are taken as they come and handed
    to the game in roster order. *)
Lemma fan_out_is_complete_and_ordered_witness :
  exists outs m2 m3,
    GameManager.get_player_outputs Scenario.two_rounds 0 Scenario.two_playing
    = (Ret outs, m2)
    /\ outs = [(0%nat, Some (py "Paper")); (1%nat, Some (py "Rock"))]
    /\ GameManager.handle_player_outputs 0 outs m2 = (Ret tt, m3)
    /\ GameManager.calls m3
       = [GameManager.CSetupGame;
          GameManager.CGetPlayerInput 0 0;
          GameManager.CGetPlayerInput 0 1;
          GameManager.COnPlayerOutput 0 1 (Some (py "Rock"));
          GameManager.COnPlayerOutput 0 0 (Some (py "Paper"));
          GameManager.CHandlePlayerOutput 0 0 (Some (py "Paper"));
          GameManager.CHandlePlayerOutput 0 1 (Some (py "Rock"))].
Proof.
  edestruct (fan_out_is_complete_and_ordered Scenario.two_rounds
               (fun g => length (RockPaperScissors.waiting g) = 2%nat
                         /\ length (RockPaperScissors.moves g) = 2%nat)
               0 Scenario.two_playing)
    as (outs & m2 & m3 & Hr & _ & _ & _ & Hc2 & Hr3 & Hc3).
  - vm_compute. reflexivity.
  - split; reflexivity.
  - discriminate.
  - intros i g _ Hg. eexists _, g. split; [reflexivity|]. by split.
  - intros i o g Hi [Hw Hm].
    cbn [Game.on_player_output RockPaperScissors.game].
    unfold RockPaperScissors.on_player_output, RockPaperScissors.set_item.
    rewrite Hw.
    change (length (GameManager.players Scenario.two_playing)) with 2%nat in Hi.
    rewrite (proj2 (Nat.ltb_lt _ _) Hi).
    eexists. split; [reflexivity|]. cbn. by rewrite length_insert.
  - intros i o g Hi [Hw Hm].
    cbn [Game.handle_player_output RockPaperScissors.game].
    unfold RockPaperScissors.handle_player_output, RockPaperScissors.set_item.
    rewrite Hm.
    change (length (GameManager.players Scenario.two_playing)) with 2%nat in Hi.
    rewrite (proj2 (Nat.ltb_lt _ _) Hi).
    eexists. split; [reflexivity|]. cbn. by rewrite length_insert.
  - vm_compute. apply perm_swap.
  - repeat constructor; by eexists.
  - vm_compute. constructor.
  - exists outs, m2, m3.
    assert (Houts : outs = [(0%nat, Some (py "Paper"));
                            (1%nat, Some (py "Rock"))]).
    { vm_compute in Hr. by injection Hr as <- _. }
    split; [exact Hr|]. split; [exact Houts|]. split; [exact Hr3|].
    rewrite Hc3, Hc2, Houts. reflexivity.
Defined.

(** C5, as stated: round 0 of the same session when alice's stream ends
    instead of bringing her answer. Both participants are prompted and
    both response tasks complete, bob's with his move and alice's with
    [None]; her connection has been closed meanwhile, so
    [get_player_outputs] raises [PlayerDisconnectedError] at its last
    step instead of returning the two responses, and the round ends
    without a call to [handle_player_output]. *)
Lemma fan_out_stops_at_disconnection_counterexample :
  fst (GameManager.start_tasks 0 0
         (GameManager.players Scenario.two_playing) Scenario.two_playing)
  = Ret [(0%nat, 0%nat, py "Rock, Paper, or Scissors?");
         (1%nat, 1%nat, py "Rock, Paper, or Scissors?")]
  /\ map GameManager.task (Scenario.alice_leaves 0) = [1%nat; 0%nat]
  /\ fst (GameManager.get_player_outputs Scenario.alice_leaves 0
            Scenario.two_playing)
     = Raise PlayerDisconnectedError
  /\ fst (GameManager.play_rounds Scenario.alice_leaves 1 0
            Scenario.two_playing)
     = Raise PlayerDisconnectedError
  /\ GameManager.calls
       (snd (GameManager.play_rounds Scenario.alice_leaves 1 0
               Scenario.two_playing))
     = [GameManager.CSetupGame;
        GameManager.CPrepareRound 0;
        GameManager.CGetPlayerInput 0 0;
        GameManager.CGetPlayerInput 0 1;
        GameManager.COnPlayerOutput 0 1 (Some (py "Rock"));
        GameManager.COnPlayerOutput 0 0 None].
Proof. vm_compute. done. Qed.


(* ===================================================================== *)
(** ** UTF-8 *)
(* ===================================================================== *)

Section Utf8.

Ltac decide_tests :=
  repeat match goal with
  | |- context [N.ltb ?a ?b] =>
    first
      [ replace (N.ltb a b) with true by (symmetry; apply N.ltb_lt; nlia)
      | replace (N.ltb a b) with false by (symmetry; apply N.ltb_ge; nlia) ]
  | |- context [N.leb ?a ?b] =>
    first
      [ replace (N.leb a b) with true by (symmetry; apply N.leb_le; nlia)
      | replace (N.leb a b) with false by (symmetry; apply N.leb_gt; nlia) ]
  end.

Lemma is_scalar_spec c :
  is_scalar c = true <-> c < 0xD800 \/ (0xDFFF < c /\ c <= 0x10FFFF).
Proof.
  unfold is_scalar.
  rewrite orb_true_iff, andb_true_iff, !N.ltb_lt, N.leb_le. done.
Qed.

(** Decoding undoes the encoding of one scalar value. *)
Lemma decode_encode_cp c rest :
  is_scalar c = true ->
  decode (encode_cp c ++ rest) = option_map (cons c) (decode rest).
Proof.
  intros Hc. pose proof Hc as Hs. apply is_scalar_spec in Hs.
  unfold encode_cp.
  destruct (c <? 0x80) eqn:H1.
  { cbn [app decode]. by rewrite H1. }
  apply N.ltb_ge in H1.
  destruct (c <? 0x800) eqn:H2.
  { apply N.ltb_lt in H2. cbn [app decode]. unfold is_cont.
    replace ((0xC0 + c / 64 - 0xC0) * 64 + (0x80 + c mod 64 - 0x80))
      with c by nlia.
    decide_tests. reflexivity. }
  apply N.ltb_ge in H2.
  destruct (c <? 0x10000) eqn:H3.
  { apply N.ltb_lt in H3. cbn [app decode]. unfold is_cont.
    replace ((0xE0 + c / 4096 - 0xE0) * 4096
             + (0x80 + (c / 64) mod 64 - 0x80) * 64
             + (0x80 + c mod 64 - 0x80))
      with c by nlia.
    rewrite Hc. decide_tests. reflexivity. }
  apply N.ltb_ge in H3.
  cbn [app decode]. unfold is_cont.
  replace ((0xF0 + c / 262144 - 0xF0) * 262144
           + (0x80 + (c / 4096) mod 64 - 0x80) * 4096
           + (0x80 + (c / 64) mod 64 - 0x80) * 64
           + (0x80 + c mod 64 - 0x80))
    with c by nlia.
  rewrite Hc. decide_tests. reflexivity.
Qed.

Lemma utf8_app a b : utf8 (a ++ b) = utf8 a ++ utf8 b.
Proof. unfold utf8. apply flat_map_app. Qed.

Lemma utf8_concat l : utf8 (concat l) = concat (map utf8 l).
Proof.
  induction l as [|a l IH]; [done|]. cbn [concat map].
  by rewrite utf8_app, IH.
Qed.

Lemma encode_cp_not_nil c : encode_cp c <> [].
Proof. unfold encode_cp. repeat case_match; done. Qed.

Lemma utf8_not_nil s : s <> [] -> utf8 s <> [].
Proof.
  destruct s as [|c s]; [done|]. intros _. cbn.
  pose proof (encode_cp_not_nil c). by destruct (encode_cp c).
Qed.

(** [bytes.decode()] undoes [str.encode()]. *)
Lemma decode_utf8 s : forallb is_scalar s = true -> decode (utf8 s) = Some s.
Proof.
  induction s as [|c s IH]; [done|].
  cbn [forallb]. intros [Hc Hs]%andb_true_iff.
  cbn [utf8 flat_map]. rewrite decode_encode_cp by done.
  fold (utf8 s). by rewrite IH.
Qed.

Lemma encode_scalar s : forallb is_scalar s = true -> encode s = Some (utf8 s).
Proof. unfold encode. by intros ->. Qed.

(** On ASCII text the encoding changes nothing. *)
Lemma utf8_ascii s : Forall (fun c => c < 0x80) s -> utf8 s = s.
Proof.
  induction 1 as [|c s Hc _ IH]; [done|].
  cbn [utf8 flat_map]. fold (utf8 s). rewrite IH. unfold encode_cp.
  by rewrite (proj2 (N.ltb_lt _ _) Hc).
Qed.

Lemma ascii_is_scalar s :
  Forall (fun c => c < 0x80) s -> forallb is_scalar s = true.
Proof.
  induction 1 as [|c s Hc _ IH]; [done|]. cbn [forallb]. rewrite IH.
  rewrite andb_true_r. apply is_scalar_spec. lia.
Qed.

End Utf8.

(* ===================================================================== *)
(** ** Delimiters *)
(* ===================================================================== *)

Section Delimiters.

Lemma split_once_LF_found l rest :
  LF ∉ l -> split_once [LF] (l ++ LF :: rest) = Some (l, rest).
Proof.
  induction l as [|c l IH]; intros Hl; [reflexivity|].
  apply not_elem_of_cons in Hl as [Hc Hl].
  cbn [app split_once after_prefix].
  destruct (LF =? c) eqn:Heq; [apply N.eqb_eq in Heq; congruence|].
  cbn [app] in IH. by rewrite IH.
Qed.

Lemma split_once_LF_none s : LF ∉ s -> split_once [LF] s = None.
Proof.
  induction s as [|c s IH]; intros Hs; [reflexivity|].
  apply not_elem_of_cons in Hs as [Hc Hs].
  cbn [split_once after_prefix].
  destruct (LF =? c) eqn:Heq; [apply N.eqb_eq in Heq; congruence|].
  by rewrite IH.
Qed.

Lemma split_once_CRLF_none s :
  has_crlf s = false -> split_once [CR; LF] s = None.
Proof.
  induction s as [|a s IH]; intros Hs; [reflexivity|].
  cbn [split_once after_prefix].
  destruct s as [|b s].
  { destruct (CR =? a); reflexivity. }
  cbn [has_crlf] in Hs. apply orb_false_iff in Hs as [Hab Hs].
  rewrite (IH Hs). rewrite (N.eqb_sym CR a).
  destruct (a =? CR) eqn:Ha; [|reflexivity].
  cbn [andb] in Hab. rewrite (N.eqb_sym LF b), Hab. reflexivity.
Qed.

Lemma has_crlf_app_l a b : has_crlf (a ++ b) = false -> has_crlf a = false.
Proof.
  induction a as [|x a IH]; [done|].
  destruct a as [|y a]; [done|].
  cbn [app has_crlf]. intros [Hxy Hr]%orb_false_iff.
  rewrite Hxy. by apply IH.
Qed.

Lemma has_crlf_line l rest :
  LF ∉ l -> last l <> Some CR -> has_crlf rest = false ->
  has_crlf (l ++ LF :: rest) = false.
Proof.
  induction l as [|a l IH]; intros Hl Hlast Hrest.
  { cbn [app has_crlf]. destruct rest; [done|]. by rewrite Hrest. }
  apply not_elem_of_cons in Hl as [Ha Hl].
  destruct l as [|b l].
  - cbn [app has_crlf]. cbn in Hlast.
    destruct (a =? CR) eqn:Hcr; [apply N.eqb_eq in Hcr; congruence|].
    cbn [andb orb]. destruct rest; [done|]. by rewrite Hrest.
  - cbn [app has_crlf]. pose proof Hl as Hl'.
    apply not_elem_of_cons in Hl' as [Hb _].
    destruct (b =? LF) eqn:Hlf; [apply N.eqb_eq in Hlf; congruence|].
    rewrite andb_false_r. cbn [orb]. by apply IH.
Qed.

(** The lines as [writeline] puts them on the wire. *)
Lemma has_crlf_lines lines :
  Forall (fun l => (LF ∉ l) /\ last l <> Some CR) lines ->
  has_crlf (concat (map (fun l => l ++ [LF]) lines)) = false.
Proof.
  induction 1 as [|l lines [Hl Hlast] _ IH]; [done|].
  cbn [map concat]. rewrite <- app_assoc. by apply has_crlf_line.
Qed.

(** Where a text that begins with the line [l] is cut in two. *)
Lemma cut_line (a b l rest : str) :
  a ++ b = l ++ LF :: rest -> LF ∉ l ->
  (exists x, a = l ++ LF :: x /\ x ++ b = rest)
  \/ ((LF ∉ a) /\ exists y, l = a ++ y /\ b = y ++ LF :: rest).
Proof.
  revert l. induction a as [|c a IH]; intros l Hab Hl.
  { right. split; [by intros ?%elem_of_nil|]. by exists l. }
  destruct l as [|d l].
  { left. injection Hab as -> Hab. by exists a. }
  injection Hab as -> Hab.
  apply not_elem_of_cons in Hl as [Hd Hl].
  destruct (IH l Hab Hl) as [(x & -> & Hx)|(Ha & y & -> & Hb)].
  - left. by exists x.
  - right. split; [by apply not_elem_of_cons|]. by exists y.
Qed.

Lemma find_eol_found l x :
  LF ∉ l -> has_crlf (l ++ LF :: x) = false ->
  find_eol (l ++ LF :: x) = Some (l, x).
Proof.
  intros Hl Hc. unfold find_eol.
  rewrite (split_once_CRLF_none _ Hc). by apply split_once_LF_found.
Qed.

Lemma find_eol_none s :
  LF ∉ s -> has_crlf s = false -> find_eol s = None.
Proof.
  intros Hs Hc. unfold find_eol.
  rewrite (split_once_CRLF_none _ Hc). by apply split_once_LF_none.
Qed.

End Delimiters.

(* ===================================================================== *)
(** ** Reading back what was written *)
(* ===================================================================== *)

Section RoundTrip.

Lemma forallb_app_true {A} (f : A -> bool) a b :
  forallb f (a ++ b) = true -> forallb f a = true /\ forallb f b = true.
Proof. rewrite forallb_app. apply andb_true_iff. Qed.

Lemma has_crlf_line_prefix (l x r : str) :
  has_crlf (l ++ LF :: x ++ r) = false -> has_crlf (l ++ LF :: x) = false.
Proof.
  intros Hc. apply (has_crlf_app_l _ r). by rewrite <- app_assoc.
Qed.

(** The loop over the buffer, when the text ahead begins with the line
    [l]: either the line is in the buffer, or the buffer is used up. *)
Lemma drain_buffer_line buffer :
  forall message rest l text,
  message ++ concat buffer ++ rest = l ++ LF :: text ->
  LF ∉ l -> LF ∉ message ->
  has_crlf (l ++ LF :: text) = false ->
  Forall (fun b => b <> []) buffer ->
  (exists buffer',
     drain_buffer message buffer = inl (l, buffer')
     /\ concat buffer' ++ rest = text
     /\ Forall (fun b => b <> []) buffer')
  \/ (drain_buffer message buffer = inr (message ++ concat buffer)
      /\ LF ∉ message ++ concat buffer).
Proof.
  induction buffer as [|b buffer IH]; intros message rest l text Ht Hl Hm Hc Hb.
  { right. cbn. by rewrite app_nil_r. }
  apply Forall_cons in Hb as [_ Hb].
  cbn [drain_buffer concat].
  cbn [concat] in Ht. rewrite <- app_assoc in Ht.
  rewrite (app_assoc message b) in Ht.
  destruct (cut_line _ _ _ _ Ht Hl) as [(x & Hx & Hrest)|(Hno & y & Hy & _)].
  - left. rewrite Hx, (find_eol_found l x Hl).
    2:{ rewrite <- Hrest in Hc. by apply has_crlf_line_prefix in Hc. }
    destruct x as [|c x].
    + exists buffer. by repeat split.
    + exists ((c :: x) :: buffer). repeat split; [|by constructor].
      cbn [concat]. by rewrite <- app_assoc.
  - rewrite (find_eol_none _ Hno).
    2:{ rewrite Hy in Hc. rewrite <- app_assoc in Hc.
        by apply has_crlf_app_l in Hc. }
    destruct (IH (message ++ b) rest l text) as [Hfound|[Hd Hn]]; try done.
    + by left.
    + right. rewrite <- app_assoc in Hd, Hn. done.
Qed.

(** *** What the reads return *)

Lemma cut_go_small fuel n data :
  (length data <= n)%nat -> cut_go fuel n data = [data].
Proof.
  intros Hn. destruct fuel as [|fuel]; [done|].
  cbn [cut_go]. by rewrite (proj2 (Nat.leb_le _ _) Hn).
Qed.

(** The blocks do not depend on the fuel once it covers the data. *)
Lemma cut_go_enough n : (0 < n)%nat ->
  forall k k' data,
  (length data <= k)%nat -> (length data <= k')%nat ->
  cut_go k n data = cut_go k' n data.
Proof.
  intros Hn. induction k as [|k IH]; intros k' data Hk Hk'.
  { rewrite !cut_go_small; [done|lia|lia]. }
  destruct k' as [|k'].
  { rewrite !cut_go_small; [done|lia|lia]. }
  cbn [cut_go]. destruct (length data <=? n)%nat eqn:Hle; [done|].
  apply Nat.leb_gt in Hle. f_equal.
  apply IH; rewrite length_drop; lia.
Qed.

Lemma cut_long n data :
  (0 < n)%nat -> (n < length data)%nat ->
  cut n data = take n data :: cut n (drop n data).
Proof.
  intros Hn Hlt. unfold cut at 1.
  destruct (length data) as [|k] eqn:Hk; [lia|].
  cbn [cut_go]. rewrite Hk, (proj2 (Nat.leb_gt _ _) Hlt). f_equal.
  apply cut_go_enough; rewrite ?length_drop; lia.
Qed.

Lemma cut_small n data : (length data <= n)%nat -> cut n data = [data].
Proof. apply cut_go_small. Qed.

Lemma concat_cut_go n : forall fuel data, concat (cut_go fuel n data) = data.
Proof.
  induction fuel as [|fuel IH]; intros data; cbn [cut_go].
  { cbn. apply app_nil_r. }
  destruct (length data <=? n)%nat; cbn [concat].
  - apply app_nil_r.
  - rewrite IH. apply take_drop.
Qed.

(** The reads return the bytes delivered, in order. *)
Lemma concat_reads n data : concat (reads n data) = concat data.
Proof.
  induction data as [|d data IH]; [done|].
  unfold reads in *. cbn [flat_map concat].
  rewrite concat_app, IH. f_equal. apply concat_cut_go.
Qed.

Lemma cut_go_not_nil fuel n data : cut_go fuel n data <> [].
Proof. destruct fuel; cbn [cut_go]; [done|]. by destruct (_ <=? _)%nat. Qed.

Lemma reads_nil n data : reads n data = [] -> data = [].
Proof.
  destruct data as [|d data]; [done|].
  unfold reads. cbn [flat_map]. intros [Hc _]%app_eq_nil.
  by apply cut_go_not_nil in Hc.
Qed.

(** No read of delivered bytes comes back empty. *)
Lemma cut_go_nonempty n : (0 < n)%nat ->
  forall fuel data, data <> [] -> Forall (fun b => b <> []) (cut_go fuel n data).
Proof.
  intros Hn. induction fuel as [|fuel IH]; intros data Hd; cbn [cut_go].
  { by repeat constructor. }
  destruct (length data <=? n)%nat eqn:Hle; [by repeat constructor|].
  apply Nat.leb_gt in Hle. constructor.
  - intros Ht. apply (f_equal length) in Ht.
    rewrite length_take in Ht. cbn in Ht. lia.
  - apply IH. intros Ht. apply (f_equal length) in Ht.
    rewrite length_drop in Ht. cbn in Ht. lia.
Qed.

Lemma reads_nonempty n data :
  (0 < n)%nat -> Forall (fun d => d <> []) data ->
  Forall (fun b => b <> []) (reads n data).
Proof.
  intros Hn Hd. induction Hd as [|d data Hne _ IH]; [constructor|].
  unfold reads in *. cbn [flat_map]. apply Forall_app. split; [|done].
  by apply cut_go_nonempty.
Qed.

(** One [reader.read(n)] on a stream whose reads are known. *)
Lemma reader_read_reads n data b bs tail :
  (0 < n)%nat ->
  reads n data = b :: bs ->
  exists data',
    reader_read n (map Chunk data ++ tail) = (Ret b, map Chunk data' ++ tail)
    /\ reads n data' = bs.
Proof.
  intros Hn Hr. destruct data as [|d data]; [done|].
  unfold reads in Hr. cbn [flat_map] in Hr.
  cbn [map app reader_read].
  destruct (length d <=? n)%nat eqn:Hle.
  - apply Nat.leb_le in Hle. rewrite (cut_small _ _ Hle) in Hr.
    injection Hr as <- <-. by exists data.
  - apply Nat.leb_gt in Hle. rewrite (cut_long _ _ Hn Hle) in Hr.
    injection Hr as <- <-. by exists (drop n d :: data).
Qed.

Lemma reader_read_reads_all n data b bs :
  (0 < n)%nat ->
  reads n data = b :: bs ->
  exists data',
    reader_read n (map Chunk data) = (Ret b, map Chunk data')
    /\ reads n data' = bs.
Proof.
  intros Hn Hr.
  destruct (reader_read_reads n data b bs [] Hn Hr) as (data' & Hrd & Hbs).
  rewrite !app_nil_r in Hrd. by exists data'.
Qed.

(** Pieces of at most [n] bytes are read as they are. *)
Lemma reads_small n (data : list bytes) :
  Forall (fun d => (length d <= n)%nat) data -> reads n data = data.
Proof.
  intros Hd. induction Hd as [|d data Hle _ IH]; [done|].
  unfold reads in *. cbn [flat_map]. by rewrite (cut_small _ _ Hle), IH.
Qed.

(** *** The lines *)

(** The read loop, when the text ahead begins with the line [l]: [data]
    is what the stream delivers and [pieces] the text the reads return. *)
Lemma read_loop_line pieces :
  forall data message l text fuel,
  reads 100 data = map utf8 pieces ->
  message ++ concat pieces = l ++ LF :: text ->
  LF ∉ l -> LF ∉ message ->
  has_crlf (l ++ LF :: text) = false ->
  forallb is_scalar (l ++ LF :: text) = true ->
  Forall (fun p => p <> []) pieces ->
  (length pieces <= fuel)%nat ->
  exists buffer' data' pieces',
    read_loop fuel (utf8 message) (mkInput (map Chunk data) [])
    = (Ret (Some l), mkInput (map Chunk data') buffer')
    /\ reads 100 data' = map utf8 pieces'
    /\ concat buffer' ++ concat pieces' = text
    /\ Forall (fun b => b <> []) buffer'
    /\ Forall (fun p => p <> []) pieces'
    /\ (length pieces' <= length pieces)%nat.
Proof.
  induction pieces as [|p pieces IH];
    intros data message l text fuel Hrd Ht Hl Hm Hc Hs Hp Hfuel.
  { cbn in Ht. rewrite app_nil_r in Ht. subst message.
    exfalso. apply Hm. apply elem_of_app. right. left. }
  apply Forall_cons in Hp as [Hp Hps].
  destruct fuel as [|fuel]; [cbn in Hfuel; lia|].
  cbn [length] in Hfuel. cbn [map] in Hrd.
  destruct (reader_read_reads_all 100 data _ _ ltac:(lia) Hrd)
    as (data1 & Hread & Hrd1).
  cbn [read_loop reader buffer]. rewrite Hread.
  rewrite <- utf8_app.
  cbn [concat] in Ht. rewrite app_assoc in Ht.
  assert (Hvalid : forallb is_scalar (message ++ p) = true).
  { rewrite <- Ht in Hs. by apply forallb_app_true in Hs as [Hs _]. }
  assert (Hne : utf8 (message ++ p) <> []).
  { apply utf8_not_nil. by destruct message, p. }
  destruct (utf8 (message ++ p)) as [|d0 bs] eqn:Hdata; [done|].
  rewrite <- Hdata, (decode_utf8 _ Hvalid).
  destruct (cut_line _ _ _ _ Ht Hl) as [(x & Hx & Hrest)|(Hno & y & Hy & _)].
  - rewrite Hx, (find_eol_found l x Hl).
    2:{ rewrite <- Hrest in Hc. by apply has_crlf_line_prefix in Hc. }
    destruct x as [|c x].
    + exists [], data1, pieces. repeat split; try done. cbn [length]. lia.
    + exists [c :: x], data1, pieces. repeat split; try done.
      * cbn [concat]. by rewrite app_nil_r.
      * by repeat constructor.
      * cbn [length]. lia.
  - rewrite (find_eol_none _ Hno).
    2:{ rewrite Hy in Hc. rewrite <- app_assoc in Hc.
        by apply has_crlf_app_l in Hc. }
    rewrite Hdata, <- Hdata.
    destruct (IH data1 (message ++ p) l text fuel) as
      (buffer' & data' & pieces' & Hr & Hrd' & Hcat & Hb' & Hp' & Hlen);
      try done; [lia|].
    exists buffer', data', pieces'. repeat split; try done. cbn [length]. lia.
Qed.

(** One [readline] when the text ahead, buffered or still to come, begins
    with the line [l]. *)
Lemma readline_line buffer pieces data l text fuel :
  reads 100 data = map utf8 pieces ->
  concat buffer ++ concat pieces = l ++ LF :: text ->
  LF ∉ l ->
  has_crlf (l ++ LF :: text) = false ->
  forallb is_scalar (l ++ LF :: text) = true ->
  Forall (fun b => b <> []) buffer ->
  Forall (fun p => p <> []) pieces ->
  (length pieces <= fuel)%nat ->
  exists buffer' data' pieces',
    readline fuel (mkInput (map Chunk data) buffer)
    = (Ret (Some l), mkInput (map Chunk data') buffer')
    /\ reads 100 data' = map utf8 pieces'
    /\ concat buffer' ++ concat pieces' = text
    /\ Forall (fun b => b <> []) buffer'
    /\ Forall (fun p => p <> []) pieces'
    /\ (length pieces' <= length pieces)%nat.
Proof.
  intros Hrd Ht Hl Hc Hs Hb Hp Hfuel. unfold readline.
  cbn [StreamsUtil.buffer reader].
  destruct (drain_buffer_line buffer [] (concat pieces) l text)
    as [(buffer' & -> & Hcat & Hb')|[-> Hn]]; try done.
  { by intros ?%elem_of_nil. }
  { exists buffer', data, pieces. by repeat split. }
  cbn [app] in *.
  assert (Hvalid : forallb is_scalar (concat buffer) = true).
  { rewrite <- Ht in Hs. by apply forallb_app_true in Hs as [Hs _]. }
  rewrite (encode_scalar _ Hvalid).
  by apply read_loop_line.
Qed.

(** All the lines, one [readline] each. *)
Lemma read_lines_lines lines :
  forall buffer pieces data fuel,
  reads 100 data = map utf8 pieces ->
  concat buffer ++ concat pieces = concat (map (fun l => l ++ [LF]) lines) ->
  Forall (fun l => (LF ∉ l) /\ last l <> Some CR) lines ->
  forallb is_scalar (concat (map (fun l => l ++ [LF]) lines)) = true ->
  Forall (fun b => b <> []) buffer ->
  Forall (fun p => p <> []) pieces ->
  (length pieces <= fuel)%nat ->
  read_lines fuel (length lines) (mkInput (map Chunk data) buffer)
  = (Ret (map Some lines), mkInput [] []).
Proof.
  induction lines as [|l lines IH];
    intros buffer pieces data fuel Hrd Ht Hl Hs Hb Hp Hfuel.
  { cbn in Ht. apply app_eq_nil in Ht as [Hbn Hpn].
    assert (buffer = []) as ->.
    { destruct buffer as [|b buffer]; [done|].
      apply Forall_cons in Hb as [Hb _]. cbn in Hbn.
      by apply app_eq_nil in Hbn as [-> _]. }
    assert (pieces = []) as ->.
    { destruct pieces as [|p pieces]; [done|].
      apply Forall_cons in Hp as [Hp _]. cbn in Hpn.
      by apply app_eq_nil in Hpn as [-> _]. }
    apply reads_nil in Hrd as ->. reflexivity. }
  pose proof (has_crlf_lines _ Hl) as Hc.
  apply Forall_cons in Hl as [[Hlf Hlast] Hl].
  cbn [map concat] in Ht, Hs, Hc. rewrite <- app_assoc in Ht, Hs, Hc.
  cbn [app] in Ht, Hs, Hc.
  destruct (readline_line buffer pieces data l _ fuel Hrd Ht Hlf Hc Hs Hb Hp
              Hfuel)
    as (buffer' & data' & pieces' & Hr & Hrd' & Hcat & Hb' & Hp' & Hlen).
  cbn [length read_lines]. rewrite (bind_ret _ _ _ _ _ Hr).
  assert (Hs' : forallb is_scalar (concat (map (fun l => l ++ [LF]) lines))
                = true).
  { change (l ++ LF :: ?t) with (l ++ [LF] ++ t) in Hs.
    rewrite app_assoc in Hs. by apply forallb_app_true in Hs as [_ Hs]. }
  rewrite (bind_ret _ _ _ _ _ (IH buffer' pieces' data' fuel Hrd' Hcat Hl Hs'
                                  Hb' Hp' ltac:(lia))).
  reflexivity.
Qed.

(** What [writeline] puts on the wire for a sequence of lines. *)
Lemma write_lines_sent lines :
  forall w,
  wstate w = Healthy ->
  Forall (fun l => (LF ∉ l) /\ forallb is_scalar l = true) lines ->
  write_lines lines w
  = (Ret true,
     mkWriter Healthy
       (sent w ++ utf8 (concat (map (fun l => l ++ [LF]) lines)))).
Proof.
  induction lines as [|l lines IH]; intros w Hw Hl.
  { cbn. rewrite app_nil_r. by destruct w as [[] ?]. }
  apply Forall_cons in Hl as [[Hlf Hs] Hl].
  cbn [write_lines].
  assert (He : endswith l [LF] = false).
  { unfold endswith, startswith. cbn [rev app].
    destruct (rev l) as [|c r] eqn:Hr; [done|].
    cbn [after_prefix].
    destruct (LF =? c) eqn:Hc; [|done].
    apply N.eqb_eq in Hc. subst c. exfalso. apply Hlf.
    apply list_elem_of_In, in_rev. rewrite Hr. by left. }
  assert (Hs' : forallb is_scalar (l ++ [LF]) = true).
  { rewrite forallb_app, Hs. reflexivity. }
  unfold bind at 1.
  assert (Hwl : writeline l w
                = (Ret true, mkWriter Healthy (sent w ++ utf8 (l ++ [LF])))).
  { apply writeline_healthy; [done|]. rewrite He. by apply encode_scalar. }
  rewrite Hwl, (IH (mkWriter Healthy _) eq_refl Hl). cbn [sent map concat].
  by rewrite <- app_assoc, <- utf8_app.
Qed.

(** Writing the lines and reading them back: the stream delivers the
    written bytes as the chunks [data], and [pieces] is the text that the
    successive reads of at most 100 bytes return. *)
Lemma write_then_read_lines (lines pieces : list str) (data : list bytes)
    (fuel : nat) :
  Forall (fun l => (LF ∉ l) /\ last l <> Some CR
                   /\ forallb is_scalar l = true) lines ->
  Forall (fun p => p <> []) pieces ->
  concat pieces = concat (map (fun l => l ++ [LF]) lines) ->
  reads 100 data = map utf8 pieces ->
  (length pieces <= fuel)%nat ->
  write_lines lines (mkWriter Healthy [])
  = (Ret true, mkWriter Healthy (concat data))
  /\ read_lines fuel (length lines) (mkInput (map Chunk data) [])
     = (Ret (map Some lines), mkInput [] []).
Proof.
  intros Hl Hp Hcat Hrd Hfuel. split.
  - rewrite (write_lines_sent lines (mkWriter Healthy []) eq_refl).
    + cbn [sent app].
      by rewrite <- Hcat, utf8_concat, <- Hrd, concat_reads.
    + eapply Forall_impl; [exact Hl|]. by intros l (? & _ & ?).
  - apply (read_lines_lines lines [] pieces); try done.
    + eapply Forall_impl; [exact Hl|]. by intros l (? & ? & _).
    + clear Hcat. induction Hl as [|l lines (_ & _ & Hs) _ IH]; [done|].
      cbn [map concat]. by rewrite !forallb_app, Hs, IH.
Qed.

(** C2, amended: every sequence of lines written with [writeline] is
    returned by [readline], line for line and in order, when no line
    contains a line feed or ends with a carriage return and no read ends
    inside the UTF-8 encoding of a character. The stream delivers the
    written bytes as the chunks [data], of any sizes; [readline] takes at
    most 100 bytes of them at a time, and [pieces] is the text that these
    reads return, non-empty and otherwise any way of cutting the written
    text, a cut just before a line's delimiter included. Reading takes
    one [reader.read] per piece and leaves nothing in the buffer. *)
Theorem readline_returns_written_lines
    (lines pieces : list str) (data : list bytes) (fuel : nat) :
  Forall (fun l => (LF ∉ l) /\ last l <> Some CR
                   /\ forallb is_scalar l = true) lines ->
  Forall (fun p => p <> []) pieces ->
  concat pieces = concat (map (fun l => l ++ [LF]) lines) ->
  reads 100 data = map utf8 pieces ->
  (length pieces <= fuel)%nat ->
  write_lines lines (mkWriter Healthy [])
  = (Ret true, mkWriter Healthy (concat data))
  /\ read_lines fuel (length lines) (mkInput (map Chunk data) [])
     = (Ret (map Some lines), mkInput [] []).
Proof. apply write_then_read_lines. Qed.

(** On ASCII lines every read ends between characters: the chunks are
    any non-empty chunks, cut at arbitrary byte positions. *)
Lemma readline_returns_written_ascii_lines
    (lines : list str) (data : list bytes) (fuel : nat) :
  Forall (fun l => (LF ∉ l) /\ last l <> Some CR
                   /\ Forall (fun c => c < 0x80) l) lines ->
  Forall (fun d => d <> []) data ->
  concat data = concat (map (fun l => l ++ [LF]) lines) ->
  (length (reads 100 data) <= fuel)%nat ->
  write_lines lines (mkWriter Healthy [])
  = (Ret true, mkWriter Healthy (concat data))
  /\ read_lines fuel (length lines) (mkInput (map Chunk data) [])
     = (Ret (map Some lines), mkInput [] []).
Proof.
  intros Hl Hd Hcat Hfuel.
  assert (Hascii : Forall (fun c => c < 0x80) (concat (reads 100 data))).
  { rewrite concat_reads, Hcat. clear Hcat.
    induction Hl as [|l lines (_ & _ & Hs) _ IH]; [constructor|].
    cbn [map concat]. rewrite !Forall_app. repeat split; try done.
    repeat constructor. }
  assert (Hsame : map utf8 (reads 100 data) = reads 100 data).
  { clear Hfuel. induction (reads 100 data) as [|d ds IH]; [done|].
    cbn [concat] in Hascii. apply Forall_app in Hascii as [Hd' Hascii].
    cbn [map]. by rewrite (utf8_ascii _ Hd'), (IH Hascii). }
  apply (write_then_read_lines lines (reads 100 data)); try done.
  - eapply Forall_impl; [exact Hl|].
    intros l (? & ? & ?). repeat split; try done. by apply ascii_is_scalar.
  - apply reads_nonempty; [lia|done].
  - by rewrite concat_reads.
Qed.

End RoundTrip.

(** Two lines, the second of them not ASCII, delivered in one chunk of
    124 bytes: the first read returns a hundred letters of the first
    line, the second read the rest. *)
Lemma readline_returns_written_lines_witness :
  write_lines [replicate 120 97; [233]] (mkWriter Healthy [])
  = (Ret true,
     mkWriter Healthy (replicate 120 97 ++ [10; 195; 169; 10]))
  /\ read_lines 2 2
       (mkInput [Chunk (replicate 120 97 ++ [10; 195; 169; 10])] [])
     = (Ret [Some (replicate 120 97); Some [233]], mkInput [] []).
Proof.
  pose proof (readline_returns_written_lines
                [replicate 120 97; [233]]
                [replicate 100 97; replicate 20 97 ++ [10; 233; 10]]
                [replicate 120 97 ++ [10; 195; 169; 10]] 2) as Hthm.
  cbn [concat app] in Hthm. rewrite app_nil_r in Hthm.
  apply Hthm.
  - repeat constructor; try done.
    + intros [Heq _]%elem_of_replicate. unfold LF in Heq. discriminate Heq.
    + intros Hin; repeat (apply elem_of_cons in Hin as [Hin|Hin]; [done|]);
        by apply elem_of_nil in Hin.
  - by repeat constructor.
  - vm_compute. reflexivity.
  - vm_compute. reflexivity.
  - cbn. lia.
Defined.

(** C2, as stated: the line "a\r" is written as the three bytes 61 0D 0A,
    of which the last two are the delimiter ["\r\n"] to [readline]:
    the line read back is "a". *)
Lemma readline_drops_carriage_return_counterexample :
  write_lines [[97; CR]] (mkWriter Healthy [])
  = (Ret true, mkWriter Healthy [97; CR; LF])
  /\ read_lines 1 1 (mkInput [Chunk [97; CR; LF]] [])
     = (Ret [Some [97]], mkInput [] [])
  /\ (forall fuel,
        fst (read_lines fuel 1 (mkInput [Chunk [97; CR; LF]] []))
        <> Ret [Some [97; CR]]).
Proof.
  repeat split; try reflexivity.
  intros [|fuel]; discriminate.
Qed.

(** A line that contains a line feed comes back as two. *)
Lemma readline_splits_embedded_line_feed :
  write_lines [[97; LF; 98]] (mkWriter Healthy [])
  = (Ret true, mkWriter Healthy [97; LF; 98; LF])
  /\ read_lines 1 2 (mkInput [Chunk [97; LF; 98; LF]] [])
     = (Ret [Some [97]; Some [98]], mkInput [] []).
Proof. by split. Qed.

(** A read that ends inside a character: the line "é" is written as the
    three bytes C3 A9 0A; when the first byte arrives alone, [readline]
    raises [UnicodeDecodeError] at it. *)
Lemma readline_split_character :
  write_lines [[233]] (mkWriter Healthy [])
  = (Ret true, mkWriter Healthy ([195] ++ [169; 10]))
  /\ read_lines 2 1 (mkInput [Chunk [195]; Chunk [169; 10]] [])
     = (Raise UnicodeDecodeError, mkInput [Chunk [169; 10]] []).
Proof. by split. Qed.

(** The same when the line arrives whole and its hundredth byte is the
    first byte of a character: the read takes a hundred bytes. *)
Lemma readline_split_character_at_read_limit :
  write_lines [replicate 99 97 ++ [233]] (mkWriter Healthy [])
  = (Ret true, mkWriter Healthy (replicate 99 97 ++ [195; 169; 10]))
  /\ read_lines 2 1 (mkInput [Chunk (replicate 99 97 ++ [195; 169; 10])] [])
     = (Raise UnicodeDecodeError, mkInput [Chunk [169; 10]] []).
Proof. split; vm_compute; reflexivity. Qed.

(* ===================================================================== *)
(** ** Message prefixes *)
(* ===================================================================== *)

Section Prefixes.

Import Server Client.

Lemma after_prefix_app (p s : str) : after_prefix p (p ++ s) = Some s.
Proof.
  induction p as [|a p IH]; [done|]. cbn [app after_prefix].
  by rewrite N.eqb_refl.
Qed.

Lemma after_prefix_Some (p s rest : str) :
  after_prefix p s = Some rest -> s = p ++ rest.
Proof.
  revert s. induction p as [|a p IH]; intros s Hs.
  { by injection Hs as ->. }
  destruct s as [|b s]; [done|]. cbn [after_prefix] in Hs.
  destruct (a =? b) eqn:Hab; [|done]. apply N.eqb_eq in Hab. subst b.
  cbn [app]. f_equal. by apply IH.
Qed.

Lemma startswith_app (p s : str) : startswith (p ++ s) p = true.
Proof. unfold startswith. by rewrite after_prefix_app. Qed.

(** What [prefix_message] answers always carries one of the two prefixes,
    and an answer of [prefix_message] is left as it is by a second
    call, whatever the flag. *)
Lemma prefix_message_prefixed (message : str) (expected : bool) :
  startswith (prefix_message message expected) (py "Y: ")
  || startswith (prefix_message message expected) (py "N: ") = true.
Proof.
  unfold prefix_message.
  destruct (startswith message (py "Y: ") || startswith message (py "N: "))
    eqn:Hp; [done|].
  destruct expected.
  - by rewrite startswith_app.
  - rewrite (startswith_app (py "N: ")). apply orb_true_r.
Qed.

(** X1. [prefix_message] is idempotent, and the flag of the first call
    wins: prefixing an already prefixed message again, with either flag,
    changes nothing. *)
Theorem prefix_message_idempotent (message : str) (e1 e2 : bool) :
  prefix_message (prefix_message message e1) e2 = prefix_message message e1.
Proof.
  pose proof (prefix_message_prefixed message e1) as Hp.
  unfold prefix_message at 1. by rewrite Hp.
Qed.

(** X2. The client's [parse_server_message] undoes the server's
    [prefix_message]: for a message that does not itself begin with
    ["Y: "] or ["N: "] it gives back the flag and the message. A message
    that does begin with one of them is sent as it is, so the client reads
    the flag off the message's own beginning and drops those three
    characters, whatever flag the server meant. *)
Theorem parse_server_message_prefix_message (message : str) (expected : bool) :
  (startswith message (py "Y: ") = false ->
   startswith message (py "N: ") = false ->
   parse_server_message (Some (prefix_message message expected))
   = (expected, Some message))
  /\ (forall rest, message = py "Y: " ++ rest ->
      parse_server_message (Some (prefix_message message expected))
      = (true, Some rest))
  /\ (forall rest, message = py "N: " ++ rest ->
      parse_server_message (Some (prefix_message message expected))
      = (false, Some rest)).
Proof.
  split; [|split].
  - intros HY HN. unfold prefix_message. rewrite HY, HN. cbn [orb].
    unfold parse_server_message. destruct expected.
    + by rewrite after_prefix_app.
    + change (after_prefix (py "Y: ") (py "N: " ++ message)) with (@None str).
      by rewrite after_prefix_app.
  - intros rest ->. unfold prefix_message. rewrite startswith_app.
    cbn [orb]. unfold parse_server_message. by rewrite after_prefix_app.
  - intros rest ->. unfold prefix_message.
    rewrite (startswith_app (py "N: ")), orb_true_r.
    unfold parse_server_message.
    change (after_prefix (py "Y: ") (py "N: " ++ rest)) with (@None str).
    by rewrite after_prefix_app.
Qed.

End Prefixes.

Lemma parse_server_message_prefix_message_witness :
  Client.parse_server_message
    (Some (Server.prefix_message (py "What is your name?") true))
  = (true, Some (py "What is your name?")).
Proof.
  apply (proj1 (parse_server_message_prefix_message
                  (py "What is your name?") true)); reflexivity.
Defined.

(* ===================================================================== *)
(** ** Rock, paper, scissors *)
(* ===================================================================== *)

Section Rounds.

Import RockPaperScissors.

(** The table of [valid_moves]. *)
Lemma valid_moves_spec (a b : str) :
  valid_moves !! a = Some b
  <-> (a = py "Rock" /\ b = py "Scissors")
      \/ (a = py "Paper" /\ b = py "Rock")
      \/ (a = py "Scissors" /\ b = py "Paper").
Proof.
  unfold valid_moves. rewrite !lookup_insert_Some, lookup_empty. split.
  - intros [[<- <-]|[_ [[<- <-]|[_ [[<- <-]|[_ ?]]]]]]; auto. done.
  - intros [[-> ->]|[[-> ->]|[-> ->]]].
    + by left.
    + right. split; [done|]. by left.
    + right. split; [done|]. right. split; [done|]. by left.
Qed.

Lemma invalid_Some (a : str) :
  invalid (Some a) = false <-> exists b, valid_moves !! a = Some b.
Proof.
  unfold invalid. rewrite negb_false_iff, bool_decide_eq_true.
  reflexivity.
Qed.

(** Of two different valid moves one beats the other, and never both. *)
Lemma valid_moves_decide (a b : str) :
  invalid (Some a) = false -> invalid (Some b) = false -> a <> b ->
  (valid_moves !! a = Some b /\ valid_moves !! b <> Some a)
  \/ (valid_moves !! b = Some a /\ valid_moves !! a <> Some b).
Proof.
  intros [a' Ha]%invalid_Some [b' Hb]%invalid_Some Hab.
  apply valid_moves_spec in Ha, Hb.
  destruct Ha as [[-> ->]|[[-> ->]|[-> ->]]];
    destruct Hb as [[-> ->]|[[-> ->]|[-> ->]]]; try done.
  all: first [ left; split; [by apply valid_moves_spec; auto|];
               intros H%valid_moves_spec; by destruct H as [[? ?]|[[? ?]|[? ?]]]
             | right; split; [by apply valid_moves_spec; auto|];
               intros H%valid_moves_spec; by destruct H as [[? ?]|[[? ?]|[? ?]]] ].
Qed.

(** [get_round_winner] on two moves. *)
Lemma get_round_winner_two (g : State) (m0 m1 : option str) :
  moves g = [m0; m1] ->
  exists w,
    get_round_winner g = Ret w
    /\ (w = 0 <-> exists a b, m0 = Some a /\ m1 = Some b
                              /\ valid_moves !! a = Some b)%Z
    /\ (w = 1 <-> exists a b, m0 = Some a /\ m1 = Some b
                              /\ valid_moves !! b = Some a)%Z
    /\ (w = 0 \/ w = 1 \/ w = -1)%Z.
Proof.
  intros Hm. unfold get_round_winner. rewrite Hm.
  destruct m0 as [a|], m1 as [b|]; cbn [existsb orb].
  2-4: rewrite ?bool_decide_eq_true_2, ?orb_true_r by done; cbn [orb];
       exists (-1)%Z; repeat split; try done; try (by auto);
       intros (? & ? & ? & ? & _); done.
  rewrite !bool_decide_eq_false_2 by done. cbn [orb].
  destruct (invalid (Some a)) eqn:Hia.
  { cbn [orb]. exists (-1)%Z. repeat split; try done; try (by auto).
    - intros (a' & b' & [= <-] & _ & Hb).
      assert (invalid (Some a) = false) by (apply invalid_Some; eauto).
      congruence.
    - intros (a' & b' & [= <-] & [= <-] & Hb).
      apply valid_moves_spec in Hb.
      assert (invalid (Some a) = false).
      { apply invalid_Some.
        destruct Hb as [[-> ->]|[[-> ->]|[-> ->]]]; by eexists. }
      congruence. }
  destruct (invalid (Some b)) eqn:Hib.
  { cbn [orb]. exists (-1)%Z. repeat split; try done; try (by auto).
    - intros (a' & b' & [= <-] & [= <-] & Hb).
      apply valid_moves_spec in Hb.
      assert (invalid (Some b) = false).
      { apply invalid_Some.
        destruct Hb as [[-> ->]|[[-> ->]|[-> ->]]]; by eexists. }
      congruence.
    - intros (a' & b' & _ & [= <-] & Hb).
      assert (invalid (Some b) = false) by (apply invalid_Some; eauto).
      congruence. }
  cbn [orb].
  destruct (decide (a = b)) as [->|Hab].
  { rewrite bool_decide_eq_true_2 by done.
    exists (-1)%Z. repeat split; try done; try (by auto).
    all: intros (a' & b' & [= <-] & [= <-] & Hb%valid_moves_spec).
    all: by destruct Hb as [[-> ?]|[[-> ?]|[-> ?]]]. }
  rewrite (bool_decide_eq_false_2 (a = b)) by done.
  destruct (valid_moves_decide a b Hia Hib Hab) as [[Hw Hl]|[Hw Hl]].
  - rewrite bool_decide_eq_true_2 by done.
    exists 0%Z. repeat split; try done; try (by auto).
    + intros _. by exists a, b.
    + intros (a' & b' & [= <-] & [= <-] & Hb). done.
  - rewrite bool_decide_eq_false_2 by done.
    rewrite bool_decide_eq_true_2 by done.
    exists 1%Z. repeat split; try done; try (by auto).
    + intros (a' & b' & [= <-] & [= <-] & Hb). done.
    + intros _. by exists a, b.
Qed.

(** X3. With two moves in, [get_round_winner] always returns (the
    [RuntimeError] of its last line is never raised): 0 exactly when
    player 0's move beats player 1's in [valid_moves], 1 exactly when
    player 1's beats player 0's, and -1 in every other case (a move is
    missing or not a valid move, or the moves are equal). *)
Theorem get_round_winner_decides (g : State) (m0 m1 : option str) :
  moves g = [m0; m1] ->
  exists w,
    get_round_winner g = Ret w
    /\ (w = 0 <-> exists a b, m0 = Some a /\ m1 = Some b
                              /\ valid_moves !! a = Some b)%Z
    /\ (w = 1 <-> exists a b, m0 = Some a /\ m1 = Some b
                              /\ valid_moves !! b = Some a)%Z
    /\ (w = 0 \/ w = 1 \/ w = -1)%Z.
Proof. apply get_round_winner_two. Qed.

(** X4. The round is fair to the seats: when the two players' moves are
    exchanged the winner is exchanged too, and a draw stays a draw. *)
Theorem get_round_winner_swap (g g' : State) (m0 m1 : option str) :
  moves g = [m0; m1] ->
  moves g' = [m1; m0] ->
  exists w w',
    get_round_winner g = Ret w
    /\ get_round_winner g' = Ret w'
    /\ ((w = -1 /\ w' = -1) \/ (w = 0 /\ w' = 1) \/ (w = 1 /\ w' = 0))%Z.
Proof.
  intros Hg Hg'.
  destruct (get_round_winner_two g m0 m1 Hg) as (w & Hr & H0 & H1 & Hw).
  destruct (get_round_winner_two g' m1 m0 Hg') as (w' & Hr' & H0' & H1' & Hw').
  exists w, w'. split; [done|]. split; [done|].
  assert (Hx : (w = 0 <-> w' = 1)%Z).
  { rewrite H0, H1'. split; intros (a & b & ? & ? & ?); by exists b, a. }
  assert (Hy : (w = 1 <-> w' = 0)%Z).
  { rewrite H1, H0'. split; intros (a & b & ? & ? & ?); by exists b, a. }
  lia.
Qed.

(** [get_round_winner] reads the moves only. *)
Lemma get_round_winner_moves (g g' : State) :
  moves g' = moves g -> get_round_winner g' = get_round_winner g.
Proof. unfold get_round_winner. by intros ->. Qed.

(** [update_game] on two moves and two scores. *)
Lemma update_game_two (round : Z) (g : State) (m0 m1 : option str)
    (s0 s1 : Z) :
  moves g = [m0; m1] ->
  scores g = [s0; s1] ->
  exists r g' w,
    update_game round g = (r, g')
    /\ get_round_winner g = Ret w
    /\ moves g' = [m0; m1]
    /\ revealed g' = true
    /\ winning_score g' = winning_score g
    /\ scores g'
       = (if invalid m0 || invalid m1 then [s0; s1]
          else if (w =? 0)%Z then [(s0 + 1)%Z; s1]
          else if (w =? 1)%Z then [s0; (s1 + 1)%Z]
          else [s0; s1])
    /\ r = (if invalid m0 || invalid m1 then Raise GameOverError
            else if existsb (fun s => (winning_score g <=? s)%Z) (scores g')
            then Raise GameOverError
            else Ret tt).
Proof.
  intros Hm Hs.
  destruct (get_round_winner_two g m0 m1 Hm) as (w & Hr & _ & _ & Hw).
  unfold update_game. cbn [moves with_round]. rewrite Hm.
  destruct (invalid m0 || invalid m1) eqn:Hinv.
  { exists (Raise GameOverError), (with_round (waiting g) [m0; m1] true g), w.
    by repeat split. }
  rewrite (get_round_winner_moves g) by done. rewrite Hr.
  cbn [scores with_round]. rewrite Hs.
  assert (Hover : forall a b : Z,
            existsb (fun s => (winning_score g <=? s)%Z) [a; b]
            = (winning_score g <=? a)%Z || (winning_score g <=? b)%Z).
  { intros a b. cbn [existsb]. by rewrite orb_false_r. }
  destruct Hw as [->|[->| ->]].
  - assert (Hi : item [s0; s1] (Z.to_nat 0) = Ret s0) by reflexivity.
    rewrite Hi.
    assert (Hset : set_item [s0; s1] (Z.to_nat 0) (s0 + 1)%Z
                   = Ret [(s0 + 1)%Z; s1]) by reflexivity.
    cbn [Z.eqb]. rewrite Hset. unfold get_game_winner.
    cbn [scores with_scores winning_score with_round].
    exists (if (winning_score g <=? s0 + 1)%Z || (winning_score g <=? s1)%Z
            then Raise GameOverError else Ret tt),
      (with_scores [(s0 + 1)%Z; s1] (with_round (waiting g) [m0; m1] true g)),
      0%Z.
    cbn [scores with_scores winning_score with_round moves revealed Z.eqb].
    rewrite Hover.
    destruct (winning_score g <=? s0 + 1)%Z;
      [|destruct (winning_score g <=? s1)%Z]; by repeat split.
  - assert (Hi : item [s0; s1] (Z.to_nat 1) = Ret s1) by reflexivity.
    rewrite Hi.
    assert (Hset : set_item [s0; s1] (Z.to_nat 1) (s1 + 1)%Z
                   = Ret [s0; (s1 + 1)%Z]) by reflexivity.
    cbn [Z.eqb]. rewrite Hset. unfold get_game_winner.
    cbn [scores with_scores winning_score with_round].
    exists (if (winning_score g <=? s0)%Z || (winning_score g <=? s1 + 1)%Z
            then Raise GameOverError else Ret tt),
      (with_scores [s0; (s1 + 1)%Z] (with_round (waiting g) [m0; m1] true g)),
      1%Z.
    cbn [scores with_scores winning_score with_round moves revealed Z.eqb].
    rewrite Hover.
    destruct (winning_score g <=? s0)%Z;
      [|destruct (winning_score g <=? s1 + 1)%Z]; by repeat split.
  - cbn [Z.eqb Pos.eqb]. unfold get_game_winner.
    cbn [scores with_scores winning_score with_round].
    exists (if (winning_score g <=? s0)%Z || (winning_score g <=? s1)%Z
            then Raise GameOverError else Ret tt),
      (with_scores [s0; s1] (with_round (waiting g) [m0; m1] true g)),
      (-1)%Z.
    cbn [scores with_scores winning_score with_round moves revealed Z.eqb].
    rewrite Hover.
    destruct (winning_score g <=? s0)%Z;
      [|destruct (winning_score g <=? s1)%Z]; by repeat split.
Qed.

(** X5. [update_game] on two moves and two scores never fails otherwise
    than by [GameOverError]: it reveals the moves, gives the round's
    winner one point and nobody else any, and raises [GameOverError]
    exactly when a move is not valid (then no point is given) or a score
    has reached [winning_score]; otherwise it returns. *)
Theorem update_game_scores (round : Z) (g : State) (m0 m1 : option str)
    (s0 s1 : Z) :
  moves g = [m0; m1] ->
  scores g = [s0; s1] ->
  exists r g' w,
    update_game round g = (r, g')
    /\ get_round_winner g = Ret w
    /\ moves g' = [m0; m1]
    /\ revealed g' = true
    /\ winning_score g' = winning_score g
    /\ scores g'
       = (if invalid m0 || invalid m1 then [s0; s1]
          else if (w =? 0)%Z then [(s0 + 1)%Z; s1]
          else if (w =? 1)%Z then [s0; (s1 + 1)%Z]
          else [s0; s1])
    /\ (r = Ret tt \/ r = Raise GameOverError)
    /\ (r = Ret tt
        <-> invalid m0 = false /\ invalid m1 = false
            /\ Forall (fun s => (s < winning_score g)%Z) (scores g')).
Proof.
  intros Hm Hs.
  destruct (update_game_two round g m0 m1 s0 s1 Hm Hs)
    as (r & g' & w & Hu & Hw & Hm' & Hr' & Hws & Hsc & Hr).
  exists r, g', w.
  do 6 (split; [done|]). split; [|split].
  - rewrite Hr. destruct (invalid m0 || invalid m1); [by right|].
    destruct (existsb _ _); [by right|by left].
  - intros Hret. rewrite Hret in Hr.
    destruct (invalid m0 || invalid m1) eqn:Hinv; [done|].
    apply orb_false_iff in Hinv as [H0 H1]. do 2 (split; [done|]).
    destruct (existsb _ _) eqn:Hex; [done|].
    apply Forall_forall. intros s Hin.
    destruct (Z.ltb_spec s (winning_score g)) as [|Hge]; [lia|].
    exfalso. apply not_true_iff_false in Hex. apply Hex.
    apply existsb_exists. exists s. split; [by apply list_elem_of_In|].
    by apply Z.leb_le.
  - intros (H0 & H1 & Hall). rewrite Hr, H0, H1. cbn [orb].
    destruct (existsb _ _) eqn:Hex; [|done].
    apply existsb_exists in Hex as (s & Hin%list_elem_of_In & Hle%Z.leb_le).
    apply (proj1 (Forall_forall _ _) Hall) in Hin. lia.
Qed.

End Rounds.

Lemma get_round_winner_decides_witness :
  RockPaperScissors.get_round_winner
    (RockPaperScissors.mkState 2 [] [0%Z; 0%Z] 3 [false; false]
       [Some (py "Paper"); Some (py "Rock")] false)
  = Ret 0%Z.
Proof.
  destruct (get_round_winner_decides
              (RockPaperScissors.mkState 2 [] [0%Z; 0%Z] 3 [false; false]
                 [Some (py "Paper"); Some (py "Rock")] false)
              (Some (py "Paper")) (Some (py "Rock")) eq_refl)
    as (w & Hr & H0 & _).
  rewrite Hr. f_equal. apply H0. by exists (py "Paper"), (py "Rock").
Defined.

Lemma get_round_winner_swap_witness :
  exists w w',
    RockPaperScissors.get_round_winner
      (RockPaperScissors.mkState 2 [] [0%Z; 0%Z] 3 [false; false]
         [Some (py "Paper"); Some (py "Rock")] false) = Ret w
    /\ RockPaperScissors.get_round_winner
         (RockPaperScissors.mkState 2 [] [1%Z; 2%Z] 3 [false; false]
            [Some (py "Rock"); Some (py "Paper")] true) = Ret w'
    /\ ((w = -1 /\ w' = -1) \/ (w = 0 /\ w' = 1) \/ (w = 1 /\ w' = 0))%Z.
Proof.
  apply (get_round_winner_swap _ _ (Some (py "Paper")) (Some (py "Rock")));
    reflexivity.
Defined.

(** Two points each, paper against rock: the third point ends the game. *)
Lemma update_game_scores_witness :
  exists r g' w,
    RockPaperScissors.update_game 4
      (RockPaperScissors.mkState 2 [] [2%Z; 2%Z] 3 [false; false]
         [Some (py "Paper"); Some (py "Rock")] false) = (r, g')
    /\ RockPaperScissors.get_round_winner
         (RockPaperScissors.mkState 2 [] [2%Z; 2%Z] 3 [false; false]
            [Some (py "Paper"); Some (py "Rock")] false) = Ret w
    /\ RockPaperScissors.moves g' = [Some (py "Paper"); Some (py "Rock")]
    /\ RockPaperScissors.revealed g' = true
    /\ RockPaperScissors.winning_score g' = 3%Z
    /\ RockPaperScissors.scores g'
       = (if (w =? 0)%Z then [3%Z; 2%Z]
          else if (w =? 1)%Z then [2%Z; 3%Z] else [2%Z; 2%Z])
    /\ (r = Ret tt \/ r = Raise GameOverError)
    /\ (r = Ret tt
        <-> RockPaperScissors.invalid (Some (py "Paper")) = false
            /\ RockPaperScissors.invalid (Some (py "Rock")) = false
            /\ Forall (fun s => (s < 3)%Z) (RockPaperScissors.scores g')).
Proof.
  apply (update_game_scores 4
           (RockPaperScissors.mkState 2 [] [2%Z; 2%Z] 3 [false; false]
              [Some (py "Paper"); Some (py "Rock")] false)
           (Some (py "Paper")) (Some (py "Rock")) 2 2); reflexivity.
Defined.

(* ===================================================================== *)
(** ** The registry under reads, writes and closings *)
(* ===================================================================== *)

Section RegistryFrame.

Import Server Registry.

Variable c : nat.

Lemma only_closes_refl s : only_closes c s s.
Proof.
  repeat split; auto.
  - by exists 0%nat.
  - exists 0%nat. by rewrite app_nil_r.
Qed.

Lemma only_closes_trans s1 s2 s3 :
  only_closes c s1 s2 -> only_closes c s2 s3 -> only_closes c s1 s3.
Proof.
  intros (Hn1 & Ht1 & Ha1 & Ho1 & Hm1 & Hs1 & [k1 Hc1] & Hq1 & Hp1 & [d1 Hd1])
         (Hn2 & Ht2 & Ha2 & Ho2 & Hm2 & Hs2 & [k2 Hc2] & Hq2 & Hp2 & [d2 Hd2]).
  rewrite Hn1, Ha1 in *.
  split; [congruence|]. split; [congruence|]. split; [congruence|].
  split; [intros c' Hc'; by rewrite Ho2, Ho1|].
  split.
  { destruct Hm2 as [->| ->]; [done|].
    right. destruct Hm1 as [->| ->]; [done|]. apply delete_delete_eq. }
  split.
  { destruct Hs2 as [->|[Hne ->]]; [done|].
    right. split; [done|].
    destruct Hs1 as [->|[_ ->]]; [done|]. apply insert_insert_eq. }
  split.
  { exists (k2 + k1)%nat. by rewrite Hc2, Hc1, Nat.iter_add. }
  split; [congruence|]. split; [congruence|].
  exists (d1 + d2)%nat. by rewrite Hd2, Hd1, replicate_add, app_assoc.
Qed.

Lemma only_closes_update_conn (f : Connection -> Connection) s :
  (forall k, name (f k) = name k) ->
  (forall k, type (f k) = type k) ->
  (forall k, attributes (f k) = attributes k) ->
  only_closes c s (update_conn c f s).
Proof.
  intros Hn Ht Ha. unfold only_closes. rewrite conn_update_conn, Hn, Ht, Ha.
  repeat split; auto.
  - intros c' Hc'. unfold update_conn. cbn. by rewrite lookup_insert_ne.
  - by exists 0%nat.
  - exists 0%nat. by rewrite app_nil_r.
Qed.

Lemma keeps_conn_writeline message :
  keeps (only_closes c) (conn_writeline c message).
Proof.
  intros s r s'. unfold conn_writeline.
  destruct (writeline message (writer (conn c s))) as [r' w].
  intros [= _ <-]. by apply only_closes_update_conn.
Qed.

Lemma keeps_conn_readline fuel :
  keeps (only_closes c) (conn_readline fuel c).
Proof.
  intros s r s'. unfold conn_readline.
  destruct (readline fuel (input (conn c s))) as [r' i].
  intros [= _ <-]. by apply only_closes_update_conn.
Qed.

Lemma list_remove_absent (x : nat) (l : list nat) :
  x ∉ l -> list_remove x l = l.
Proof.
  induction l as [|y l IH]; [done|].
  intros [Hy Hl]%not_elem_of_cons. cbn [list_remove].
  case_decide; [congruence|]. by rewrite IH.
Qed.

(** What [close_tail] does to the registry. *)
Lemma close_tail_effect s :
  exists s',
    close_tail c s = (Ret tt, s')
    /\ name (conn c s') = name (conn c s)
    /\ type (conn c s') = type (conn c s)
    /\ attributes (conn c s') = attributes (conn c s)
    /\ (forall c', c' <> c -> objects s' !! c' = objects s !! c')
    /\ names s' = delete (name (conn c s)) (names s)
    /\ old_attributes s'
       = (if decide (attributes (conn c s) = ∅) then old_attributes s
          else <[name (conn c s) := attributes (conn c s)]> (old_attributes s))
    /\ connections s' = list_remove c (connections s)
    /\ connection_queue s' = connection_queue s
    /\ ping_tasks s' = ping_tasks s
    /\ disconnection_queue s' = disconnection_queue s ++ [c]
    /\ close_calls s' = close_calls s
    /\ is_closed (conn c s') = true.
Proof.
  unfold close_tail, bind, modify. cbv beta iota zeta.
  eexists; split; [reflexivity|].
  destruct (bool_decide (c ∈ connections s)) eqn:Hin;
    [apply bool_decide_eq_true in Hin|apply bool_decide_eq_false in Hin].
  all: autorewrite with registry.
  all: destruct (bool_decide (is_Some (names _ !! name (conn c s)))) eqn:Hnm;
    [apply bool_decide_eq_true in Hnm|apply bool_decide_eq_false in Hnm].
  all: autorewrite with registry; rewrite ?conn_update_conn;
    autorewrite with registry; rewrite ?conn_update_conn.
  all: cbn [attributes name type with_writer].
  all: destruct (decide (attributes (conn c s) = ∅)) as [He|He];
    [rewrite (bool_decide_eq_true_2 _ He)|rewrite (bool_decide_eq_false_2 _ He)].
  all: autorewrite with registry; rewrite ?conn_update_conn.
  all: cbn; repeat split; try reflexivity.
  all: try (intros c' Hc'; by rewrite lookup_insert_ne).
  all: try (symmetry; apply delete_id; cbn in Hnm;
            by apply eq_None_not_Some).
  all: try (symmetry; by apply list_remove_absent).
Qed.

Lemma keeps_close_tail : keeps (only_closes c) (close_tail c).
Proof.
  intros s r s' Hr.
  destruct (close_tail_effect s)
    as (s1 & Hr1 & Hn & Ht & Ha & Ho & Hm & Hs & Hc & Hq & Hp & Hd & _).
  rewrite Hr1 in Hr. injection Hr as _ <-.
  repeat split; auto.
  - destruct (decide (attributes (conn c s) = ∅)); [by left|by right].
  - by exists 1%nat.
  - by exists 1%nat.
Qed.

Lemma only_closes_close_calls s l :
  only_closes c s (with_close_calls l s).
Proof.
  repeat split; auto.
  - by exists 0%nat.
  - exists 0%nat. cbn. by rewrite app_nil_r.
Qed.

Lemma keeps_send_message_with (close : nat -> M State unit) message :
  keeps (only_closes c) (close c) ->
  keeps (only_closes c) (send_message_with close c message).
Proof.
  intros Hclose. unfold send_message_with.
  apply keeps_bind; [apply only_closes_trans|apply keeps_gets, only_closes_refl|].
  intros k.
  apply keeps_bind; [apply only_closes_trans|apply keeps_conn_writeline|].
  intros [|]; [apply keeps_ret, only_closes_refl|done].
Qed.

Lemma keeps_close_connection fuel :
  keeps (only_closes c) (close_connection fuel c).
Proof.
  induction fuel as [|fuel IH]; [apply keeps_diverge, only_closes_refl|].
  rewrite close_connection_unfold.
  apply keeps_bind; [apply only_closes_trans| |].
  { apply keeps_modify. intros s. apply only_closes_close_calls. }
  intros _.
  apply keeps_bind; [apply only_closes_trans|apply keeps_gets, only_closes_refl|].
  intros closed.
  apply keeps_bind; [apply only_closes_trans| |intros _; apply keeps_close_tail].
  destruct closed; [apply keeps_ret, only_closes_refl|].
  by apply keeps_send_message_with.
Qed.

Lemma keeps_send_message fuel message :
  keeps (only_closes c) (send_message fuel c message).
Proof. apply keeps_send_message_with, keeps_close_connection. Qed.

Lemma keeps_read_message fuel :
  keeps (only_closes c) (read_message fuel c).
Proof.
  unfold read_message.
  apply keeps_bind; [apply only_closes_trans|apply keeps_conn_readline|].
  intros [r|].
  - case_bool_decide; [|apply keeps_ret, only_closes_refl].
    apply keeps_bind; [apply only_closes_trans|apply keeps_close_connection|].
    intros _. apply keeps_ret, only_closes_refl.
  - apply keeps_bind; [apply only_closes_trans|apply keeps_close_connection|].
    intros _. apply keeps_ret, only_closes_refl.
Qed.

Lemma keeps_get_response fuel prompt :
  keeps (only_closes c) (get_response fuel c prompt).
Proof.
  unfold get_response.
  apply keeps_bind; [apply only_closes_trans|apply keeps_gets, only_closes_refl|].
  intros k.
  apply keeps_bind; [apply only_closes_trans|apply keeps_send_message|].
  intros _. apply keeps_read_message.
Qed.

Lemma keeps_read_request fuel :
  keeps (only_closes c) (read_request fuel c).
Proof.
  induction fuel as [|fuel IH]; [apply keeps_diverge, only_closes_refl|].
  cbn [read_request].
  apply keeps_bind; [apply only_closes_trans|apply keeps_read_message|].
  intros [[|x l]|]; try apply keeps_ret, only_closes_refl. apply IH.
Qed.

Lemma keeps_handle_browser_connection fuel :
  keeps (only_closes c) (handle_browser_connection fuel c).
Proof.
  unfold handle_browser_connection.
  apply keeps_bind; [apply only_closes_trans|apply keeps_read_request|].
  intros _.
  apply keeps_bind; [apply only_closes_trans|apply keeps_send_message|].
  intros _. apply keeps_modify. intros s. by apply only_closes_update_conn.
Qed.

End RegistryFrame.

(* ===================================================================== *)
(** ** Closing, reading and registering *)
(* ===================================================================== *)

Section RegistryClaims.

Import Server Registry.

Lemma iter_list_remove (c : nat) (l : list nat) (k : nat) :
  NoDup l ->
  list_remove c (Nat.iter k (list_remove c) l) = list_remove c l.
Proof.
  intros Hnd. induction k as [|k IH]; [done|].
  rewrite Nat.iter_succ, IH. apply list_remove_absent.
  by apply list_remove_not_elem_of.
Qed.

(** A returning [close_connection] ends with [close_tail], and what came
    before only wrote to the connection or closed it. *)
Lemma close_connection_last fuel c s s' :
  close_connection fuel c s = (Ret tt, s') ->
  exists s1, only_closes c s s1 /\ close_tail c s1 = (Ret tt, s').
Proof.
  destruct fuel as [|fuel]; [done|].
  rewrite close_connection_unfold. intros Hr.
  apply bind_ret_inv in Hr as ([] & s0 & H0 & Hr).
  apply bind_ret_inv in Hr as (closed & s0' & Hg & Hr).
  apply bind_ret_inv in Hr as ([] & s1 & H1 & Hr).
  exists s1. split; [|done].
  injection H0 as <-. injection Hg as <- <-.
  eapply only_closes_trans; [apply only_closes_close_calls|].
  destruct (is_closed _).
  - injection H1 as <-. apply only_closes_refl.
  - eapply keeps_send_message_with; [apply keeps_close_connection|exact H1].
Qed.

(** The registry after [close_connection]. *)
Lemma close_connection_registry (fuel c : nat) (s : State) :
  (2 <= fuel)%nat ->
  exists s',
    close_connection fuel c s = (Ret tt, s')
    /\ names s' = delete (name (conn c s)) (names s)
    /\ old_attributes s'
       = (if decide (attributes (conn c s) = ∅) then old_attributes s
          else <[name (conn c s) := attributes (conn c s)]> (old_attributes s))
    /\ (NoDup (connections s) ->
        connections s' = list_remove c (connections s)
        /\ c ∉ connections s')
    /\ is_closed (conn c s') = true
    /\ name (conn c s') = name (conn c s)
    /\ attributes (conn c s') = attributes (conn c s)
    /\ (forall c', c' <> c -> objects s' !! c' = objects s !! c')
    /\ connection_queue s' = connection_queue s.
Proof.
  intros Hfuel.
  destruct (close_connection_spec fuel c s Hfuel) as (s' & extra & Hr & _).
  exists s'. split; [done|].
  destruct (close_connection_last _ _ _ _ Hr) as (s1 & Hfr & Ht).
  destruct Hfr as (Hn1 & Ht1 & Ha1 & Ho1 & Hm1 & Hs1 & [k Hc1] & Hq1 & Hp1 & _).
  destruct (close_tail_effect c s1)
    as (s2 & Ht2 & Hn & Hty & Ha & Ho & Hm & Hs & Hc & Hq & Hp & Hd & Hl & Hcl).
  rewrite Ht in Ht2. injection Ht2 as <-.
  rewrite Hn1, Ha1 in *.
  split.
  { rewrite Hm. destruct Hm1 as [->| ->]; [done|apply delete_delete_eq]. }
  split.
  { rewrite Hs. destruct (decide (attributes (conn c s) = ∅)) as [He|He].
    - by destruct Hs1 as [->|[? _]].
    - destruct Hs1 as [->|[_ ->]]; [done|apply insert_insert_eq]. }
  split.
  { intros Hnd. rewrite Hc, Hc1, iter_list_remove by done.
    split; [done|]. by apply list_remove_not_elem_of. }
  split; [done|]. split; [congruence|]. split; [congruence|].
  split; [|congruence].
  intros c' Hc'. by rewrite Ho, Ho1.
Qed.

(** X6. [close_connection] returns and leaves the registry without the
    connection: its name is free again whoever held it, its attributes,
    unless empty, are saved under its name, it is gone from the live list
    (the list holding no connection twice), its transport is closing, and
    no other connection has changed. *)
Theorem close_connection_releases (fuel c : nat) (s : State) :
  (2 <= fuel)%nat ->
  exists s',
    close_connection fuel c s = (Ret tt, s')
    /\ names s' = delete (name (conn c s)) (names s)
    /\ old_attributes s'
       = (if decide (attributes (conn c s) = ∅) then old_attributes s
          else <[name (conn c s) := attributes (conn c s)]> (old_attributes s))
    /\ (NoDup (connections s) ->
        connections s' = list_remove c (connections s)
        /\ c ∉ connections s')
    /\ is_closed (conn c s') = true
    /\ name (conn c s') = name (conn c s)
    /\ attributes (conn c s') = attributes (conn c s)
    /\ (forall c', c' <> c -> objects s' !! c' = objects s !! c')
    /\ connection_queue s' = connection_queue s.
Proof. apply close_connection_registry. Qed.

(** X7. [read_message] never hands out the line ["quit"]. Given enough
    fuel for the closing, whenever the underlying [readline] returns,
    [read_message] returns too: a line other than ["quit"] is passed on
    and nothing else happens; on end of input or on ["quit"] it answers
    [None] after closing the connection, which is then in the disconnect
    queue. *)
Theorem read_message_closes_on_quit
    (fuel c : nat) (s s1 : State) (x : option str) :
  (2 <= fuel)%nat ->
  conn_readline fuel c s = (Ret x, s1) ->
  exists r s',
    read_message fuel c s = (Ret r, s')
    /\ r <> Some (py "quit")
    /\ ((x <> None /\ x <> Some (py "quit") /\ r = x /\ s' = s1
         /\ disconnection_queue s' = disconnection_queue s
         /\ close_calls s' = close_calls s)
        \/ ((x = None \/ x = Some (py "quit")) /\ r = None
            /\ is_closed (conn c s') = true
            /\ exists extra,
                 disconnection_queue s'
                 = disconnection_queue s ++ c :: extra)).
Proof.
  intros Hfuel Hx.
  assert (Hq : disconnection_queue s1 = disconnection_queue s
               /\ close_calls s1 = close_calls s).
  { unfold conn_readline in Hx.
    destruct (readline fuel (input (conn c s))) as [r' i].
    by injection Hx as _ <-. }
  destruct Hq as [Hd1 Hl1].
  unfold read_message. rewrite (bind_ret _ _ _ _ _ Hx).
  destruct (close_connection_spec fuel c s1 Hfuel)
    as (s' & extra & Hr & Hd & _ & _ & _ & Hcl).
  destruct x as [line|].
  - case_bool_decide as Hquit.
    + exists None, s'. rewrite (bind_ret _ _ _ _ _ Hr).
      split; [done|]. split; [done|]. right.
      split; [right; by subst|]. split; [done|]. split; [done|].
      exists extra. by rewrite Hd, Hd1.
    + exists (Some line), s1. split; [done|]. split; [congruence|]. left.
      repeat split; try done. congruence.
  - exists None, s'. rewrite (bind_ret _ _ _ _ _ Hr).
    split; [done|]. split; [done|]. right.
    split; [by left|]. split; [done|]. split; [done|].
    exists extra. by rewrite Hd, Hd1.
Qed.

(** X8. Reading from a connection, writing to it, prompting it, closing
    it, pinging it and serving it as a browser never register anything
    and never touch another connection: whatever their outcome, they leave
    the connect queue and the keepalive tasks as they were, every other
    connection's object unchanged, and can only take the connection itself
    out of the live list and its own name out of the name index. *)
Theorem connection_operations_only_close (fuel c : nat) :
  keeps (only_closes c) (close_connection fuel c)
  /\ (forall message, keeps (only_closes c) (send_message fuel c message))
  /\ keeps (only_closes c) (read_message fuel c)
  /\ (forall prompt, keeps (only_closes c) (get_response fuel c prompt))
  /\ keeps (only_closes c) (ping_connection_step fuel c)
  /\ keeps (only_closes c) (handle_browser_connection fuel c).
Proof.
  split; [apply keeps_close_connection|].
  split; [intros; apply keeps_send_message|].
  split; [apply keeps_read_message|].
  split; [intros; apply keeps_get_response|].
  split; [|apply keeps_handle_browser_connection].
  unfold ping_connection_step.
  apply keeps_bind; [apply only_closes_trans|apply keeps_gets, only_closes_refl|].
  intros [|]; [apply keeps_ret, only_closes_refl|].
  apply keeps_bind; [apply only_closes_trans|apply keeps_conn_writeline|].
  intros [|]; [apply keeps_ret, only_closes_refl|].
  apply keeps_bind; [apply only_closes_trans|apply keeps_close_connection|].
  intros _. apply keeps_ret, only_closes_refl.
Qed.

(** What [register] does. *)
Lemma register_effect (c : nat) (n : str) (s : State) :
  exists s',
    register c n s = (Ret tt, s')
    /\ name (conn c s') = n
    /\ attributes (conn c s')
       = default (attributes (conn c s)) (old_attributes s !! n)
    /\ writer (conn c s') = writer (conn c s)
    /\ names s' = <[n := c]> (names s)
    /\ connections s' = connections s ++ [c]
    /\ connection_queue s' = connection_queue s ++ [c]
    /\ ping_tasks s' = ping_tasks s ++ [c]
    /\ disconnection_queue s' = disconnection_queue s
    /\ old_attributes s' = old_attributes s
    /\ (forall c', c' <> c -> objects s' !! c' = objects s !! c').
Proof.
  unfold register, bind, modify. cbv beta iota zeta.
  eexists; split; [reflexivity|].
  change (old_attributes (update_conn c (with_name n) s))
    with (old_attributes s).
  destruct (old_attributes s !! n) as [a|] eqn:Ha.
  all: autorewrite with registry; rewrite ?conn_update_conn.
  all: cbn; repeat split; try reflexivity.
  all: intros c' Hc'; by rewrite ?lookup_insert_ne.
Qed.

(** The names the checks let through. *)
Lemma name_problem_None (n : str) (s : State) :
  name_problem n s = None ->
  (2 <= length n <= 10)%nat /\ names s !! n = None.
Proof.
  intros Hn.
  assert (Hnot : ~ exists sorry, name_problem n s = Some sorry)
    by (intros [? ?]; congruence).
  rewrite name_problem_rejects in Hnot.
  split; [lia|]. apply eq_None_not_Some. tauto.
Qed.

(** X9. When the peer's answer passes the checks the handshake registers
    the connection under the normalized name: that name was free, is
    2 to 10 characters long and holds letters, digits and underscores
    only; the connection gets the attributes saved under the name, if
    any, and otherwise keeps its own; and it joins the live list, the name
    index, the connect queue and the keepalive tasks, each at the end. *)
Theorem handshake_registers
    (fuel c : nat) (s s1 : State) (raw : str) :
  get_response fuel c (py "What is your name?") s = (Ret (Some raw), s1) ->
  name_problem (normalize_name raw) s1 = None ->
  let n := normalize_name raw in
  exists s',
    handle_hello_connection (S fuel) c s = (Ret tt, s')
    /\ (2 <= length n <= 10)%nat
    /\ Forall (fun x => is_alnum x = true \/ x = underscore) n
    /\ names s1 !! n = None
    /\ name (conn c s') = n
    /\ names s' = <[n := c]> (names s1)
    /\ attributes (conn c s')
       = default (attributes (conn c s1)) (old_attributes s1 !! n)
    /\ connections s' = connections s1 ++ [c]
    /\ connection_queue s' = connection_queue s1 ++ [c]
    /\ ping_tasks s' = ping_tasks s1 ++ [c]
    /\ (forall c', c' <> c -> objects s' !! c' = objects s1 !! c').
Proof.
  intros Hr Hok n.
  rewrite (handle_hello_connection_round _ _ _ _ _ Hr). rewrite Hok.
  destruct (register_effect c n s1)
    as (s' & Hreg & Hn & Ha & _ & Hm & Hc & Hq & Hp & _ & _ & Ho).
  destruct (name_problem_None n s1 Hok) as [Hlen Hfree].
  exists s'. repeat split; try done; try lia.
  apply sub_runs_charset.
Qed.

(** X10. A peer whose first line is neither ["HELLO"] nor a ["GET /"]
    request (nor ["quit"]) is dropped without a word: [handle_connection]
    returns having read that line and done nothing else. The connection
    is not registered, no event is queued, and its transport is not
    closed. *)
Theorem handle_connection_ignores_stranger
    (fuel : nat) (peer : str * N) (r : Reader) (w : Writer) (s s1 : State)
    (m : str) :
  let c := fresh (dom (objects s)) in
  let s0 :=
    with_objects
      (<[c := mkConnection peer (fst peer ++ py ":" ++ decimal (snd peer))
                NoType (mkInput r []) w ∅]> (objects s)) s in
  conn_readline fuel c s0 = (Ret (Some m), s1) ->
  m <> py "quit" ->
  startswith m (py "GET /") = false ->
  m <> py "HELLO" ->
  handle_connection fuel peer r w s = (Ret c, s1)
  /\ (c ∉ dom (objects s))
  /\ writer (conn c s1) = w
  /\ type (conn c s1) = NoType
  /\ connections s1 = connections s
  /\ names s1 = names s
  /\ connection_queue s1 = connection_queue s
  /\ disconnection_queue s1 = disconnection_queue s
  /\ close_calls s1 = close_calls s
  /\ ping_tasks s1 = ping_tasks s.
Proof.
  intros c s0 Hx Hquit Hget Hhello.
  split.
  { unfold handle_connection.
    unfold bind at 1. unfold gets at 1. fold c.
    unfold bind at 1. unfold modify at 1. fold s0.
    unfold bind at 1. unfold read_message.
    rewrite (bind_ret _ _ _ _ _ Hx).
    rewrite (bool_decide_eq_false_2 _ Hquit). unfold ret at 1.
    rewrite Hget. by rewrite (bool_decide_eq_false_2 _ Hhello). }
  split; [apply is_fresh|].
  unfold conn_readline in Hx.
  destruct (readline fuel (input (conn c s0))) as [r' i].
  injection Hx as _ <-.
  rewrite conn_update_conn. unfold conn, s0. cbn.
  rewrite lookup_insert_eq. by repeat split.
Qed.

End RegistryClaims.

(** Alice, with two wins to her name, is closed: her name is free and her
    wins are kept under it. *)
Lemma close_connection_releases_witness :
  exists s',
    Server.close_connection 3 0 Examples.alice_scored = (Ret tt, s')
    /\ Server.names s' !! py "alice" = None
    /\ Server.old_attributes s' !! py "alice"
       = Some (Server.attributes (Server.conn 0 Examples.alice_scored))
    /\ Server.attributes (Server.conn 0 Examples.alice_scored) !! py "wins"
       = Some 2%Z.
Proof.
  destruct (close_connection_releases 3 0 Examples.alice_scored)
    as (s' & Hr & Hn & Ha & _); [lia|].
  exists s'. split; [exact Hr|].
  change (Server.name (Server.conn 0 Examples.alice_scored))
    with (py "alice") in Hn, Ha.
  rewrite Hn, Ha. split; [apply lookup_delete_eq|].
  split; [|vm_compute; reflexivity].
  destruct (decide _) as [He|He].
  - exfalso. apply (f_equal (fun m => m !! py "wins")) in He.
    vm_compute in He. discriminate.
  - apply lookup_insert_eq.
Defined.

Lemma read_message_closes_on_quit_witness :
  exists r s',
    Server.read_message 3 0 Scenario.hello_state = (Ret r, s')
    /\ r <> Some (py "quit").
Proof.
  destruct (read_message_closes_on_quit 3 0 Scenario.hello_state
              (snd (Server.conn_readline 3 0 Scenario.hello_state))
              (Some (py "!a!")))
    as (r & s' & Hr & Hq & _).
  - lia.
  - vm_compute. reflexivity.
  - by exists r, s'.
Defined.

(** The peer of [hello_state] has sent ["!a!"]: it is registered as
    ["_a_"]. *)
Lemma handshake_registers_witness :
  exists s',
    Server.handle_hello_connection 4 0 Scenario.hello_state = (Ret tt, s')
    /\ Server.name (Server.conn 0 s') = py "_a_"
    /\ Server.connection_queue s'
       = Server.connection_queue
           (snd (Server.get_response 3 0 (py "What is your name?")
                   Scenario.hello_state)) ++ [0%nat].
Proof.
  destruct (handshake_registers 3 0 Scenario.hello_state
              (snd (Server.get_response 3 0 (py "What is your name?")
                      Scenario.hello_state))
              (py "!a!"))
    as (s' & Hr & _ & _ & _ & Hn & _ & _ & _ & Hq & _).
  - vm_compute. reflexivity.
  - vm_compute. reflexivity.
  - exists s'. split; [exact Hr|]. split; [exact Hn|exact Hq].
Defined.

Lemma handle_connection_ignores_stranger_witness :
  exists c s1,
    Server.handle_connection 3 (py "10.0.0.5", 5000) Examples.stranger
      (mkWriter Healthy []) Server.init = (Ret c, s1)
    /\ Server.writer (Server.conn c s1) = mkWriter Healthy []
    /\ Server.connections s1 = []
    /\ Server.disconnection_queue s1 = [].
Proof.
  destruct (handle_connection_ignores_stranger 3 (py "10.0.0.5", 5000)
              Examples.stranger (mkWriter Healthy []) Server.init
              (snd (Server.conn_readline 3
                      (fresh (dom (Server.objects Server.init)))
                      (Server.with_objects
                         (<[fresh (dom (Server.objects Server.init)) :=
                             Server.mkConnection (py "10.0.0.5", 5000)
                               (py "10.0.0.5" ++ py ":" ++ Server.decimal 5000)
                               Server.NoType (mkInput Examples.stranger [])
                               (mkWriter Healthy []) ∅]>
                            (Server.objects Server.init)) Server.init)))
              (py "hi there"))
    as (Hr & _ & Hw & _ & Hc & _ & _ & Hd & _).
  - vm_compute. reflexivity.
  - discriminate.
  - reflexivity.
  - discriminate.
  - eexists _, _. split; [exact Hr|]. split; [exact Hw|]. split; [exact Hc|exact Hd].
Defined.

(* ===================================================================== *)
(** ** More on readline and writeline *)
(* ===================================================================== *)

Section Lines.

Lemma no_LF_no_crlf (s : str) : LF ∉ s -> has_crlf s = false.
Proof.
  induction s as [|a s IH]; [done|].
  intros [Ha Hs]%not_elem_of_cons.
  destruct s as [|b s]; [done|].
  change (has_crlf (a :: b :: s))
    with (((a =? CR) && (b =? LF)) || has_crlf (b :: s)).
  rewrite (IH Hs), orb_false_r.
  apply not_elem_of_cons in Hs as [Hb _].
  destruct (b =? LF) eqn:Hlf; [apply N.eqb_eq in Hlf; congruence|].
  apply andb_false_r.
Qed.

Lemma find_eol_no_LF (s : str) : LF ∉ s -> find_eol s = None.
Proof. intros Hs. apply find_eol_none; [done|by apply no_LF_no_crlf]. Qed.

Lemma split_once_cons (sep : str) (c : N) (s : str) :
  split_once sep (c :: s)
  = match after_prefix sep (c :: s) with
    | Some rest => Some ([], rest)
    | None =>
      match split_once sep s with
      | Some (a, b) => Some (c :: a, b)
      | None => None
      end
    end.
Proof. by destruct sep. Qed.

(** The pair ["\r\n"] is found where it first occurs. *)
Lemma split_once_CRLF_found (l x : str) :
  has_crlf (l ++ [CR]) = false ->
  split_once [CR; LF] (l ++ CR :: LF :: x) = Some (l, x).
Proof.
  induction l as [|c l IH]; intros Hl.
  { cbn. reflexivity. }
  cbn [app]. rewrite split_once_cons.
  assert (Hhead : after_prefix [CR; LF] (c :: l ++ CR :: LF :: x) = None).
  { cbn [after_prefix].
    destruct (CR =? c) eqn:Hc; [|done]. apply N.eqb_eq in Hc. subst c.
    destruct l as [|d l]; cbn [app after_prefix].
    - reflexivity.
    - change (has_crlf ((CR :: d :: l) ++ [CR]))
        with (((CR =? CR) && (d =? LF)) || has_crlf ((d :: l) ++ [CR])) in Hl.
      apply orb_false_iff in Hl as [Hd _].
      rewrite N.eqb_refl in Hd. cbn [andb] in Hd.
      rewrite (N.eqb_sym LF d), Hd. reflexivity. }
  rewrite Hhead, IH; [done|].
  destruct l as [|d l]; [done|].
  change (has_crlf ((c :: d :: l) ++ [CR]))
    with (((c =? CR) && (d =? LF)) || has_crlf ((d :: l) ++ [CR])) in Hl.
  by apply orb_false_iff in Hl as [_ Hl].
Qed.

Lemma find_eol_CRLF (l x : str) :
  has_crlf (l ++ [CR]) = false ->
  find_eol (l ++ CR :: LF :: x) = Some (l, x).
Proof. intros Hl. unfold find_eol. by rewrite split_once_CRLF_found. Qed.

Lemma no_LF_app_CR (l : str) : LF ∉ l -> LF ∉ l ++ [CR].
Proof.
  intros Hl [Hin|Hin]%elem_of_app; [done|].
  apply list_elem_of_singleton in Hin. discriminate.
Qed.

(** The loop over the buffer when the first line feed of the text ahead
    comes after [l'] and [find_eol] cuts there, giving [line]. *)
Lemma drain_buffer_cut buffer :
  forall message rest l' line text,
  message ++ concat buffer ++ rest = l' ++ LF :: text ->
  LF ∉ l' -> LF ∉ message ->
  (forall x, find_eol (l' ++ LF :: x) = Some (line, x)) ->
  Forall (fun b => b <> []) buffer ->
  (exists buffer',
     drain_buffer message buffer = inl (line, buffer')
     /\ concat buffer' ++ rest = text
     /\ Forall (fun b => b <> []) buffer')
  \/ (drain_buffer message buffer = inr (message ++ concat buffer)
      /\ LF ∉ message ++ concat buffer).
Proof.
  induction buffer as [|b buffer IH];
    intros message rest l' line text Ht Hl Hm Hfind Hb.
  { right. cbn. by rewrite app_nil_r. }
  apply Forall_cons in Hb as [_ Hb].
  cbn [drain_buffer concat].
  cbn [concat] in Ht. rewrite <- app_assoc in Ht.
  rewrite (app_assoc message b) in Ht.
  destruct (cut_line _ _ _ _ Ht Hl) as [(x & Hx & Hrest)|(Hno & y & Hy & _)].
  - left. rewrite Hx, Hfind.
    destruct x as [|c x].
    + exists buffer. by repeat split.
    + exists ((c :: x) :: buffer). repeat split; [|by constructor].
      cbn [concat]. by rewrite <- app_assoc.
  - rewrite (find_eol_no_LF _ Hno).
    destruct (IH (message ++ b) rest l' line text) as [Hfound|[Hd Hn]];
      try done.
    + by left.
    + right. rewrite <- app_assoc in Hd, Hn. done.
Qed.

Lemma read_loop_cut pieces :
  forall data message l' line text fuel,
  reads 100 data = map utf8 pieces ->
  message ++ concat pieces = l' ++ LF :: text ->
  LF ∉ l' -> LF ∉ message ->
  (forall x, find_eol (l' ++ LF :: x) = Some (line, x)) ->
  forallb is_scalar (l' ++ LF :: text) = true ->
  Forall (fun p => p <> []) pieces ->
  (length pieces <= fuel)%nat ->
  exists buffer' data' pieces',
    read_loop fuel (utf8 message) (mkInput (map Chunk data) [])
    = (Ret (Some line), mkInput (map Chunk data') buffer')
    /\ reads 100 data' = map utf8 pieces'
    /\ concat buffer' ++ concat pieces' = text
    /\ Forall (fun b => b <> []) buffer'
    /\ Forall (fun p => p <> []) pieces'
    /\ (length pieces' <= length pieces)%nat.
Proof.
  induction pieces as [|p pieces IH];
    intros data message l' line text fuel Hrd Ht Hl Hm Hfind Hs Hp Hfuel.
  { cbn in Ht. rewrite app_nil_r in Ht. subst message.
    exfalso. apply Hm. apply elem_of_app. right. left. }
  apply Forall_cons in Hp as [Hp Hps].
  destruct fuel as [|fuel]; [cbn in Hfuel; lia|].
  cbn [length] in Hfuel. cbn [map] in Hrd.
  destruct (reader_read_reads_all 100 data _ _ ltac:(lia) Hrd)
    as (data1 & Hread & Hrd1).
  cbn [read_loop reader buffer]. rewrite Hread.
  rewrite <- utf8_app.
  cbn [concat] in Ht. rewrite app_assoc in Ht.
  assert (Hvalid : forallb is_scalar (message ++ p) = true).
  { rewrite <- Ht in Hs. by apply forallb_app_true in Hs as [Hs _]. }
  assert (Hne : utf8 (message ++ p) <> []).
  { apply utf8_not_nil. by destruct message, p. }
  destruct (utf8 (message ++ p)) as [|d0 bs] eqn:Hdata; [done|].
  rewrite <- Hdata, (decode_utf8 _ Hvalid).
  destruct (cut_line _ _ _ _ Ht Hl) as [(x & Hx & Hrest)|(Hno & y & Hy & _)].
  - rewrite Hx, Hfind.
    destruct x as [|c x].
    + exists [], data1, pieces. repeat split; try done. cbn [length]. lia.
    + exists [c :: x], data1, pieces. repeat split; try done.
      * cbn [concat]. by rewrite app_nil_r.
      * by repeat constructor.
      * cbn [length]. lia.
  - rewrite (find_eol_no_LF _ Hno).
    rewrite Hdata, <- Hdata.
    destruct (IH data1 (message ++ p) l' line text fuel) as
      (buffer' & data' & pieces' & Hr & Hrd' & Hcat & Hb' & Hp' & Hlen);
      try done; [lia|].
    exists buffer', data', pieces'. repeat split; try done.
    cbn [length]. lia.
Qed.

Lemma readline_cut buffer pieces data l' line text fuel :
  reads 100 data = map utf8 pieces ->
  concat buffer ++ concat pieces = l' ++ LF :: text ->
  LF ∉ l' ->
  (forall x, find_eol (l' ++ LF :: x) = Some (line, x)) ->
  forallb is_scalar (l' ++ LF :: text) = true ->
  Forall (fun b => b <> []) buffer ->
  Forall (fun p => p <> []) pieces ->
  (length pieces <= fuel)%nat ->
  exists buffer' data' pieces',
    readline fuel (mkInput (map Chunk data) buffer)
    = (Ret (Some line), mkInput (map Chunk data') buffer')
    /\ reads 100 data' = map utf8 pieces'
    /\ concat buffer' ++ concat pieces' = text
    /\ Forall (fun b => b <> []) buffer'
    /\ Forall (fun p => p <> []) pieces'
    /\ (length pieces' <= length pieces)%nat.
Proof.
  intros Hrd Ht Hl Hfind Hs Hb Hp Hfuel. unfold readline.
  cbn [StreamsUtil.buffer reader].
  destruct (drain_buffer_cut buffer [] (concat pieces) l' line text)
    as [(buffer' & -> & Hcat & Hb')|[-> Hn]]; try done.
  { by intros ?%elem_of_nil. }
  { exists buffer', data, pieces. by repeat split. }
  cbn [app] in *.
  assert (Hvalid : forallb is_scalar (concat buffer) = true).
  { rewrite <- Ht in Hs. by apply forallb_app_true in Hs as [Hs _]. }
  rewrite (encode_scalar _ Hvalid).
  by apply read_loop_cut with (l' := l').
Qed.

(** Lines that end with ["\r\n"], one [readline] each. *)
Lemma read_lines_crlf lines :
  forall buffer pieces data fuel,
  reads 100 data = map utf8 pieces ->
  concat buffer ++ concat pieces
  = concat (map (fun l => l ++ [CR; LF]) lines) ->
  Forall (fun l => LF ∉ l) lines ->
  forallb is_scalar (concat (map (fun l => l ++ [CR; LF]) lines)) = true ->
  Forall (fun b => b <> []) buffer ->
  Forall (fun p => p <> []) pieces ->
  (length pieces <= fuel)%nat ->
  read_lines fuel (length lines) (mkInput (map Chunk data) buffer)
  = (Ret (map Some lines), mkInput [] []).
Proof.
  induction lines as [|l lines IH];
    intros buffer pieces data fuel Hrd Ht Hl Hs Hb Hp Hfuel.
  { cbn in Ht. apply app_eq_nil in Ht as [Hbn Hpn].
    assert (buffer = []) as ->.
    { destruct buffer as [|b buffer]; [done|].
      apply Forall_cons in Hb as [Hb _]. cbn in Hbn.
      by apply app_eq_nil in Hbn as [-> _]. }
    assert (pieces = []) as ->.
    { destruct pieces as [|p pieces]; [done|].
      apply Forall_cons in Hp as [Hp _]. cbn in Hpn.
      by apply app_eq_nil in Hpn as [-> _]. }
    apply reads_nil in Hrd as ->. reflexivity. }
  apply Forall_cons in Hl as [Hlf Hl].
  cbn [map concat] in Ht, Hs.
  assert (Hshape : forall t : str,
            (l ++ [CR; LF]) ++ t = (l ++ [CR]) ++ LF :: t).
  { intros t. by rewrite <- !app_assoc. }
  rewrite Hshape in Ht, Hs.
  destruct (readline_cut buffer pieces data (l ++ [CR]) l _ fuel Hrd Ht)
    as (buffer' & data' & pieces' & Hr & Hrd' & Hcat & Hb' & Hp' & Hlen);
    try done.
  { by apply no_LF_app_CR. }
  { intros x. rewrite <- app_assoc. cbn [app]. apply find_eol_CRLF.
    apply no_LF_no_crlf. by apply no_LF_app_CR. }
  cbn [length read_lines]. rewrite (bind_ret _ _ _ _ _ Hr).
  assert (Hs' : forallb is_scalar
                  (concat (map (fun l => l ++ [CR; LF]) lines)) = true).
  { change ((l ++ [CR]) ++ LF :: ?t) with ((l ++ [CR]) ++ [LF] ++ t) in Hs.
    rewrite app_assoc in Hs. by apply forallb_app_true in Hs as [_ Hs]. }
  rewrite (bind_ret _ _ _ _ _ (IH buffer' pieces' data' fuel Hrd' Hcat Hl Hs'
                                  Hb' Hp' ltac:(lia))).
  reflexivity.
Qed.

(** X11. Lines that a peer ends with ["\r\n"] are returned by [readline]
    without the pair, line for line and in order, whenever no line
    contains a line feed and no read ends inside the UTF-8 encoding of a
    character. The stream delivers the chunks [data], of any sizes;
    [readline] takes at most 100 bytes of them at a time, and [pieces] is
    the text that these reads return, non-empty and otherwise any way of
    cutting the text: in particular a read may end between the carriage
    return and the line feed. A line may contain or end with carriage
    returns of its own. *)
Theorem readline_returns_crlf_lines
    (lines pieces : list str) (data : list bytes) (fuel : nat) :
  Forall (fun l => (LF ∉ l) /\ forallb is_scalar l = true) lines ->
  Forall (fun p => p <> []) pieces ->
  concat pieces = concat (map (fun l => l ++ [CR; LF]) lines) ->
  reads 100 data = map utf8 pieces ->
  (length pieces <= fuel)%nat ->
  concat data = utf8 (concat (map (fun l => l ++ [CR; LF]) lines))
  /\ read_lines fuel (length lines) (mkInput (map Chunk data) [])
     = (Ret (map Some lines), mkInput [] []).
Proof.
  intros Hl Hp Hcat Hrd Hfuel. split.
  { by rewrite <- Hcat, utf8_concat, <- Hrd, concat_reads. }
  apply (read_lines_crlf lines [] pieces); try done.
  - eapply Forall_impl; [exact Hl|]. by intros l [? _].
  - clear Hcat. induction Hl as [|l lines [_ Hs] _ IH]; [done|].
    cbn [map concat]. by rewrite !forallb_app, Hs, IH.
Qed.

End Lines.

(** Two lines of a request, the cut between the carriage return and the
    line feed of the first. *)
Lemma readline_returns_crlf_lines_witness :
  read_lines 2 2
    (mkInput [Chunk (py "GET / HTTP/1.1" ++ [CR]);
              Chunk (LF :: py "Host: x" ++ [CR; LF])] [])
  = (Ret [Some (py "GET / HTTP/1.1"); Some (py "Host: x")], mkInput [] []).
Proof.
  refine (proj2 (readline_returns_crlf_lines
            [py "GET / HTTP/1.1"; py "Host: x"]
            [py "GET / HTTP/1.1" ++ [CR]; LF :: py "Host: x" ++ [CR; LF]]
            [py "GET / HTTP/1.1" ++ [CR]; LF :: py "Host: x" ++ [CR; LF]]
            2 _ _ _ _ _)).
  - repeat constructor; try done;
      intros Hin; repeat (apply elem_of_cons in Hin as [Hin|Hin]; [done|]);
      by apply elem_of_nil in Hin.
  - by repeat constructor.
  - reflexivity.
  - reflexivity.
  - cbn. lia.
Defined.

Section Edges.

(** X12. When the data in hand holds a line feed and, further on, the
    pair ["\r\n"], [readline] cuts at the pair: the bare line feed is not
    taken as the end of a line and stays inside the line returned. What
    follows the pair is kept in the buffer for the next call. The data
    in hand is what one read returns (at most 100 bytes), or the
    buffered text. *)
Theorem readline_prefers_crlf
    (l1 l2 rest : str) (r : Reader) (fuel : nat) :
  let line := l1 ++ LF :: l2 in
  let text := line ++ CR :: LF :: rest in
  has_crlf (line ++ [CR]) = false ->
  forallb is_scalar text = true ->
  ((length (utf8 text) <= 100)%nat ->
   readline (S fuel) (mkInput (Chunk (utf8 text) :: r) [])
   = (Ret (Some line), mkInput r (if rest is [] then [] else [rest])))
  /\ readline fuel (mkInput r [text])
     = (Ret (Some line), mkInput r (if rest is [] then [] else [rest])).
Proof.
  intros line text Hc Hs. split.
  - intros Hlen. unfold readline. cbn [drain_buffer buffer reader].
    change (encode []) with (Some (@nil N)). cbv iota beta.
    cbn [read_loop reader buffer].
    rewrite (reader_read_small _ _ _ Hlen). rewrite app_nil_l.
    assert (Hne : utf8 text <> []).
    { apply utf8_not_nil. unfold text, line. by destruct l1. }
    destruct (utf8 text) as [|d0 data] eqn:Hdata; [done|].
    rewrite <- Hdata, (decode_utf8 _ Hs).
    unfold text. rewrite (find_eol_CRLF _ _ Hc). by destruct rest.
  - unfold readline. cbn [drain_buffer buffer reader app].
    unfold text. rewrite (find_eol_CRLF _ _ Hc). by destruct rest.
Qed.








Lemma endswith_app (m p : str) : endswith (m ++ p) p = true.
Proof.
  unfold endswith. rewrite rev_app_distr. apply startswith_app.
Qed.

(** X14. [writeline] puts exactly one line feed at the end: a message
    given with its line feed is sent as the same message given without.
    On a healthy transport an encodable message is sent, encoded and
    followed by the line feed, and the answer is [True]; on a transport
    that is closing nothing is sent and the answer is [False]; and a
    write that fails is answered [False], not raised, and leaves the
    transport closing. *)
Theorem writeline_one_line_feed (message : str) (w : Writer) :
  endswith message [LF] = false ->
  writeline (message ++ [LF]) w = writeline message w
  /\ (is_closing w = true -> writeline message w = (Ret false, w))
  /\ (forallb is_scalar message = true ->
      (wstate w = Healthy ->
       writeline message w
       = (Ret true, mkWriter Healthy (sent w ++ utf8 message ++ [LF])))
      /\ (wstate w = Broken ->
          writeline message w = (Ret false, mkWriter Closing (sent w)))).
Proof.
  intros He. split; [|split].
  - unfold writeline. by rewrite endswith_app, He.
  - apply writeline_closing.
  - intros Hs.
    assert (Hdata : encode (if endswith message [LF] then message
                            else message ++ [LF])
                    = Some (utf8 message ++ [LF])).
    { rewrite He. rewrite encode_scalar.
      - by rewrite utf8_app.
      - by rewrite forallb_app, Hs. }
    split; intros Hw.
    + by apply writeline_healthy.
    + by apply (writeline_broken _ _ _ Hw Hdata).
Qed.

End Edges.

Lemma readline_prefers_crlf_witness :
  readline 1 (mkInput [Chunk (py "a" ++ [LF] ++ py "b" ++ [CR; LF])] [])
  = (Ret (Some (py "a" ++ [LF] ++ py "b")), mkInput [] []).
Proof.
  apply (proj1 (readline_prefers_crlf (py "a") (py "b") [] [] 0
                  ltac:(reflexivity) ltac:(reflexivity))).
  vm_compute. lia.
Defined.


Lemma writeline_one_line_feed_witness :
  writeline (py "PING" ++ [LF]) (mkWriter Healthy [])
  = writeline (py "PING") (mkWriter Healthy []).
Proof.
  apply (proj1 (writeline_one_line_feed (py "PING") (mkWriter Healthy [])
                  ltac:(reflexivity))).
Defined.

(* ===================================================================== *)
(** ** The event queues and the lobby *)
(* ===================================================================== *)

Section Events.

Import GameManager.
Context {G : Type} `{Game.Contract G}.

(** The state after the connect queue has been drained. *)
Lemma pop_connections_exact (q : list nat) (m : State G) g :
  game m = Some g ->
  pop_connections q m
  = (Ret tt,
     if q is [] then m
     else with_start_cooldown (Game.start_cooldown g)
            (with_server (Server.with_connection_queue []) m)).
Proof.
  revert m. induction q as [|c q IH]; intros m Hg; [done|].
  cbn [pop_connections]. unfold bind at 1. unfold modify at 1.
  unfold bind at 1. unfold reset_start_cooldown at 1. cbn [game with_server].
  rewrite Hg. rewrite IH by done.
  destruct q as [|c' q]; [done|]. reflexivity.
Qed.

(** Draining the disconnect queue: events of connections that are not
    playing are dropped, the first event of a player stops the drain. *)
Lemma pop_disconnections_exact (q : list nat) (m : State G) g :
  game m = Some g ->
  pop_disconnections q m
  = match q with
    | [] => (Ret tt, m)
    | _ :: _ =>
      match list_find (fun c => c ∈ players m) q with
      | None =>
        (Ret tt,
         with_start_cooldown (Game.start_cooldown g)
           (with_server (Server.with_disconnection_queue []) m))
      | Some (i, _) =>
        (Raise PlayerDisconnectedError,
         with_start_cooldown (Game.start_cooldown g)
           (with_server (Server.with_disconnection_queue (drop (S i) q)) m))
      end
    end.
Proof.
  revert m. induction q as [|c q IH]; intros m Hg; [done|].
  cbn [pop_disconnections]. unfold bind at 1. unfold modify at 1.
  unfold bind at 1. unfold reset_start_cooldown at 1. cbn [game with_server].
  rewrite Hg.
  unfold bind at 1. unfold get at 1. unfold bind at 1.
  rewrite (bool_decide_eq_true_2 (game m <> None)) by (by rewrite Hg).
  cbn [andb list_find]. destruct (decide (c ∈ players m)) as [Hin|Hin].
  - rewrite (bool_decide_eq_true_2 _ Hin). unfold raise. cbn [drop].
    reflexivity.
  - rewrite (bool_decide_eq_false_2 _ Hin). unfold ret at 1.
    rewrite IH by done.
    cbn [players with_start_cooldown with_server].
    destruct q as [|c' q]; [done|].
    destruct (list_find (fun c0 => c0 ∈ players m) (c' :: q))
      as [[i x]|]; reflexivity.
Qed.

(** What [handle_connection_queues] leaves behind. *)
Lemma handle_connection_queues_exact (m : State G) (g : G) :
  game m = Some g ->
  let cq := Server.connection_queue (server m) in
  let dq := Server.disconnection_queue (server m) in
  exists r m',
    handle_connection_queues m = (r, m')
    /\ game m' = Some g
    /\ players m' = players m
    /\ calls m' = calls m
    /\ Server.connections (server m') = Server.connections (server m)
    /\ Server.connection_queue (server m') = []
    /\ start_cooldown m'
       = (if cq is [] then if dq is [] then start_cooldown m
                           else Game.start_cooldown g
          else Game.start_cooldown g)
    /\ match list_find (fun c => c ∈ players m) dq with
       | None => r = Ret tt /\ Server.disconnection_queue (server m') = []
       | Some (i, _) =>
         r = Raise PlayerDisconnectedError
         /\ Server.disconnection_queue (server m') = drop (S i) dq
       end.
Proof.
  intros Hg cq dq. unfold handle_connection_queues.
  unfold bind at 1. unfold gets at 1. fold cq.
  unfold bind at 1. rewrite (pop_connections_exact cq m g Hg).
  set (m1 := if cq is [] then m else _).
  assert (Hm1 : game m1 = Some g /\ players m1 = players m
                /\ calls m1 = calls m
                /\ Server.connections (server m1)
                   = Server.connections (server m)
                /\ Server.disconnection_queue (server m1) = dq
                /\ Server.connection_queue (server m1) = []
                /\ start_cooldown m1
                   = if cq is [] then start_cooldown m
                     else Game.start_cooldown g).
  { subst m1. destruct cq eqn:Hcq; by repeat split. }
  destruct Hm1 as (Hg1 & Hp1 & Hc1 & Hl1 & Hd1 & Hq1 & Hs1).
  unfold bind at 1. unfold gets at 1. rewrite Hd1.
  rewrite (pop_disconnections_exact dq m1 g Hg1). rewrite Hp1.
  destruct dq as [|d dq'] eqn:Hdq.
  { exists (Ret tt), m1. cbn [list_find].
    repeat split; try done; rewrite ?Hs1; by destruct cq. }
  destruct (list_find (fun c => c ∈ players m) (d :: dq')) as [[i x]|].
  - eexists _, _. split; [reflexivity|]. cbn.
    repeat split; try done; rewrite ?Hs1; by destruct cq.
  - eexists _, _. split; [reflexivity|]. cbn.
    repeat split; try done; rewrite ?Hs1; by destruct cq.
Qed.

(** X15. [handle_connection_queues] empties the connect queue, then takes
    disconnect events one by one. Every event taken, of either kind,
    sets the start cooldown back to the game's value. With no current
    player among the disconnect events it returns with both queues
    empty; otherwise it raises [PlayerDisconnectedError] at the first
    event of a current player, and the events behind that one stay in
    the queue. *)
Theorem handle_connection_queues_drains (m : State G) (g : G) :
  game m = Some g ->
  let cq := Server.connection_queue (server m) in
  let dq := Server.disconnection_queue (server m) in
  exists r m',
    handle_connection_queues m = (r, m')
    /\ game m' = Some g
    /\ players m' = players m
    /\ calls m' = calls m
    /\ Server.connections (server m') = Server.connections (server m)
    /\ Server.connection_queue (server m') = []
    /\ start_cooldown m'
       = (if cq is [] then if dq is [] then start_cooldown m
                           else Game.start_cooldown g
          else Game.start_cooldown g)
    /\ match list_find (fun c => c ∈ players m) dq with
       | None => r = Ret tt /\ Server.disconnection_queue (server m') = []
       | Some (i, _) =>
         r = Raise PlayerDisconnectedError
         /\ Server.disconnection_queue (server m') = drop (S i) dq
       end.
Proof. apply handle_connection_queues_exact. Qed.

End Events.

Section LobbyClaims.

Import GameManager Lobby.
Context {G : Type} `{Game.Contract G}.
Variable sample : list nat -> nat -> list nat.
Variable shuffle : list nat -> list nat.
Variable sleep : nat -> Server.State -> Server.State.

(** One round of the [while True] of [wait_for_connections]. *)
Lemma wait_for_connections_round fuel slept (m m1 : State G) g :
  handle_connection_queues m = (Ret tt, m1) ->
  game m1 = Some g ->
  wait_for_connections sample shuffle sleep (S fuel) slept m
  = (let active := Server.connections (server m1) in
     if (Z.of_nat (length active) <? Game.min_connections g)%Z then
       wait_for_connections sample shuffle sleep fuel (S slept)
         (with_server (sleep slept)
            (with_start_cooldown (Game.start_cooldown g) m1))
     else if (0 <? start_cooldown m1)%Z then
       wait_for_connections sample shuffle sleep fuel (S slept)
         (with_server (sleep slept)
            (with_start_cooldown (start_cooldown m1 - 1) m1))
     else
       (Ret (if (0 <? Game.max_connections g)%Z
                && (Game.max_connections g <? Z.of_nat (length active))%Z
             then sample active (Z.to_nat (Game.max_connections g))
             else shuffle active),
        with_start_cooldown (Game.start_cooldown g) m1)).
Proof.
  intros Hh Hg. cbn [wait_for_connections].
  rewrite (bind_ret _ _ _ _ _ Hh).
  unfold bind at 1. unfold get at 1. rewrite Hg. cbv zeta.
  destruct (Z.of_nat (length (Server.connections (server m1)))
            <? Game.min_connections g)%Z.
  { unfold bind at 1. unfold reset_start_cooldown at 1. rewrite Hg.
    unfold bind at 1. unfold modify at 1. reflexivity. }
  destruct (0 <? start_cooldown m1)%Z.
  { unfold bind at 1. unfold modify at 1.
    unfold bind at 1. unfold modify at 1. reflexivity. }
  unfold bind at 1. unfold reset_start_cooldown at 1. rewrite Hg.
  by destruct (_ && _).
Qed.

(** The moment [wait_for_connections] returns. *)
Lemma wait_for_connections_returns
    (fuel slept : nat) (m m' : State G) (g : G) (roster : list nat) :
  game m = Some g ->
  wait_for_connections sample shuffle sleep fuel slept m = (Ret roster, m') ->
  let live := Server.connections (server m') in
  game m' = Some g
  /\ players m' = players m
  /\ calls m' = calls m
  /\ (Game.min_connections g <= Z.of_nat (length live))%Z
  /\ Server.connection_queue (server m') = []
  /\ Server.disconnection_queue (server m') = []
  /\ start_cooldown m' = Game.start_cooldown g
  /\ roster
     = (if (0 <? Game.max_connections g)%Z
           && (Game.max_connections g <? Z.of_nat (length live))%Z
        then sample live (Z.to_nat (Game.max_connections g))
        else shuffle live)
  /\ ((forall l, shuffle l ≡ₚ l) ->
      (forall l k, (k <= length l)%nat ->
         length (sample l k) = k /\ sample l k ⊆+ l) ->
      roster ⊆+ live
      /\ ((0 < Game.max_connections g)%Z ->
          (Z.of_nat (length roster) <= Game.max_connections g)%Z)).
Proof.
  revert slept m. induction fuel as [|fuel IH]; intros slept m Hg Hr; [done|].
  destruct (handle_connection_queues_exact m g Hg)
    as (r & m1 & Hh & Hg1 & Hp1 & Hc1 & Hl1 & Hq1 & Hs1 & Hd1).
  destruct r as [[]|e|].
  2,3: cbn [wait_for_connections] in Hr; unfold bind at 1 in Hr;
       by rewrite Hh in Hr.
  assert (Hdq : Server.disconnection_queue (server m1) = []).
  { destruct (list_find _ _) as [[i x]|]; [by destruct Hd1|by destruct Hd1]. }
  rewrite (wait_for_connections_round _ _ _ _ _ Hh Hg1) in Hr. cbv zeta in Hr.
  destruct (Z.ltb_spec (Z.of_nat (length (Server.connections (server m1))))
              (Game.min_connections g)) as [Hlow|Hmin].
  { apply IH in Hr; [|done].
    destruct Hr as (? & Hp & Hc & ?). cbn in Hp, Hc.
    repeat split; try tauto; congruence. }
  destruct (0 <? start_cooldown m1)%Z.
  { apply IH in Hr; [|done].
    destruct Hr as (? & Hp & Hc & ?). cbn in Hp, Hc.
    repeat split; try tauto; congruence. }
  injection Hr as <- <-. cbn [server with_start_cooldown game players calls
    start_cooldown].
  do 8 (split; [done|]).
  intros Hshuffle Hsample.
  set (live := Server.connections (server m1)) in *.
  destruct (Z.ltb_spec 0 (Game.max_connections g)) as [Hpos|Hnon];
    cbn [andb].
  - destruct (Z.ltb_spec (Game.max_connections g) (Z.of_nat (length live)))
      as [Hover|Hfit].
    + destruct (Hsample live (Z.to_nat (Game.max_connections g)))
        as [Hlen Hsub]; [lia|].
      split; [done|]. intros _. rewrite Hlen. lia.
    + split; [by rewrite Hshuffle|]. intros _. rewrite Hshuffle. lia.
  - split; [by rewrite Hshuffle|]. intros Hpos. lia.
Qed.

(** X16. What [wait_for_connections] returns, whenever it returns and
    whatever happened on the network meanwhile: at that moment at least
    [min_connections] connections were live, both event queues had been
    drained, the countdown had run out and was set back to the game's
    value, and the roster is drawn from the live connections of that
    moment: a shuffle of all of them, or, when [max_connections] is
    positive and exceeded, a sample of [max_connections] of them. With a
    generator whose shuffles are permutations and whose samples are
    sub-lists of the size asked for, every player is a live connection,
    none appears more often than it is live, and a positive
    [max_connections] is never exceeded. *)
Theorem wait_for_connections_roster
    (fuel slept : nat) (m m' : State G) (g : G) (roster : list nat) :
  game m = Some g ->
  wait_for_connections sample shuffle sleep fuel slept m = (Ret roster, m') ->
  let live := Server.connections (server m') in
  game m' = Some g
  /\ players m' = players m
  /\ calls m' = calls m
  /\ (Game.min_connections g <= Z.of_nat (length live))%Z
  /\ Server.connection_queue (server m') = []
  /\ Server.disconnection_queue (server m') = []
  /\ start_cooldown m' = Game.start_cooldown g
  /\ roster
     = (if (0 <? Game.max_connections g)%Z
           && (Game.max_connections g <? Z.of_nat (length live))%Z
        then sample live (Z.to_nat (Game.max_connections g))
        else shuffle live)
  /\ ((forall l, shuffle l ≡ₚ l) ->
      (forall l k, (k <= length l)%nat ->
         length (sample l k) = k /\ sample l k ⊆+ l) ->
      roster ⊆+ live
      /\ ((0 < Game.max_connections g)%Z ->
          (Z.of_nat (length roster) <= Game.max_connections g)%Z)).
Proof. apply wait_for_connections_returns. Qed.

Lemma with_server_same (f : Server.State -> Server.State) (m : State G) :
  (forall s, f s = s) -> with_server f m = m.
Proof. intros Hf. destruct m. unfold with_server. cbn. by rewrite Hf. Qed.

(** With nobody connecting or leaving, the countdown. *)
Lemma wait_for_connections_countdown fuel :
  forall slept (m : State G) g,
  (forall n s, sleep n s = s) ->
  game m = Some g ->
  Server.connection_queue (server m) = [] ->
  Server.disconnection_queue (server m) = [] ->
  (Game.min_connections g
   <= Z.of_nat (length (Server.connections (server m))))%Z ->
  if (Z.to_nat (start_cooldown m) <? fuel)%nat then
    wait_for_connections sample shuffle sleep fuel slept m
    = (Ret (let live := Server.connections (server m) in
            if (0 <? Game.max_connections g)%Z
               && (Game.max_connections g <? Z.of_nat (length live))%Z
            then sample live (Z.to_nat (Game.max_connections g))
            else shuffle live),
       with_start_cooldown (Game.start_cooldown g) m)
  else fst (wait_for_connections sample shuffle sleep fuel slept m) = Diverge.
Proof.
  induction fuel as [|fuel IH]; intros slept m g Hquiet Hg Hcq Hdq Hmin.
  { reflexivity. }
  destruct (handle_connection_queues_exact m g Hg)
    as (r & m1 & Hh & _).
  assert (Hm1 : handle_connection_queues m = (Ret tt, m)).
  { unfold handle_connection_queues. unfold bind at 1. unfold gets at 1.
    rewrite Hcq. cbn [pop_connections]. unfold bind at 1. unfold ret at 1.
    unfold bind at 1. unfold gets at 1. by rewrite Hdq. }
  rewrite (wait_for_connections_round _ _ _ _ _ Hm1 Hg). cbv zeta.
  rewrite (proj2 (Z.ltb_ge _ _) Hmin).
  destruct (Z.ltb_spec 0 (start_cooldown m)) as [Hpos|Hzero].
  - rewrite with_server_same by apply Hquiet.
    specialize (IH (S slept)
                  (with_start_cooldown (start_cooldown m - 1) m) g
                  Hquiet Hg Hcq Hdq Hmin).
    cbn [start_cooldown with_start_cooldown] in IH.
    replace (Z.to_nat (start_cooldown m) <? S fuel)%nat
      with (Z.to_nat (start_cooldown m - 1) <? fuel)%nat.
    2:{ destruct (Nat.ltb_spec (Z.to_nat (start_cooldown m - 1)) fuel);
        symmetry; [apply Nat.ltb_lt|apply Nat.ltb_ge]; lia. }
    destruct (Z.to_nat (start_cooldown m - 1) <? fuel)%nat; [|done].
    rewrite IH. reflexivity.
  - replace (Z.to_nat (start_cooldown m)) with 0%nat by lia.
    reflexivity.
Qed.

(** X17. The countdown. With at least [min_connections] live
    connections, no event waiting and nobody connecting or leaving
    meanwhile, [wait_for_connections] sleeps once for every unit of the
    start cooldown and then returns the roster and sets the cooldown
    back: it returns within [fuel] rounds exactly when [fuel] exceeds the
    cooldown, and a cooldown that is zero or negative starts the session
    at once. *)
Theorem wait_for_connections_counts_down
    (fuel slept : nat) (m : State G) (g : G) :
  (forall n s, sleep n s = s) ->
  game m = Some g ->
  Server.connection_queue (server m) = [] ->
  Server.disconnection_queue (server m) = [] ->
  (Game.min_connections g
   <= Z.of_nat (length (Server.connections (server m))))%Z ->
  ((Z.to_nat (start_cooldown m) < fuel)%nat ->
   wait_for_connections sample shuffle sleep fuel slept m
   = (Ret (let live := Server.connections (server m) in
           if (0 <? Game.max_connections g)%Z
              && (Game.max_connections g <? Z.of_nat (length live))%Z
           then sample live (Z.to_nat (Game.max_connections g))
           else shuffle live),
      with_start_cooldown (Game.start_cooldown g) m))
  /\ ((fuel <= Z.to_nat (start_cooldown m))%nat ->
      fst (wait_for_connections sample shuffle sleep fuel slept m) = Diverge).
Proof.
  intros Hquiet Hg Hcq Hdq Hmin.
  pose proof (wait_for_connections_countdown fuel slept m g
                Hquiet Hg Hcq Hdq Hmin) as Hc.
  split; intros Hf.
  - by rewrite (proj2 (Nat.ltb_lt _ _) Hf) in Hc.
  - by rewrite (proj2 (Nat.ltb_ge _ _) Hf) in Hc.
Qed.

(** X18. With fewer than [min_connections] live connections and nobody
    connecting meanwhile, [wait_for_connections] never returns, however
    long it waits, also when events are waiting in the queues (no game
    being played, they only set the cooldown back). *)
Theorem wait_for_connections_needs_players
    (fuel slept : nat) (m : State G) (g : G) :
  (forall n s, sleep n s = s) ->
  game m = Some g ->
  players m = [] ->
  (Z.of_nat (length (Server.connections (server m)))
   < Game.min_connections g)%Z ->
  fst (wait_for_connections sample shuffle sleep fuel slept m) = Diverge.
Proof.
  intros Hquiet. revert slept m.
  induction fuel as [|fuel IH]; intros slept m Hg Hp Hlow; [done|].
  destruct (handle_connection_queues_exact m g Hg)
    as (r & m1 & Hh & Hg1 & Hp1 & Hc1 & Hl1 & Hq1 & Hs1 & Hd1).
  assert (Hfind : list_find (fun c => c ∈ players m)
                    (Server.disconnection_queue (server m)) = None).
  { apply list_find_None. apply Forall_forall. intros x _.
    rewrite Hp. apply not_elem_of_nil. }
  rewrite Hfind in Hd1. destruct Hd1 as [-> Hdq].
  rewrite (wait_for_connections_round _ _ _ _ _ Hh Hg1). cbv zeta.
  rewrite Hl1, (proj2 (Z.ltb_lt _ _) Hlow).
  rewrite with_server_same by apply Hquiet.
  apply IH; cbn; congruence.
Qed.

End LobbyClaims.

(** The lobby with alice's and bob's connect events waiting. *)
Lemma handle_connection_queues_drains_witness :
  exists r m',
    GameManager.handle_connection_queues
      (Scenario.lobby RockPaperScissors.new) = (r, m')
    /\ Server.connection_queue (GameManager.server m') = []
    /\ GameManager.start_cooldown m' = 1%Z.
Proof.
  destruct (handle_connection_queues_drains
              (Scenario.lobby RockPaperScissors.new) RockPaperScissors.new
              eq_refl)
    as (r & m' & Hr & _ & _ & _ & _ & Hq & Hs & _).
  exists r, m'. split; [exact Hr|]. split; [exact Hq|].
  rewrite Hs. vm_compute. reflexivity.
Defined.

Lemma wait_for_connections_roster_witness :
  exists m',
    Lobby.wait_for_connections Examples.first_k Examples.reversed
      Examples.calm 2 0 (Scenario.lobby RockPaperScissors.new)
    = (Ret [1%nat; 0%nat], m')
    /\ [1%nat; 0%nat] ⊆+ Server.connections (GameManager.server m')
    /\ GameManager.start_cooldown m' = 1%Z.
Proof.
  pose proof (wait_for_connections_roster Examples.first_k Examples.reversed
                Examples.calm 2 0 (Scenario.lobby RockPaperScissors.new)
                (snd (Lobby.wait_for_connections Examples.first_k
                        Examples.reversed Examples.calm 2 0
                        (Scenario.lobby RockPaperScissors.new)))
                RockPaperScissors.new [1%nat; 0%nat] eq_refl) as Hthm.
  destruct Hthm as (_ & _ & _ & _ & _ & _ & Hs & _ & Hgen).
  - vm_compute. reflexivity.
  - eexists. split; [vm_compute; reflexivity|].
    split; [|exact Hs]. apply Hgen.
    + intros l. unfold Examples.reversed. symmetry. apply Permutation_rev.
    + intros l k Hk. unfold Examples.first_k. split.
      * rewrite length_take. lia.
      * apply sublist_submseteq, sublist_take.
Defined.

Lemma wait_for_connections_counts_down_witness :
  Lobby.wait_for_connections Examples.first_k Examples.reversed
    Examples.calm 4 0 Examples.lobby_ready
  = (Ret [1%nat; 0%nat],
     GameManager.with_start_cooldown 1 Examples.lobby_ready)
  /\ fst (Lobby.wait_for_connections Examples.first_k Examples.reversed
            Examples.calm 3 0 Examples.lobby_ready) = Diverge.
Proof.
  destruct (wait_for_connections_counts_down Examples.first_k
              Examples.reversed Examples.calm 4 0 Examples.lobby_ready
              RockPaperScissors.new) as [Hret _];
    [done|done|reflexivity|reflexivity|vm_compute; discriminate|].
  destruct (wait_for_connections_counts_down Examples.first_k
              Examples.reversed Examples.calm 3 0 Examples.lobby_ready
              RockPaperScissors.new) as [_ Hdiv];
    [done|done|reflexivity|reflexivity|vm_compute; discriminate|].
  split.
  - rewrite Hret by (vm_compute; lia). reflexivity.
  - apply Hdiv. vm_compute. lia.
Defined.

Lemma wait_for_connections_needs_players_witness :
  fst (Lobby.wait_for_connections Examples.first_k Examples.reversed
         Examples.calm 50 0 Examples.lobby_alone) = Diverge.
Proof.
  apply (wait_for_connections_needs_players Examples.first_k
           Examples.reversed Examples.calm 50 0 Examples.lobby_alone
           RockPaperScissors.new); [done|done|done|].
  vm_compute. reflexivity.
Defined.

(* ===================================================================== *)
(** ** A round without prompts *)
(* ===================================================================== *)

Section NoPrompts.

Import GameManager.
Context {G : Type} `{Game.Contract G}.
Variable wait : Z -> list Completion.

(** When the game has no prompt for anybody, every player is asked and
    no response task is created. *)
Lemma start_tasks_silent round connections :
  forall index (m : State G) g,
  game m = Some g ->
  (forall i g0, exists g1,
     Game.get_player_input round i g0 = (Ret None, g1)
     \/ Game.get_player_input round i g0 = (Ret (Some []), g1)) ->
  exists m' g',
    start_tasks round index connections m = (Ret [], m')
    /\ game m' = Some g'
    /\ calls m'
       = calls m ++ map (CGetPlayerInput round)
                      (seq index (length connections))
    /\ server m' = server m
    /\ players m' = players m.
Proof.
  induction connections as [|c cs IH]; intros index m g Hg Hmute.
  { exists m, g. cbn. by rewrite app_nil_r. }
  cbn [start_tasks]. unfold bind at 1. unfold hook at 1. rewrite Hg.
  destruct (Hmute index g) as [g1 Hin].
  set (m1 := with_calls (calls m ++ [CGetPlayerInput round index])
               (with_game (Some g1) m)).
  destruct (IH (S index) m1 g1 eq_refl Hmute)
    as (m' & g' & Hs & Hg' & Hc' & Hsrv & Hpl).
  exists m', g'.
  destruct Hin as [-> | ->]; fold m1; rewrite (bind_ret _ _ _ _ _ Hs);
    (split; [reflexivity|]); (split; [done|]);
    rewrite Hc', Hsrv, Hpl; subst m1; cbn; by rewrite <- app_assoc.
Qed.

(** X19. A round in which the game has no prompt for any player ([None]
    or the empty string from every [get_player_input]) cannot be played:
    [get_player_outputs] asks every player's prompt in roster order,
    creates no response task, leaves the server alone and raises
    [RuntimeError]. An empty roster is such a round. *)
Theorem get_player_outputs_without_prompts
    (round : Z) (m : State G) (g : G) :
  game m = Some g ->
  (forall i g0, exists g1,
     Game.get_player_input round i g0 = (Ret None, g1)
     \/ Game.get_player_input round i g0 = (Ret (Some []), g1)) ->
  exists m',
    get_player_outputs wait round m = (Raise RuntimeError, m')
    /\ calls m'
       = calls m ++ map (CGetPlayerInput round) (seq 0 (length (players m)))
    /\ server m' = server m.
Proof.
  intros Hg Hmute.
  destruct (start_tasks_silent round (players m) 0 m g Hg Hmute)
    as (m' & g' & Hs & _ & Hc & Hsrv & _).
  exists m'. split; [|done].
  unfold get_player_outputs. unfold bind at 1. unfold gets at 1.
  by rewrite (bind_ret _ _ _ _ _ Hs).
Qed.

End NoPrompts.

Lemma get_player_outputs_without_prompts_witness :
  exists m',
    GameManager.get_player_outputs (H := Examples.mute)
      Scenario.first_and_third 0 Scenario.three_playing
    = (Raise RuntimeError, m')
    /\ GameManager.calls m'
       = [GameManager.CGetPlayerInput 0 0; GameManager.CGetPlayerInput 0 1;
          GameManager.CGetPlayerInput 0 2].
Proof.
  destruct (get_player_outputs_without_prompts (H := Examples.mute)
              Scenario.first_and_third 0 Scenario.three_playing
              (Game.mkBase 3 []) eq_refl)
    as (m' & Hr & Hc & _).
  - intros i g0. exists g0. by left.
  - exists m'. split; [exact Hr|]. rewrite Hc. reflexivity.
Defined.

(* ===================================================================== *)
(** ** Frames *)
(* ===================================================================== *)

Section FrameClaims.

Import Frames.

Lemma placeholder_head index :
  exists t, placeholder index = at_sign :: t.
Proof. unfold placeholder. cbn. eauto. Qed.

(** A text that does not hold the first character of [old] is left
    alone. *)
Lemma replace_go_absent (h : N) (t new s : str) :
  h ∉ s -> replace_go (h :: t) new 0 s = s.
Proof.
  induction s as [|c s IH]; [done|].
  intros [Hc Hs]%not_elem_of_cons. cbn [replace_go].
  unfold startswith. cbn [after_prefix].
  destruct (h =? c) eqn:Hhc; [apply N.eqb_eq in Hhc; congruence|].
  by rewrite IH.
Qed.

Lemma substitute_absent names :
  forall index data, at_sign ∉ data -> substitute index names data = data.
Proof.
  induction names as [|n names IH]; intros index data Hd; [done|].
  cbn [substitute]. destruct (placeholder_head index) as [t ->].
  unfold replace. rewrite replace_go_absent by done. by apply IH.
Qed.

Lemma parse_frame_frame (keyframe : bool) (data : str) :
  parse_frame ((if keyframe then py "KEYFRAME " else py "FRAME ") ++ data)
  = Ret (keyframe, data).
Proof.
  unfold parse_frame. destruct keyframe.
  - by rewrite after_prefix_app.
  - change (after_prefix (py "KEYFRAME ") (py "FRAME " ++ data))
      with (@None str).
    by rewrite after_prefix_app.
Qed.

(** X20. What [visualize] queues, the visualizer loop parses back: the
    frame is added at the end of the queue and, when asked, to the replay
    file as one line; its prefix, taken off again by the loop, gives the
    same key-frame flag and the data with the players' names put in, so
    the loop's [RuntimeError] for an unknown prefix is never raised on
    it. Data without an ["@"] is passed as it is, whoever is playing. *)
Theorem visualize_parses_back
    (data : str) (keyframe write_to_file : bool) (s : State) :
  let s' := visualize data keyframe write_to_file s in
  exists frame,
    visualize_queue s' = visualize_queue s ++ [frame]
    /\ parse_frame frame
       = Ret (keyframe, substitute 0 (player_names s) data)
    /\ file s'
       = (if write_to_file then file s ++ frame ++ [LF] else file s)
    /\ player_names s' = player_names s
    /\ game_frame_queue s' = game_frame_queue s
    /\ (at_sign ∉ data \/ player_names s = [] ->
        parse_frame frame = Ret (keyframe, data)).
Proof.
  intros s'. eexists. split; [reflexivity|].
  split; [apply parse_frame_frame|].
  split; [reflexivity|]. split; [reflexivity|]. split; [reflexivity|].
  intros [Hd|Hn].
  - rewrite parse_frame_frame. by rewrite substitute_absent.
  - rewrite parse_frame_frame. by rewrite Hn.
Qed.

Lemma drain_frames_spec frames :
  forall s,
  let queued :=
    map (fun d => py "FRAME " ++ substitute 0 (player_names s) d) frames in
  player_names (drain_frames frames s) = player_names s
  /\ game_frame_queue (drain_frames frames s) = game_frame_queue s
  /\ visualize_queue (drain_frames frames s) = visualize_queue s ++ queued
  /\ file (drain_frames frames s)
     = file s ++ concat (map (fun f => f ++ [LF]) queued).
Proof.
  induction frames as [|d frames IH]; intros s queued.
  { subst queued. cbn. by rewrite !app_nil_r. }
  cbn [drain_frames].
  destruct (IH (visualize d false true s)) as (Hn & Hg & Hq & Hf).
  cbn [player_names visualize] in Hn, Hq, Hf.
  rewrite Hn, Hg, Hq, Hf. subst queued.
  cbn [map concat visualize visualize_queue file game_frame_queue].
  by rewrite <- !app_assoc.
Qed.

(** X21. [handle_game_frame_queue] empties the game's frame queue into
    the visualizer's queue and the replay file, in order and one for
    one: each game frame becomes a ["FRAME "] frame with the players'
    names put in, is queued behind the frames already there, and is
    written to the file as a line; all of them parse back as frames that
    are not key frames. *)
Theorem handle_game_frame_queue_drains (s : State) :
  let s' := handle_game_frame_queue s in
  let queued :=
    map (fun d => py "FRAME " ++ substitute 0 (player_names s) d)
      (game_frame_queue s) in
  game_frame_queue s' = []
  /\ player_names s' = player_names s
  /\ visualize_queue s' = visualize_queue s ++ queued
  /\ file s' = file s ++ concat (map (fun f => f ++ [LF]) queued)
  /\ map parse_frame queued
     = map (fun d => Ret (false, substitute 0 (player_names s) d))
         (game_frame_queue s).
Proof.
  intros s' queued. unfold s', handle_game_frame_queue.
  destruct (drain_frames_spec (game_frame_queue s)
              (mkState (player_names s) (visualize_queue s) [] (file s)))
    as (Hn & Hg & Hq & Hf).
  cbn [player_names visualize_queue game_frame_queue file] in *.
  repeat split; try done.
  subst queued. rewrite map_map. apply map_ext. intros d.
  apply (parse_frame_frame false).
Qed.

End FrameClaims.

(* ===================================================================== *)
(** ** The client *)
(* ===================================================================== *)

Section ClientSession.

Import Client.

Lemma parse_server_message_Some (l : str) :
  exists e m, parse_server_message (Some l) = (e, Some m).
Proof.
  unfold parse_server_message.
  destruct (after_prefix (py "Y: ") l); [by eexists _, _|].
  destruct (after_prefix (py "N: ") l); by eexists _, _.
Qed.

Lemma nonempty_concat_nil (l : list str) :
  Forall (fun x => x <> []) l -> concat l = [] -> l = [].
Proof.
  destruct l as [|x l]; [done|].
  intros [Hx _]%Forall_cons Hc. cbn in Hc.
  by apply app_eq_nil in Hc as [-> _].
Qed.

(** The loop over the lines the server sends before its last, which is
    ["quit"]. *)
Lemma client_loop_lines (ls : list str) (final : str) :
  forall (b pieces : list str) (data : list bytes) (answers extra : list str)
         (w : Writer) (t : list str) (rounds fuel : nat),
  reads 100 data = map utf8 pieces ->
  Forall (fun l => (LF ∉ l) /\ last l <> Some CR) (ls ++ [final]) ->
  forallb is_scalar (concat (map (fun l => l ++ [LF]) (ls ++ [final]))) = true ->
  Forall (fun l => snd (parse_server_message (Some l)) <> Some (py "quit")) ls ->
  snd (parse_server_message (Some final)) = Some (py "quit") ->
  concat b ++ concat pieces
  = concat (map (fun l => l ++ [LF]) (ls ++ [final])) ->
  Forall (fun x => x <> []) b ->
  Forall (fun p => p <> []) pieces ->
  length answers = length (filter (fun l => wants_answer l = true) ls) ->
  Forall (fun a => forallb is_scalar a = true) answers ->
  wstate w = Healthy ->
  (length ls < rounds)%nat ->
  (length pieces <= fuel)%nat ->
  client_loop rounds fuel
    (mkState (mkInput (map Chunk data) b) w (answers ++ extra) t)
  = (Ret tt,
     mkState (mkInput [] [])
       (mkWriter Healthy
          (sent w
           ++ concat (map (fun a => utf8 (if endswith a [LF] then a
                                          else a ++ [LF])) answers)))
       extra (t ++ flat_map shows ls)).
Proof.
  induction ls as [|l ls IH];
    intros b pieces data answers extra w t rounds fuel
      Hrd Hl Hs Hnq Hq Ht Hb Hp Hans Henc Hw Hrounds Hfuel.
  - (* the last line *)
    destruct rounds as [|rounds]; [cbn in Hrounds; lia|].
    cbn [app map concat] in Ht, Hs, Hl. rewrite app_nil_r in Ht, Hs.
    apply Forall_cons in Hl as [[Hlf Hcr] _].
    assert (Hc : has_crlf (final ++ LF :: []) = false)
      by (by apply has_crlf_line).
    destruct (readline_line b pieces data final [] fuel Hrd Ht Hlf Hc Hs Hb Hp
                Hfuel)
      as (b' & d' & p' & Hr & Hrd' & Hcat & Hb' & Hp' & _).
    apply app_eq_nil in Hcat as [Hbn Hpn].
    apply (nonempty_concat_nil _ Hb') in Hbn.
    apply (nonempty_concat_nil _ Hp') in Hpn. subst b' p'.
    apply reads_nil in Hrd' as ->.
    cbn [client_loop]. unfold bind at 1. unfold client_readline.
    cbn [input]. rewrite Hr.
    destruct (parse_server_message (Some final)) as [e m]. cbn in Hq.
    subst m. rewrite bool_decide_eq_true_2 by done.
    destruct answers; [|done]. unfold ret. cbn.
    destruct w as [ws sn]. cbn in Hw. subst ws.
    by rewrite !app_nil_r.
  - (* a line before the last *)
    destruct rounds as [|rounds]; [cbn in Hrounds; lia|].
    cbn [length] in Hrounds.
    pose proof (has_crlf_lines _ Hl) as Hc.
    cbn [app map concat] in Ht, Hs, Hc, Hl.
    rewrite <- app_assoc in Ht, Hs, Hc. cbn [app] in Ht, Hs, Hc.
    apply Forall_cons in Hl as [[Hlf Hcr] Hl].
    apply Forall_cons in Hnq as [Hnql Hnq].
    destruct (readline_line b pieces data l _ fuel Hrd Ht Hlf Hc Hs Hb Hp
                Hfuel)
      as (b' & d' & p' & Hr & Hrd' & Hcat & Hb' & Hp' & Hlen).
    assert (Hs' : forallb is_scalar
                    (concat (map (fun l => l ++ [LF]) (ls ++ [final])))
                  = true).
    { change (l ++ LF :: ?x) with (l ++ [LF] ++ x) in Hs.
      rewrite app_assoc in Hs. by apply forallb_app_true in Hs as [_ Hs]. }
    cbn [client_loop]. unfold bind at 1. unfold client_readline.
    cbn [input]. rewrite Hr. cbn [writer keyboard terminal].
    cbn [flat_map].
    destruct (parse_server_message_Some l) as (e & m & Hparse).
    assert (Hshows : shows l
                     = if bool_decide (m = py "quit")
                          || bool_decide (m = py "PING") then []
                       else m :: (if e then [py " > "] else []))
      by (unfold shows; by rewrite Hparse).
    assert (Hwants : wants_answer l
                     = (e && negb (bool_decide (m = py "quit")
                                   || bool_decide (m = py "PING"))))
      by (unfold wants_answer; rewrite Hparse; by destruct e).
    rewrite Hparse in Hnql |- *. cbn [snd] in Hnql.
    rewrite (bool_decide_eq_false_2 (m = py "quit")) in Hshows, Hwants |- *
      by congruence.
    cbn [orb] in Hshows, Hwants. rewrite Hshows.
    destruct (bool_decide (m = py "PING")) eqn:Hping.
    { (* a keepalive *)
      rewrite andb_false_r in Hwants.
      rewrite filter_cons_False in Hans by (rewrite Hwants; done).
      rewrite (IH b' p' d' answers extra w t rounds fuel); try done; lia. }
    cbn [negb] in Hwants. rewrite andb_true_r in Hwants.
    unfold bind at 1. unfold print at 1, modify at 1.
    destruct e.
    + (* a prompt *)
      rewrite filter_cons_True in Hans by done. cbn [length] in Hans.
      destruct answers as [|a answers]; [done|].
      injection Hans as Hans.
      apply Forall_cons in Henc as [Ha Henc].
      unfold bind at 1. unfold ask. unfold bind at 1.
      unfold print at 1, modify at 1. cbn [keyboard app].
      unfold bind at 1. unfold client_writeline at 1.
      cbn [writer input keyboard terminal].
      assert (Hdata : encode (if endswith a [LF] then a else a ++ [LF])
                      = Some (utf8 (if endswith a [LF] then a
                                    else a ++ [LF]))).
      { apply encode_scalar. destruct (endswith a [LF]); [done|].
        by rewrite forallb_app, Ha. }
      rewrite (writeline_healthy a w _ Hw Hdata).
      rewrite (IH b' p' d' answers extra _ _ rounds fuel); try done; [|lia..].
      cbn [sent map concat app]. by rewrite <- !app_assoc.
    + (* a notice *)
      rewrite filter_cons_False in Hans by (rewrite Hwants; done).
      rewrite (IH b' p' d' answers extra w _ rounds fuel); try done; [|lia..].
      by rewrite <- !app_assoc.
Qed.

(** X22. A session of the client. The server's lines arrive as the
    chunks [data], of any sizes, the last line the farewell ["quit"];
    the client's [readline] takes at most 100 bytes of them at a time,
    and no read ends inside a character: [pieces] is the text that the
    reads return, otherwise any way of cutting the text. The client greets with ["HELLO"], shows every message but
    the keepalive ["PING"] without its prefix, asks the user after each
    message marked ["Y: "] and after no other, sends each answer as a
    line, in order, and takes no more of the user's lines than there were
    such messages; at the farewell it closes its transport and says so. *)
Theorem start_client_session
    (ls : list str) (final : str) (pieces : list str) (data : list bytes)
    (answers extra : list str) (w : Writer) (t : list str)
    (rounds fuel : nat) :
  Forall (fun l => (LF ∉ l) /\ last l <> Some CR
                   /\ forallb is_scalar l = true) (ls ++ [final]) ->
  Forall (fun l => snd (parse_server_message (Some l)) <> Some (py "quit"))
    ls ->
  snd (parse_server_message (Some final)) = Some (py "quit") ->
  Forall (fun p => p <> []) pieces ->
  concat pieces = concat (map (fun l => l ++ [LF]) (ls ++ [final])) ->
  reads 100 data = map utf8 pieces ->
  length answers = length (filter (fun l => wants_answer l = true) ls) ->
  Forall (fun a => forallb is_scalar a = true) answers ->
  wstate w = Healthy ->
  (length ls < rounds)%nat ->
  (length pieces <= fuel)%nat ->
  start_client rounds fuel
    (mkState (mkInput (map Chunk data) []) w (answers ++ extra) t)
  = (Ret tt,
     mkState (mkInput [] [])
       (mkWriter Closing
          (sent w ++ py "HELLO" ++ [LF]
           ++ concat (map (fun a => utf8 (if endswith a [LF] then a
                                          else a ++ [LF])) answers)))
       extra
       (t ++ flat_map shows ls ++ [py "The connection has been closed"])).
Proof.
  intros Hl Hnq Hq Hp Hcat Hrd Hans Henc Hw Hrounds Hfuel.
  unfold start_client. unfold bind at 1. unfold client_writeline at 1.
  cbn [writer input keyboard terminal].
  rewrite (writeline_healthy (py "HELLO") w (py "HELLO" ++ [LF]) Hw)
    by reflexivity.
  unfold bind at 1.
  rewrite (client_loop_lines ls final [] pieces data answers extra
             (mkWriter Healthy (sent w ++ py "HELLO" ++ [LF])) t rounds fuel);
    try done.
  - unfold bind at 1. unfold modify at 1. unfold print, modify.
    cbn [writer_close input writer keyboard terminal sent wstate].
    by rewrite <- !app_assoc.
  - eapply Forall_impl; [exact Hl|]. by intros l (? & ? & _).
  - clear -Hl. induction Hl as [|l ls' (_ & _ & Hs) _ IH]; [done|].
    cbn [map concat]. by rewrite !forallb_app, Hs, IH.
Qed.

End ClientSession.

(** A notice, a keepalive and the prompt of the handshake, then the
    farewell; the user types one line. *)
Lemma start_client_session_witness :
  Client.start_client 4 2
    (Client.mkState
       (mkInput [Chunk (py "N: Welcome" ++ [LF] ++ py "PING" ++ [LF]
                        ++ py "Y: What is");
                 Chunk (py " your name?" ++ [LF] ++ py "N: quit" ++ [LF])] [])
       (mkWriter Healthy []) [py "alice"; py "unused"] [])
  = (Ret tt,
     Client.mkState (mkInput [] [])
       (mkWriter Closing (py "HELLO" ++ [LF] ++ py "alice" ++ [LF]))
       [py "unused"]
       [py "Welcome"; py "What is your name?"; py " > ";
        py "The connection has been closed"]).
Proof.
  refine (start_client_session
            [py "N: Welcome"; py "PING"; py "Y: What is your name?"]
            (py "N: quit")
            [py "N: Welcome" ++ [LF] ++ py "PING" ++ [LF] ++ py "Y: What is";
             py " your name?" ++ [LF] ++ py "N: quit" ++ [LF]]
            [py "N: Welcome" ++ [LF] ++ py "PING" ++ [LF] ++ py "Y: What is";
             py " your name?" ++ [LF] ++ py "N: quit" ++ [LF]]
            [py "alice"] [py "unused"] (mkWriter Healthy []) [] 4 2
            _ _ _ _ _ _ _ _ _ _ _).
  - repeat constructor; try done;
      intros Hin; repeat (apply elem_of_cons in Hin as [Hin|Hin]; [done|]);
      by apply elem_of_nil in Hin.
  - repeat constructor; discriminate.
  - reflexivity.
  - by repeat constructor.
  - reflexivity.
  - reflexivity.
  - vm_compute. reflexivity.
  - by repeat constructor.
  - reflexivity.
  - cbn. lia.
  - cbn. lia.
Defined.

(* ===================================================================== *)
(** ** A seated game of rock, paper, scissors *)
(* ===================================================================== *)

Section Seats.

Import RockPaperScissors Table.

Lemma length_two {A} (l : list A) :
  length l = 2%nat -> exists a b, l = [a; b].
Proof. destruct l as [|a [|b [|c l]]]; try done. by eexists _, _. Qed.

Lemma set_item_in_range {A} (l : list A) (i : nat) (x : A) :
  (i < length l)%nat -> set_item l i x = Ret (<[i := x]> l).
Proof. intros Hi. unfold set_item. by rewrite (proj2 (Nat.ltb_lt _ _) Hi). Qed.

Lemma set_item_out_of_range {A} (l : list A) (i : nat) (x : A) :
  (length l <= i)%nat -> set_item l i x = Raise IndexError.
Proof. intros Hi. unfold set_item. by rewrite (proj2 (Nat.ltb_ge _ _) Hi). Qed.

Lemma setup_game_seats_two_players (names : list str) (g0 : State) :
  exists g',
    Game.setup_game (Game.set_players 2 names g0) = (Ret tt, g')
    /\ seated g'
    /\ scores g' = [0%Z; 0%Z].
Proof. eexists. split; [reflexivity|]. by repeat split. Qed.

(** [setup_game] seats exactly two players: with two it returns
    with both scores at zero, the winning score at three and a slot for
    each player's move; with any other number it raises [RuntimeError]
    and leaves the game as it was. *)
Lemma setup_game_seats_two (g : State) :
  (player_count g = 2%nat ->
   exists g',
     setup_game g = (Ret tt, g')
     /\ seated g'
     /\ scores g' = [0%Z; 0%Z]
     /\ winning_score g' = 3%Z
     /\ moves g' = [None; None]
     /\ revealed g' = false
     /\ player_names g' = player_names g)
  /\ (player_count g <> 2%nat -> setup_game g = (Raise RuntimeError, g)).
Proof.
  unfold setup_game. split.
  - intros ->. eexists. split; [reflexivity|]. by repeat split.
  - intros Hn. by rewrite (proj2 (Nat.eqb_neq _ _) Hn).
Qed.

(** X23. In a seated game every hook of a round stays in range and
    keeps the game seated: [prepare_round] clears the moves,
    [on_player_output] and [handle_player_output] return for the players
    0 and 1 (the latter storing the move at the player's place) and raise
    [IndexError] for any other index, [update_game] ends in a return or
    in [GameOverError] and in nothing else, and [get_visualizer_data]
    returns. None of them but [update_game] changes the scores. *)
Theorem seated_game_stays_in_range (g : State) :
  seated g ->
  (forall round, exists g',
     prepare_round round g = (Ret tt, g')
     /\ seated g' /\ moves g' = [None; None] /\ scores g' = scores g)
  /\ (forall round i o, (i < 2)%nat -> exists g',
        on_player_output round i o g = (Ret tt, g')
        /\ seated g' /\ moves g' = moves g /\ scores g' = scores g)
  /\ (forall round i o, (i < 2)%nat -> exists g',
        handle_player_output round i o g = (Ret tt, g')
        /\ seated g' /\ moves g' !! i = Some o /\ scores g' = scores g)
  /\ (forall round i o, (2 <= i)%nat ->
        on_player_output round i o g = (Raise IndexError, g)
        /\ handle_player_output round i o g = (Raise IndexError, g))
  /\ (forall round, exists r g',
        update_game round g = (r, g')
        /\ (r = Ret tt \/ r = Raise GameOverError) /\ seated g')
  /\ (exists g', get_visualizer_data g = (Ret tt, g')).
Proof.
  intros (Hs & Hw & Hm).
  split; [|split; [|split; [|split; [|split]]]].
  - intros round. eexists. split; [reflexivity|].
    destruct (length_two _ Hm) as (m0 & m1 & Hmoves).
    unfold seated. cbn. rewrite Hmoves. cbn. by repeat split.
  - intros round i o Hi. unfold on_player_output.
    rewrite set_item_in_range by lia. eexists. split; [reflexivity|].
    unfold seated. cbn. rewrite length_insert. by repeat split.
  - intros round i o Hi. unfold handle_player_output.
    rewrite set_item_in_range by lia. eexists. split; [reflexivity|].
    unfold seated. cbn. rewrite length_insert.
    repeat split; try done. apply list_lookup_insert_eq. lia.
  - intros round i o Hi. unfold on_player_output, handle_player_output.
    by rewrite !set_item_out_of_range by lia.
  - intros round.
    destruct (length_two _ Hm) as (m0 & m1 & Hmoves).
    destruct (length_two _ Hs) as (s0 & s1 & Hscores).
    destruct (update_game_two round g m0 m1 s0 s1 Hmoves Hscores)
      as (r & g' & w & Hu & _ & Hm' & _ & _ & Hsc & Hr).
    exists r, g'. split; [done|]. split.
    + rewrite Hr. destruct (invalid m0 || invalid m1); [by right|].
      destruct (existsb _ _); [by right|by left].
    + unfold seated. rewrite Hm', Hsc. split; [|split; [|done]].
      * destruct (invalid m0 || invalid m1); [done|].
        destruct (w =? 0)%Z; [done|]. by destruct (w =? 1)%Z.
      * unfold update_game in Hu. cbn [moves with_round] in Hu.
        rewrite Hmoves in Hu.
        destruct (invalid m0 || invalid m1).
        { injection Hu as _ <-. done. }
        destruct (get_round_winner _) as [rw| |]; try (injection Hu as _ <-; done).
        destruct (if (rw =? -1)%Z then _ else _) as [sc| |];
          try (injection Hu as _ <-; done).
        destruct (get_game_winner _) as [gw| |];
          try (injection Hu as _ <-; done).
        destruct (-1 <? gw)%Z; injection Hu as _ <-; done.
  - destruct (length_two _ Hm) as (m0 & m1 & Hmoves).
    destruct (length_two _ Hs) as (s0 & s1 & Hscores).
    destruct (get_round_winner_two g m0 m1 Hmoves) as (w & Hr & _).
    unfold get_visualizer_data. rewrite Hr.
    unfold get_game_winner. rewrite Hscores.
    destruct (winning_score g <=? s0)%Z; [by eexists|].
    destruct (winning_score g <=? s1)%Z; by eexists.
Qed.

End Seats.

Section TwoPlayers.

Import GameManager Lobby.
Variable sample : list nat -> nat -> list nat.
Variable shuffle : list nat -> list nat.
Variable sleep : nat -> Server.State -> Server.State.

(** X24. A session of rock-paper-scissors always starts with exactly
    two players: with a generator whose shuffles are permutations and
    whose samples have the size asked for, the roster that
    [wait_for_connections] returns for that game has two players,
    however many connections are live, so that the [setup_game] of the
    session returns with the game seated. *)
Theorem rock_paper_scissors_starts_with_two
    (fuel slept : nat) (m m' : State RockPaperScissors.State)
    (g : RockPaperScissors.State) (roster : list nat) :
  game m = Some g ->
  (forall l, shuffle l ≡ₚ l) ->
  (forall l k, (k <= length l)%nat ->
     length (sample l k) = k /\ sample l k ⊆+ l) ->
  wait_for_connections sample shuffle sleep fuel slept m = (Ret roster, m') ->
  length roster = 2%nat
  /\ forall names g0, exists g',
       Game.setup_game (Game.set_players (length roster) names g0)
       = (Ret tt, g')
       /\ Table.seated g'
       /\ RockPaperScissors.scores g' = [0%Z; 0%Z].
Proof.
  intros Hg Hshuffle Hsample Hr.
  destruct (wait_for_connections_returns sample shuffle sleep
              fuel slept m m' g roster Hg Hr)
    as (_ & _ & _ & Hmin & _ & _ & _ & Hroster & _).
  cbn [Game.min_connections Game.max_connections RockPaperScissors.game]
    in Hmin, Hroster.
  assert (Hlen : length roster = 2%nat).
  { set (live := Server.connections (server m')) in *.
    change (0 <? 2)%Z with true in Hroster. cbn [andb] in Hroster.
    destruct (Z.ltb_spec 2 (Z.of_nat (length live))) as [Hover|Hfit].
    - rewrite Hroster.
      destruct (Hsample live (Z.to_nat 2)) as [Hl _]; [lia|].
      rewrite Hl. reflexivity.
    - rewrite Hroster, Hshuffle. lia. }
  split; [done|]. intros names g0. rewrite Hlen.
  destruct (setup_game_seats_two_players names g0) as (g' & Hs & Hseat & Hsc).
  by exists g'.
Qed.

End TwoPlayers.

(** A game just set up: bob's move is stored at his place. *)
Lemma seated_game_stays_in_range_witness :
  exists g',
    RockPaperScissors.handle_player_output 0 1 (Some (py "Rock"))
      (RockPaperScissors.mkState 2 [] [0%Z; 0%Z] 3 [true; true]
         [None; None] false) = (Ret tt, g')
    /\ Table.seated g'
    /\ RockPaperScissors.moves g' !! 1%nat = Some (Some (py "Rock")).
Proof.
  destruct (seated_game_stays_in_range
              (RockPaperScissors.mkState 2 [] [0%Z; 0%Z] 3 [true; true]
                 [None; None] false))
    as (_ & _ & Hhandle & _).
  - by repeat split.
  - destruct (Hhandle 0%Z 1%nat (Some (py "Rock"))) as (g' & Hr & Hs & Hm & _);
      [lia|].
    by exists g'.
Defined.

Lemma rock_paper_scissors_starts_with_two_witness :
  length [1%nat; 0%nat] = 2%nat
  /\ forall names g0, exists g',
       Game.setup_game (Game.set_players (length [1%nat; 0%nat]) names g0)
       = (Ret tt, g')
       /\ Table.seated g'
       /\ RockPaperScissors.scores g' = [0%Z; 0%Z].
Proof.
  refine (rock_paper_scissors_starts_with_two Examples.first_k
            Examples.reversed Examples.calm 2 0
            (Scenario.lobby RockPaperScissors.new)
            (snd (Lobby.wait_for_connections Examples.first_k
                    Examples.reversed Examples.calm 2 0
                    (Scenario.lobby RockPaperScissors.new)))
            RockPaperScissors.new [1%nat; 0%nat] eq_refl _ _ _).
  - intros l. unfold Examples.reversed. symmetry. apply Permutation_rev.
  - intros l k Hk. unfold Examples.first_k. split.
    + rewrite length_take. lia.
    + apply sublist_submseteq, sublist_take.
  - vm_compute. reflexivity.
Defined.

(* ===================================================================== *)
(** ** Stopping the server *)
(* ===================================================================== *)

Section Stopping.

Import Server Registry Shutdown.

Lemma conn_same_object (c : nat) (s s' : State) :
  objects s' !! c = objects s !! c -> conn c s' = conn c s.
Proof. unfold conn. by intros ->. Qed.

(** Closing the connections of a list that is the live list. *)
Lemma close_all_spec fuel (l : list nat) :
  forall s,
  (2 <= fuel)%nat ->
  NoDup l ->
  connections s = l ->
  exists s',
    close_all fuel l s = (Ret tt, s')
    /\ connections s' = []
    /\ connection_queue s' = connection_queue s
    /\ (forall c, c ∉ l -> objects s' !! c = objects s !! c)
    /\ (forall x, x ∈ disconnection_queue s -> x ∈ disconnection_queue s')
    /\ (forall n, names s !! n = None -> names s' !! n = None)
    /\ (forall c, c ∈ l ->
        is_closed (conn c s') = true
        /\ c ∈ disconnection_queue s'
        /\ names s' !! name (conn c s) = None).
Proof.
  induction l as [|c l IH]; intros s Hfuel Hnd Hl.
  { exists s. repeat split; try done; by match goal with Hx : _ ∈ [] |- _ => apply elem_of_nil in Hx end. }
  apply NoDup_cons in Hnd as [Hc Hnd].
  destruct (close_connection_registry fuel c s Hfuel)
    as (s1 & Hr & Hn & _ & Hlive & Hcl & Hname & _ & Ho & Hq).
  destruct (close_connection_spec fuel c s Hfuel)
    as (s1' & extra & Hr' & Hd & _).
  rewrite Hr in Hr'. injection Hr' as <-.
  destruct Hlive as [Hlive _]; [rewrite Hl; by apply NoDup_cons|].
  rewrite Hl in Hlive. cbn [list_remove] in Hlive.
  rewrite decide_True in Hlive by done.
  destruct (IH s1 Hfuel Hnd Hlive)
    as (s' & Hr2 & Hlive' & Hq' & Ho' & Hd' & Hn' & Hall).
  exists s'. cbn [close_all]. rewrite (bind_ret _ _ _ _ _ Hr).
  split; [done|]. split; [done|]. split; [congruence|].
  split.
  { intros c' [Hc' Hl']%not_elem_of_cons. rewrite Ho' by done. by apply Ho. }
  split.
  { intros x Hx. apply Hd'. rewrite Hd. apply elem_of_app. by left. }
  split.
  { intros n Hnone. apply Hn'. rewrite Hn.
    apply lookup_delete_None. by right. }
  intros c' [->|Hin]%elem_of_cons.
  - split; [|split].
    + rewrite (conn_same_object c s1 s') by (by apply Ho'). done.
    + apply Hd'. rewrite Hd. apply elem_of_app. right. left.
    + apply Hn'. rewrite Hn. apply lookup_delete_eq.
  - destruct (Hall c' Hin) as (Hcl' & Hdq' & Hnm').
    split; [done|]. split; [done|].
    assert (c' <> c) by (intros ->; done).
    by rewrite (conn_same_object c' s s1) in Hnm' by (by apply Ho).
Qed.

(** X25. [stop_server] closes every live connection: with no connection
    twice in the live list, the list is empty afterwards, and every
    connection that was in it has its transport closing, an event in the
    disconnect queue and its name free; the connections that were not
    live are untouched and the connect queue is as it was. *)
Theorem stop_server_closes_all (fuel : nat) (s : State) :
  (2 <= fuel)%nat ->
  NoDup (connections s) ->
  exists s',
    stop_server fuel s = (Ret tt, s')
    /\ connections s' = []
    /\ connection_queue s' = connection_queue s
    /\ (forall c, c ∉ connections s -> objects s' !! c = objects s !! c)
    /\ (forall c, c ∈ connections s ->
        is_closed (conn c s') = true
        /\ c ∈ disconnection_queue s'
        /\ names s' !! name (conn c s) = None).
Proof.
  intros Hfuel Hnd.
  destruct (close_all_spec fuel (connections s) s Hfuel Hnd eq_refl)
    as (s' & Hr & Hl & Hq & Ho & _ & _ & Hall).
  exists s'. unfold stop_server. unfold bind at 1. unfold gets at 1.
  split; [exact Hr|]. split; [exact Hl|]. split; [exact Hq|].
  split; [exact Ho|exact Hall].
Qed.

End Stopping.

Lemma stop_server_closes_all_witness :
  exists s',
    Shutdown.stop_server 3 Scenario.two_registered = (Ret tt, s')
    /\ Server.connections s' = []
    /\ Server.is_closed (Server.conn 1 s') = true.
Proof.
  destruct (stop_server_closes_all 3 Scenario.two_registered)
    as (s' & Hr & Hl & _ & _ & Hall).
  - lia.
  - vm_compute. repeat constructor; intros Hin;
      repeat (apply elem_of_cons in Hin as [Hin|Hin]; [done|]);
      by apply elem_of_nil in Hin.
  - exists s'. split; [exact Hr|]. split; [exact Hl|].
    apply (Hall 1%nat). vm_compute. right. left.
Defined.

(* ===================================================================== *)
(** ** A browser's request *)
(* ===================================================================== *)

Section Browser.

Import Server.

Lemma update_conn_input_twice (c : nat) (i1 i2 : Input) (s : State) :
  update_conn c (with_input i2) (update_conn c (with_input i1) s)
  = update_conn c (with_input i2) s.
Proof.
  unfold update_conn at 1 3. rewrite conn_update_conn.
  unfold update_conn. cbn. by rewrite insert_insert_eq.
Qed.

(** [read_message] when the text ahead on the connection begins with a
    line that ends with ["\r\n"] and is not ["quit"]. *)
Lemma read_message_crlf_line (fuel c : nat) (s : State)
    (b pieces : list str) (data : list bytes) (line text : str) :
  input (conn c s) = mkInput (map Chunk data) b ->
  reads 100 data = map utf8 pieces ->
  concat b ++ concat pieces = line ++ CR :: LF :: text ->
  LF ∉ line ->
  forallb is_scalar (line ++ CR :: LF :: text) = true ->
  Forall (fun x => x <> []) b ->
  Forall (fun p => p <> []) pieces ->
  (length pieces <= fuel)%nat ->
  line <> py "quit" ->
  exists b' data' pieces',
    read_message fuel c s
    = (Ret (Some line),
       update_conn c (with_input (mkInput (map Chunk data') b')) s)
    /\ reads 100 data' = map utf8 pieces'
    /\ concat b' ++ concat pieces' = text
    /\ Forall (fun x => x <> []) b'
    /\ Forall (fun p => p <> []) pieces'
    /\ (length pieces' <= length pieces)%nat.
Proof.
  intros Hin Hrd Ht Hlf Hs Hb Hp Hfuel Hq.
  assert (Hshape : forall t : str,
            line ++ CR :: LF :: t = (line ++ [CR]) ++ LF :: t).
  { intros t. by rewrite <- app_assoc. }
  rewrite Hshape in Ht, Hs.
  destruct (readline_cut b pieces data (line ++ [CR]) line text fuel Hrd Ht)
    as (b' & d' & p' & Hr & Hrd' & Hcat & Hb' & Hp' & Hlen); try done.
  { by apply no_LF_app_CR. }
  { intros x. rewrite <- app_assoc. cbn [app]. apply find_eol_CRLF.
    apply no_LF_no_crlf. by apply no_LF_app_CR. }
  exists b', d', p'. split; [|done].
  unfold read_message. unfold bind at 1. unfold conn_readline.
  rewrite Hin, Hr. by rewrite (bool_decide_eq_false_2 _ Hq).
Qed.

(** The rest of a request: header lines and the empty line that ends
    them. *)
Lemma read_request_headers (c : nat) (headers : list str) :
  forall (fuel : nat) (s : State) (b pieces : list str) (data : list bytes),
  input (conn c s) = mkInput (map Chunk data) b ->
  reads 100 data = map utf8 pieces ->
  concat b ++ concat pieces
  = concat (map (fun l => l ++ [CR; LF]) (headers ++ [[]])) ->
  Forall (fun l => (LF ∉ l) /\ l <> [] /\ l <> py "quit") headers ->
  forallb is_scalar
    (concat (map (fun l => l ++ [CR; LF]) (headers ++ [[]]))) = true ->
  Forall (fun x => x <> []) b ->
  Forall (fun p => p <> []) pieces ->
  (length pieces + length headers + 1 <= fuel)%nat ->
  read_request fuel c s
  = (Ret tt, update_conn c (with_input (mkInput [] [])) s).
Proof.
  induction headers as [|h headers IH];
    intros fuel s b pieces data Hin Hrd Ht Hh Hs Hb Hp Hfuel.
  - destruct fuel as [|fuel]; [lia|].
    change (concat (map (fun l => l ++ [CR; LF]) ([] ++ [[]])))
      with ([] ++ CR :: LF :: @nil N) in Ht, Hs.
    destruct (read_message_crlf_line fuel c s b pieces data [] [] Hin Hrd Ht)
      as (b' & d' & p' & Hr & Hrd' & Hcat & Hb' & Hp' & _); try done.
    { by intros ?%elem_of_nil. }
    { cbn in Hfuel. lia. }
    apply app_eq_nil in Hcat as [Hbn Hpn].
    apply (nonempty_concat_nil _ Hb') in Hbn.
    apply (nonempty_concat_nil _ Hp') in Hpn. subst b' p'.
    apply reads_nil in Hrd' as ->.
    cbn [read_request]. by rewrite (bind_ret _ _ _ _ _ Hr).
  - destruct fuel as [|fuel]; [lia|].
    apply Forall_cons in Hh as [(Hlf & Hne & Hq) Hh].
    cbn [app map concat] in Ht, Hs.
    rewrite <- app_assoc in Ht, Hs. cbn [app] in Ht, Hs.
    destruct (read_message_crlf_line fuel c s b pieces data h _ Hin Hrd Ht)
      as (b' & d' & p' & Hr & Hrd' & Hcat & Hb' & Hp' & Hlen); try done.
    { cbn [length] in Hfuel. lia. }
    assert (Hs' : forallb is_scalar
                    (concat (map (fun l => l ++ [CR; LF]) (headers ++ [[]])))
                  = true).
    { change (h ++ CR :: LF :: ?t) with (h ++ [CR; LF] ++ t) in Hs.
      rewrite app_assoc in Hs. by apply forallb_app_true in Hs as [_ Hs]. }
    cbn [read_request]. rewrite (bind_ret _ _ _ _ _ Hr).
    destruct h as [|x h]; [done|].
    rewrite (IH fuel _ b' p' d'); try done.
    + by rewrite update_conn_input_twice.
    + by rewrite conn_update_conn.
    + cbn [length] in Hfuel. lia.
Qed.

(** X26. A browser's request ([GET /...], header lines, an empty line,
    each ended by ["\r\n"]) is read to its empty line and answered with
    the fixed page, after which the transport is closed by the server.
    The request arrives as the chunks [data], of any sizes; the server's
    [readline] takes at most 100 bytes of them at a time, and no read
    ends inside a character: [pieces] is the text that the reads return,
    otherwise any way of cutting the request. The connection is never
    registered, and, being closed without [close_connection], leaves no
    disconnect event. *)
Theorem handle_connection_serves_browser
    (fuel : nat) (peer : str * N) (w : Writer) (s : State)
    (request : str) (headers pieces : list str) (data : list bytes) :
  let c := fresh (dom (objects s)) in
  let lines := request :: headers ++ [[]] in
  startswith request (py "GET /") = true ->
  LF ∉ request ->
  Forall (fun l => (LF ∉ l) /\ l <> [] /\ l <> py "quit") headers ->
  forallb is_scalar (concat (map (fun l => l ++ [CR; LF]) lines)) = true ->
  Forall (fun p => p <> []) pieces ->
  concat pieces = concat (map (fun l => l ++ [CR; LF]) lines) ->
  reads 100 data = map utf8 pieces ->
  wstate w = Healthy ->
  (length pieces + length headers + 1 <= fuel)%nat ->
  exists s',
    handle_connection fuel peer (map Chunk data) w s = (Ret c, s')
    /\ writer (conn c s')
       = mkWriter Closing (sent w ++ utf8 http_response ++ [LF])
    /\ type (conn c s') = BROWSER
    /\ input (conn c s') = mkInput [] []
    /\ connections s' = connections s
    /\ names s' = names s
    /\ connection_queue s' = connection_queue s
    /\ disconnection_queue s' = disconnection_queue s
    /\ close_calls s' = close_calls s
    /\ ping_tasks s' = ping_tasks s.
Proof.
  intros c lines Hget Hlf Hh Hs Hp Hcat Hrd Hw Hfuel.
  set (s0 := with_objects
               (<[c := mkConnection peer
                         (fst peer ++ py ":" ++ decimal (snd peer))
                         NoType (mkInput (map Chunk data) []) w ∅]>
                  (objects s)) s).
  assert (Hc0 : conn c s0
                = mkConnection peer (fst peer ++ py ":" ++ decimal (snd peer))
                    NoType (mkInput (map Chunk data) []) w ∅).
  { unfold conn, s0. cbn. by rewrite lookup_insert_eq. }
  assert (Hquit : request <> py "quit").
  { intros ->. vm_compute in Hget. discriminate. }
  subst lines. cbn [map concat] in Hcat, Hs.
  rewrite <- app_assoc in Hcat, Hs. cbn [app] in Hcat, Hs.
  destruct (read_message_crlf_line fuel c s0 [] pieces data request _
              ltac:(by rewrite Hc0) Hrd Hcat Hlf Hs)
    as (b1 & d1 & p1 & Hr1 & Hrd1 & Hcat1 & Hb1 & Hp1 & Hlen1);
    try done; [lia|].
  set (s1 := update_conn c (with_input (mkInput (map Chunk d1) b1)) s0) in *.
  set (s2 := update_conn c (with_type BROWSER) s1).
  assert (Hs' : forallb is_scalar
                  (concat (map (fun l => l ++ [CR; LF]) (headers ++ [[]])))
                = true).
  { change (request ++ CR :: LF :: ?t)
      with (request ++ [CR; LF] ++ t) in Hs.
    rewrite app_assoc in Hs. by apply forallb_app_true in Hs as [_ Hs]. }
  assert (Hr2 : read_request fuel c s2
                = (Ret tt, update_conn c (with_input (mkInput [] [])) s2)).
  { apply (read_request_headers c headers fuel s2 b1 p1 d1); try done.
    - unfold s2, s1. by rewrite !conn_update_conn.
    - lia. }
  set (s3 := update_conn c (with_input (mkInput [] [])) s2) in *.
  assert (Hc3 : conn c s3
                = mkConnection peer (fst peer ++ py ":" ++ decimal (snd peer))
                    BROWSER (mkInput [] []) w ∅).
  { unfold s3, s2, s1. rewrite !conn_update_conn, Hc0. reflexivity. }
  set (s4 := update_conn c
               (with_writer
                  (mkWriter Healthy (sent w ++ utf8 http_response ++ [LF])))
               s3).
  assert (Hr3 : send_message fuel c http_response s3 = (Ret tt, s4)).
  { unfold send_message, send_message_with.
    unfold bind at 1. unfold gets at 1. rewrite Hc3. cbn [type].
    unfold bind at 1. unfold conn_writeline. rewrite Hc3. cbn [writer].
    rewrite (writeline_healthy http_response w
               (utf8 http_response ++ [LF]) Hw) by reflexivity.
    reflexivity. }
  eexists. split.
  { unfold handle_connection.
    unfold bind at 1. unfold gets at 1. fold c.
    unfold bind at 1. unfold modify at 1. fold s0.
    rewrite (bind_ret _ _ _ _ _ Hr1). rewrite Hget.
    unfold bind at 1. unfold modify at 1. fold s2.
    unfold bind at 1. unfold handle_browser_connection.
    rewrite (bind_ret _ _ _ _ _ Hr2).
    rewrite (bind_ret _ _ _ _ _ Hr3).
    unfold modify, ret. reflexivity. }
  rewrite conn_update_conn. unfold s4. rewrite conn_update_conn, Hc3.
  by repeat split.
Qed.

End Browser.

Lemma handle_connection_serves_browser_witness :
  exists s',
    Server.handle_connection 4 (py "10.0.0.3", 5001)
      [Chunk (py "GET / HTTP/1.1" ++ [CR]);
       Chunk (LF :: py "Host: x" ++ [CR; LF; CR; LF])]
      (mkWriter Healthy []) Server.init
    = (Ret (fresh (dom (Server.objects Server.init))), s')
    /\ Server.connections s' = []
    /\ Server.disconnection_queue s' = []
    /\ Server.is_closed
         (Server.conn (fresh (dom (Server.objects Server.init))) s') = true.
Proof.
  destruct (handle_connection_serves_browser 4 (py "10.0.0.3", 5001)
              (mkWriter Healthy []) Server.init (py "GET / HTTP/1.1")
              [py "Host: x"]
              [py "GET / HTTP/1.1" ++ [CR];
               LF :: py "Host: x" ++ [CR; LF; CR; LF]]
              [py "GET / HTTP/1.1" ++ [CR];
               LF :: py "Host: x" ++ [CR; LF; CR; LF]])
    as (s' & Hr & Hw & _ & _ & Hc & _ & _ & Hd & _).
  - reflexivity.
  - intros Hin; repeat (apply elem_of_cons in Hin as [Hin|Hin]; [done|]);
      by apply elem_of_nil in Hin.
  - repeat constructor; try done.
    intros Hin; repeat (apply elem_of_cons in Hin as [Hin|Hin]; [done|]);
      by apply elem_of_nil in Hin.
  - reflexivity.
  - by repeat constructor.
  - reflexivity.
  - reflexivity.
  - reflexivity.
  - cbn. lia.
  - exists s'. split; [exact Hr|]. split; [exact Hc|]. split; [exact Hd|].
    unfold Server.is_closed. by rewrite Hw.
Defined.
